(** * CART cache (include/Cache.h): a shallow embedding and its properties

    The development follows [CART::Cache<KEY, VALUE, INTERFACE>] of
    include/Cache.h.  The cache is modelled sequentially: one call runs
    to completion before the next one starts.  The [CLOCKElement] nodes
    that the queues, the ghost lists and the two maps share through
    pointers live in an explicit store, so that a bit written through
    one pointer is seen through every other pointer to the same node. *)

From Stdlib Require Import ZArith Lia.
From stdpp Require Import gmap list fin_maps.

Local Open Scope Z_scope.

(** ** Machine integers

    [int] and [unsigned int] are 32 bits wide, [size_t] and
    [unsigned __int64] are 64 bits wide.  Values are integers of [Z];
    a conversion to an unsigned type reduces modulo the width, a
    conversion to [int] keeps the low 32 bits in two's complement.
    Arithmetic on [int] itself is exact: signed overflow is undefined
    in C++, and no statement below is made about it. *)

Definition to_uint (x : Z) : Z := x mod 4294967296.
Definition to_size_t (x : Z) : Z := x mod 18446744073709551616.
Definition to_int (x : Z) : Z := (x + 2147483648) mod 4294967296 - 2147483648.

(** [template <typename T, typename F> T Max(T x, F y)] and [Min]: the
    second argument is converted to the type of the first one; [T] is
    that conversion. *)
Definition Max (T : Z → Z) (x y : Z) : Z := if x <? T y then T y else x.
Definition Min (T : Z → Z) (x y : Z) : Z := if x <? T y then x else T y.

Global Arguments to_uint : simpl never.
Global Arguments to_size_t : simpl never.
Global Arguments to_int : simpl never.
Global Arguments Max : simpl never.
Global Arguments Min : simpl never.

(** ** Outcomes of a call

    [Ret] is a call that returns.  [Hang] is a call that does not
    return in a sequential run: it spins in [DecUsage] waiting for
    another holder, or asks for a slot of the concurrent map that it
    holds itself.  [Undef] is undefined behaviour of the source (a
    dangling or null pointer followed, [back()] of an empty list, an
    end iterator read).  [Fuel] is a loop of the model that was given
    too few iterations; [InternalInsert_total] shows that it does not
    occur. *)
Inductive res (A : Type) : Type :=
  | Ret (a : A)
  | Hang
  | Undef
  | Fuel.
Arguments Ret {A} a.
Arguments Hang {A}.
Arguments Undef {A}.
Arguments Fuel {A}.

Global Instance res_ret : MRet res := λ A a, Ret a.
Global Instance res_bind : MBind res := λ A B f m,
  match m with
  | Ret a => f a
  | Hang => Hang
  | Undef => Undef
  | Fuel => Fuel
  end.

(** Pointers are addresses; [nullptr] is address 0. *)
Abbreviation ptr := N.
Definition nullptr : ptr := 0%N.

(** [while (cond) body], with a bound on the number of tests of the
    condition. *)
Fixpoint while {S : Type} (fuel : nat) (cond : S → res bool) (body : S → res S)
    (s : S) : res S :=
  match fuel with
  | O => Fuel
  | S fuel' =>
      b ← cond s;
      if b : bool then s' ← body s; while fuel' cond body s' else Ret s
  end.

(** [std::list::erase] of the cell that holds [e]. *)
Fixpoint list_erase (e : ptr) (l : list ptr) : option (list ptr) :=
  match l with
  | [] => None
  | x :: l' => if decide (x = e) then Some l' else cons x <$> list_erase e l'
  end.

(** What an instantiation [Cache<KEY, VALUE, INTERFACE>] fixes besides
    the key type:
    - [CacheGetValueSize] is [INTERFACE::CacheGetValueSize], a [size_t];
    - [usage_id key value] is
      [HashMurmur3().Set(std::hash<KEY>()(key)).Add(value)], the row of
      the usage map for a key and a value; nothing is assumed about it,
      two pairs may share a row. *)
Class CacheTraits (KEY : Type) : Type := {
  CacheGetValueSize : ptr → Z;
  usage_id : KEY → ptr → Z
}.

Section CART.

(** [KEY] is the template argument; [std::hash<KEY>] and equality on
    keys make it a countable type with decidable equality. *)
Context {KEY : Type} `{Countable KEY} `{!CacheTraits KEY}.

(** ** Data *)

Record CLOCKElement : Type := mkCLOCKElement {
  pageKey : KEY;
  page : ptr;
  referenceBit : bool;
  longBit : bool;       (* false means Short, true means Long *)
  firstList : bool      (* element is in T1 or B1 list *)
}.

Definition set_page (v : ptr) (e : CLOCKElement) : CLOCKElement :=
  mkCLOCKElement (pageKey e) v (referenceBit e) (longBit e) (firstList e).
Definition set_referenceBit (b : bool) (e : CLOCKElement) : CLOCKElement :=
  mkCLOCKElement (pageKey e) (page e) b (longBit e) (firstList e).
Definition set_longBit (b : bool) (e : CLOCKElement) : CLOCKElement :=
  mkCLOCKElement (pageKey e) (page e) (referenceBit e) b (firstList e).
Definition set_firstList (b : bool) (e : CLOCKElement) : CLOCKElement :=
  mkCLOCKElement (pageKey e) (page e) (referenceBit e) (longBit e) b.

(** The members of [Cache], in the order of the class, followed by what
    the model adds: the store of [CLOCKElement] nodes with the next
    address [new] hands out, the calls of [CacheReleaseValue] made so
    far, and a flag that is raised when an [assert] of the source is
    evaluated on a false condition (a debug build stops there, a
    release build goes on as modelled). *)
Record Cache : Type := mkCache {
  m_p : Z;                       (* target size for T1 *)
  m_q : Z;                       (* target size for B1 *)
  m_T1T2map : gmap KEY ptr;
  m_T1Queue : list ptr;
  m_T2Queue : list ptr;
  m_numShort : Z;
  m_numLong : Z;
  m_usedMemory : Z;
  m_B1B2map : gmap KEY ptr;      (* ElementIt: the element, which also stands for its list cell *)
  m_B1List : list ptr;
  m_B1ListSize : Z;
  m_B2List : list ptr;
  m_B2ListSize : Z;
  m_maxNumElements : Z;
  m_maxUsedMemory : Z;
  m_usage : gmap Z Z;
  store : gmap ptr CLOCKElement;
  next_element : ptr;
  released : list (KEY * ptr);
  assert_failed : bool
}.

Definition set_p (v : Z) (s : Cache) : Cache :=
  mkCache v (m_q s) (m_T1T2map s) (m_T1Queue s) (m_T2Queue s) (m_numShort s) (m_numLong s)
    (m_usedMemory s) (m_B1B2map s) (m_B1List s) (m_B1ListSize s) (m_B2List s) (m_B2ListSize s)
    (m_maxNumElements s) (m_maxUsedMemory s) (m_usage s) (store s) (next_element s)
    (released s) (assert_failed s).
Definition set_q (v : Z) (s : Cache) : Cache :=
  mkCache (m_p s) v (m_T1T2map s) (m_T1Queue s) (m_T2Queue s) (m_numShort s) (m_numLong s)
    (m_usedMemory s) (m_B1B2map s) (m_B1List s) (m_B1ListSize s) (m_B2List s) (m_B2ListSize s)
    (m_maxNumElements s) (m_maxUsedMemory s) (m_usage s) (store s) (next_element s)
    (released s) (assert_failed s).
Definition set_T1T2map (v : gmap KEY ptr) (s : Cache) : Cache :=
  mkCache (m_p s) (m_q s) v (m_T1Queue s) (m_T2Queue s) (m_numShort s) (m_numLong s)
    (m_usedMemory s) (m_B1B2map s) (m_B1List s) (m_B1ListSize s) (m_B2List s) (m_B2ListSize s)
    (m_maxNumElements s) (m_maxUsedMemory s) (m_usage s) (store s) (next_element s)
    (released s) (assert_failed s).
Definition set_T1Queue (v : list ptr) (s : Cache) : Cache :=
  mkCache (m_p s) (m_q s) (m_T1T2map s) v (m_T2Queue s) (m_numShort s) (m_numLong s)
    (m_usedMemory s) (m_B1B2map s) (m_B1List s) (m_B1ListSize s) (m_B2List s) (m_B2ListSize s)
    (m_maxNumElements s) (m_maxUsedMemory s) (m_usage s) (store s) (next_element s)
    (released s) (assert_failed s).
Definition set_T2Queue (v : list ptr) (s : Cache) : Cache :=
  mkCache (m_p s) (m_q s) (m_T1T2map s) (m_T1Queue s) v (m_numShort s) (m_numLong s)
    (m_usedMemory s) (m_B1B2map s) (m_B1List s) (m_B1ListSize s) (m_B2List s) (m_B2ListSize s)
    (m_maxNumElements s) (m_maxUsedMemory s) (m_usage s) (store s) (next_element s)
    (released s) (assert_failed s).
Definition set_numShort (v : Z) (s : Cache) : Cache :=
  mkCache (m_p s) (m_q s) (m_T1T2map s) (m_T1Queue s) (m_T2Queue s) v (m_numLong s)
    (m_usedMemory s) (m_B1B2map s) (m_B1List s) (m_B1ListSize s) (m_B2List s) (m_B2ListSize s)
    (m_maxNumElements s) (m_maxUsedMemory s) (m_usage s) (store s) (next_element s)
    (released s) (assert_failed s).
Definition set_numLong (v : Z) (s : Cache) : Cache :=
  mkCache (m_p s) (m_q s) (m_T1T2map s) (m_T1Queue s) (m_T2Queue s) (m_numShort s) v
    (m_usedMemory s) (m_B1B2map s) (m_B1List s) (m_B1ListSize s) (m_B2List s) (m_B2ListSize s)
    (m_maxNumElements s) (m_maxUsedMemory s) (m_usage s) (store s) (next_element s)
    (released s) (assert_failed s).
Definition set_usedMemory (v : Z) (s : Cache) : Cache :=
  mkCache (m_p s) (m_q s) (m_T1T2map s) (m_T1Queue s) (m_T2Queue s) (m_numShort s) (m_numLong s)
    v (m_B1B2map s) (m_B1List s) (m_B1ListSize s) (m_B2List s) (m_B2ListSize s)
    (m_maxNumElements s) (m_maxUsedMemory s) (m_usage s) (store s) (next_element s)
    (released s) (assert_failed s).
Definition set_B1B2map (v : gmap KEY ptr) (s : Cache) : Cache :=
  mkCache (m_p s) (m_q s) (m_T1T2map s) (m_T1Queue s) (m_T2Queue s) (m_numShort s) (m_numLong s)
    (m_usedMemory s) v (m_B1List s) (m_B1ListSize s) (m_B2List s) (m_B2ListSize s)
    (m_maxNumElements s) (m_maxUsedMemory s) (m_usage s) (store s) (next_element s)
    (released s) (assert_failed s).
Definition set_B1List (v : list ptr) (n : Z) (s : Cache) : Cache :=
  mkCache (m_p s) (m_q s) (m_T1T2map s) (m_T1Queue s) (m_T2Queue s) (m_numShort s) (m_numLong s)
    (m_usedMemory s) (m_B1B2map s) v n (m_B2List s) (m_B2ListSize s)
    (m_maxNumElements s) (m_maxUsedMemory s) (m_usage s) (store s) (next_element s)
    (released s) (assert_failed s).
Definition set_B2List (v : list ptr) (n : Z) (s : Cache) : Cache :=
  mkCache (m_p s) (m_q s) (m_T1T2map s) (m_T1Queue s) (m_T2Queue s) (m_numShort s) (m_numLong s)
    (m_usedMemory s) (m_B1B2map s) (m_B1List s) (m_B1ListSize s) v n
    (m_maxNumElements s) (m_maxUsedMemory s) (m_usage s) (store s) (next_element s)
    (released s) (assert_failed s).
Definition set_usage (v : gmap Z Z) (s : Cache) : Cache :=
  mkCache (m_p s) (m_q s) (m_T1T2map s) (m_T1Queue s) (m_T2Queue s) (m_numShort s) (m_numLong s)
    (m_usedMemory s) (m_B1B2map s) (m_B1List s) (m_B1ListSize s) (m_B2List s) (m_B2ListSize s)
    (m_maxNumElements s) (m_maxUsedMemory s) v (store s) (next_element s)
    (released s) (assert_failed s).
Definition set_store (v : gmap ptr CLOCKElement) (s : Cache) : Cache :=
  mkCache (m_p s) (m_q s) (m_T1T2map s) (m_T1Queue s) (m_T2Queue s) (m_numShort s) (m_numLong s)
    (m_usedMemory s) (m_B1B2map s) (m_B1List s) (m_B1ListSize s) (m_B2List s) (m_B2ListSize s)
    (m_maxNumElements s) (m_maxUsedMemory s) (m_usage s) v (next_element s)
    (released s) (assert_failed s).
Definition set_next_element (v : ptr) (s : Cache) : Cache :=
  mkCache (m_p s) (m_q s) (m_T1T2map s) (m_T1Queue s) (m_T2Queue s) (m_numShort s) (m_numLong s)
    (m_usedMemory s) (m_B1B2map s) (m_B1List s) (m_B1ListSize s) (m_B2List s) (m_B2ListSize s)
    (m_maxNumElements s) (m_maxUsedMemory s) (m_usage s) (store s) v
    (released s) (assert_failed s).
Definition set_released (v : list (KEY * ptr)) (s : Cache) : Cache :=
  mkCache (m_p s) (m_q s) (m_T1T2map s) (m_T1Queue s) (m_T2Queue s) (m_numShort s) (m_numLong s)
    (m_usedMemory s) (m_B1B2map s) (m_B1List s) (m_B1ListSize s) (m_B2List s) (m_B2ListSize s)
    (m_maxNumElements s) (m_maxUsedMemory s) (m_usage s) (store s) (next_element s)
    v (assert_failed s).
Definition set_assert_failed (v : bool) (s : Cache) : Cache :=
  mkCache (m_p s) (m_q s) (m_T1T2map s) (m_T1Queue s) (m_T2Queue s) (m_numShort s) (m_numLong s)
    (m_usedMemory s) (m_B1B2map s) (m_B1List s) (m_B1ListSize s) (m_B2List s) (m_B2ListSize s)
    (m_maxNumElements s) (m_maxUsedMemory s) (m_usage s) (store s) (next_element s)
    (released s) v.

(** ** The store of nodes *)

(** [element->field], read. *)
Definition deref (e : ptr) (s : Cache) : res CLOCKElement :=
  match store s !! e with
  | Some el => Ret el
  | None => Undef
  end.

(** [element->field = v]. *)
Definition modify (e : ptr) (f : CLOCKElement → CLOCKElement) (s : Cache) : res Cache :=
  match store s !! e with
  | Some el => Ret (set_store (<[e := f el]> (store s)) s)
  | None => Undef
  end.

(** [new CLOCKElement(key, value)] with the three bits that
    [InternalInsert] sets right after it. *)
Definition new_element (el : CLOCKElement) (s : Cache) : ptr * Cache :=
  let e := next_element s in
  (e, set_next_element (N.succ e) (set_store (<[e := el]> (store s)) s)).

(** [delete element]. *)
Definition delete_element (e : ptr) (s : Cache) : res Cache :=
  match store s !! e with
  | Some _ => Ret (set_store (delete e (store s)) s)
  | None => Undef
  end.

(** [assert(cond)]. *)
Definition assert (cond : bool) (s : Cache) : Cache :=
  if cond then s else set_assert_failed true s.

Definition size_of (l : list ptr) : Z := Z.of_nat (length l).

(** ** Usage counters *)

Definition IncUsage (key : KEY) (value : ptr) (s : Cache) : Cache :=
  let id := usage_id key value in
  match m_usage s !! id with
  | Some n => set_usage (<[id := to_uint (n + 1)]> (m_usage s)) s
  | None => set_usage (<[id := 1]> (m_usage s)) s
  end.

Definition DecUsage (key : KEY) (value : ptr) (waitForLast : bool) (s : Cache)
    : res (bool * Cache) :=
  let id := usage_id key value in
  match m_usage s !! id with
  | Some n =>
      (* Wait for the handle to be released? *)
      if waitForLast && (1 <? n) then Hang
      else
        let n' := to_uint (n - 1) in
        if n' =? 0 then
          (* release value *)
          let s := set_released (released s ++ [(key, value)]) s in
          Ret (true, set_usage (delete id (m_usage s)) s)
        else Ret (false, set_usage (<[id := n']> (m_usage s)) s)
  | None =>
      (* assert(false): how come? *)
      Ret (false, assert false s)
  end.

Definition GetUsage (key : KEY) (value : ptr) (s : Cache) : Z * Cache :=
  match m_usage s !! usage_id key value with
  | Some n => (n, s)
  | None => (0, assert false s)
  end.

(** ** Handles

    [m_cache] is either this cache or null.  The key of a
    default-constructed handle is not initialised. *)
Record Handle : Type := mkHandle {
  h_cache : bool;
  h_key : option KEY;
  h_value : ptr
}.

(** [m_cache && m_value] *)
Definition pins (h : Handle) : bool := h_cache h && negb (h_value h =? nullptr)%N.

(** [Handle()] *)
Definition Handle_empty : Handle := mkHandle false None nullptr.

Definition IsEmpty (h : Handle) : bool := (h_value h =? nullptr)%N.

Definition Handle_IncUsage (h : Handle) (s : Cache) : res Cache :=
  if pins h then
    match h_key h with
    | Some k => Ret (IncUsage k (h_value h) s)
    | None => Undef
    end
  else Ret s.

(** [Handle(Cache* cache, KEY key, VALUE* value)] with [cache == this]. *)
Definition Handle_new (key : KEY) (value : ptr) (s : Cache) : res (Handle * Cache) :=
  let h := mkHandle true (Some key) value in
  s ← Handle_IncUsage h s; Ret (h, s).

(** [Handle(const Handle& op)] *)
Definition Handle_copy (op : Handle) (s : Cache) : res (Handle * Cache) :=
  let h := mkHandle (h_cache op) (h_key op) (h_value op) in
  s ← Handle_IncUsage h s; Ret (h, s).

(** [void Release()] *)
Definition Handle_Release (h : Handle) (s : Cache) : res (Handle * Cache) :=
  if pins h then
    match h_key h with
    | Some k =>
        '(isZero, s) ← DecUsage k (h_value h) false s;
        (* handle should not be the last one holding the lock *)
        let s := assert (negb isZero) s in
        Ret (mkHandle (h_cache h) (h_key h) nullptr, s)
    | None => Undef
    end
  else Ret (h, s).

(** [~Handle()] *)
Definition Handle_destroy (h : Handle) (s : Cache) : res Cache :=
  '(_, s) ← Handle_Release h s; Ret s.

(** [Handle& operator=(const Handle& op)].  [op] is [None] when the
    right-hand side is the handle itself: its members are read after
    [Release()] has cleared [m_value]. *)
Definition Handle_assign (h : Handle) (op : option Handle) (s : Cache)
    : res (Handle * Cache) :=
  '(h, s) ← Handle_Release h s;
  let op := match op with Some op => op | None => h end in
  let h := mkHandle (h_cache op) (h_key op) (h_value op) in
  s ← Handle_IncUsage h s; Ret (h, s).

(** [Handle(Handle&& op)]: the new handle and what is left of [op]. *)
Definition Handle_move (op : Handle) : Handle * Handle :=
  (mkHandle (h_cache op) (h_key op) (h_value op), mkHandle false (h_key op) nullptr).

(** [Handle& operator=(Handle&& op)]: the handle and what is left of
    [op].  [op] is [None] when the right-hand side is the handle
    itself, which the last two assignments then clear. *)
Definition Handle_move_assign (h : Handle) (op : option Handle) (s : Cache)
    : res (Handle * option Handle * Cache) :=
  '(h, s) ← Handle_Release h s;
  match op with
  | Some op =>
      Ret (mkHandle (h_cache op) (h_key op) (h_value op),
           Some (mkHandle false (h_key op) nullptr), s)
  | None => Ret (mkHandle false (h_key h) nullptr, None, s)
  end.

(** ** Construction and [Clear] *)

(** The loops of [Clear] over T1 and T2. *)
Fixpoint Clear_queue (q : list ptr) (s : Cache) : res Cache :=
  match q with
  | [] => Ret s
  | it :: q' =>
      el ← deref it s;
      '(_, s) ← DecUsage (pageKey el) (page el) true s;
      s ← delete_element it s;
      Clear_queue q' s
  end.

(** The loops of [Clear] over B1 and B2. *)
Fixpoint Clear_list (l : list ptr) (s : Cache) : res Cache :=
  match l with
  | [] => Ret s
  | it :: l' => s ← delete_element it s; Clear_list l' s
  end.

Definition Clear (s : Cache) : res Cache :=
  s ← Clear_queue (m_T1Queue s) s;
  let s := set_T1Queue [] s in
  s ← Clear_queue (m_T2Queue s) s;
  let s := set_T2Queue [] s in
  s ← Clear_list (m_B1List s) s;
  let s := set_B1List [] 0 s in
  s ← Clear_list (m_B2List s) s;
  let s := set_B2List [] 0 s in
  let s := set_p 0 s in
  let s := set_q 0 s in
  let s := set_numShort 0 s in
  let s := set_numLong 0 s in
  let s := set_usedMemory 0 s in
  let s := set_T1T2map ∅ s in
  Ret (set_B1B2map ∅ s).

(** [Cache(INTERFACE&, size_t maxNumElements, size_t maxUsedMemory)]:
    the members before the constructor's [Clear()], which finds every
    container empty. *)
Definition Cache_members (maxNumElements maxUsedMemory : Z) : Cache :=
  mkCache 0 0 ∅ [] [] 0 0 0 ∅ [] 0 [] 0 maxNumElements maxUsedMemory ∅ ∅ 1%N [] false.

Definition Cache_new (maxNumElements maxUsedMemory : Z) : Cache :=
  assert (negb (maxNumElements =? 0) || negb (maxUsedMemory =? 0))
    (Cache_members maxNumElements maxUsedMemory).

(** ** Lookup *)

Definition IsFull (s : Cache) : bool :=
  (negb (m_maxNumElements s =? 0)
     && (size_of (m_T1Queue s) + size_of (m_T2Queue s) >=? m_maxNumElements s))
  || (negb (m_maxUsedMemory s =? 0) && (m_usedMemory s >=? m_maxUsedMemory s)).

Definition IsInCache (key : KEY) (s : Cache) : res (Handle * Cache) :=
  match m_T1T2map s !! key with
  | Some e => el ← deref e s; Handle_new key (page el) s
  | None => Ret (Handle_empty, s)
  end.

(** ** [InternalInsert]

    [c] is the local [maxNumElements] of [InternalInsert], and [key] the
    key whose slot [writeAccessor] holds. *)

(** [(int)m_T2Queue.size() + m_B2ListSize + (int)m_T1Queue.size() - m_numShort >= maxNumElements]:
    the left side is an [int], converted to [unsigned __int64] for the
    comparison. *)
Definition q_grows (c : Z) (s : Cache) : bool :=
  to_size_t (to_int (size_of (m_T2Queue s)) + m_B2ListSize s
             + to_int (size_of (m_T1Queue s)) - m_numShort s) >=? c.

(** [m_q = (int)Min(m_q + 1, 2 * maxNumElements - m_T1Queue.size())] *)
Definition adapt_q_up (c : Z) (s : Cache) : Cache :=
  set_q (Min to_int (m_q s + 1) (to_size_t (2 * c - size_of (m_T1Queue s)))) s.

(** [while (!m_T2Queue.empty() && m_T2Queue.front()->referenceBit)] *)
Definition T2_sweep_cond (s : Cache) : res bool :=
  match m_T2Queue s with
  | [] => Ret false
  | front :: _ => el ← deref front s; Ret (referenceBit el)
  end.

Definition T2_sweep_body (c : Z) (s : Cache) : res Cache :=
  match m_T2Queue s with
  | [] => Undef
  | front :: rest =>
      (* Move head page in T2 to tail position in T1. Set the page reference bit to 0. *)
      let s := set_T1Queue (m_T1Queue s ++ [front]) s in
      let s := set_T2Queue rest s in
      let element := front in
      s ← modify element (set_referenceBit false) s;
      s ← modify element (set_firstList true) s;
      if q_grows c s then Ret (adapt_q_up c s) else Ret s
  end.

(** [while (m_T1Queue.size() && (m_T1Queue.front()->longBit || m_T1Queue.front()->referenceBit))] *)
Definition T1_sweep_cond (s : Cache) : res bool :=
  match m_T1Queue s with
  | [] => Ret false
  | front :: _ => el ← deref front s; Ret (longBit el || referenceBit el)
  end.

Definition T1_sweep_body (c : Z) (s : Cache) : res Cache :=
  match m_T1Queue s with
  | [] => Undef
  | element :: rest =>
      el ← deref element s;
      if referenceBit el then
        (* Move the head page in T1 to tail position in T1. Set the page reference bit to 0. *)
        let s := set_T1Queue (rest ++ [element]) s in
        s ← modify element (set_referenceBit false) s;
        if (size_of (m_T1Queue s) >=? Min to_uint (to_uint (to_uint (m_p s) + 1)) (m_B1ListSize s))
           && negb (longBit el)
        then
          s ← modify element (set_longBit true) s;
          let s := set_numShort (m_numShort s - 1) s in
          Ret (set_numLong (m_numLong s + 1) s)
        else Ret s
      else
        (* Move the head page in T1 to tail position in T2. Set the page reference bit to 0. *)
        let s := set_T1Queue rest s in
        let s := set_T2Queue (m_T2Queue s ++ [element]) s in
        s ← modify element (set_referenceBit false) s;
        s ← modify element (set_firstList false) s;
        Ret (set_q (Max to_int (m_q s - 1) (to_size_t (c - size_of (m_T1Queue s)))) s)
  end.

(** The two search loops of the demotion: the iterator walks [q] from
    position [i] while [GetUsage(...) > 1]; the result is the position
    it stops at, the length of the queue for [end()]. *)
Fixpoint scan_unpinned (q : list ptr) (i : nat) (s : Cache) : res (nat * Cache) :=
  match q with
  | [] => Ret (i, s)
  | it :: q' =>
      el ← deref it s;
      let '(u, s) := GetUsage (pageKey el) (page el) s in
      if 1 <? u then scan_unpinned q' (S i) s else Ret (i, s)
  end.

(** [m_T1T2map.find(eraseAccessor, element->pageKey)] up to
    [m_T1T2map.erase(eraseAccessor)], shared by the two demotions. *)
Definition demote_tail (key : KEY) (el : CLOCKElement) (s : Cache) : res Cache :=
  '(_, s) ← DecUsage (pageKey el) (page el) true s;
  let s := set_usedMemory (to_size_t (m_usedMemory s - CacheGetValueSize (page el))) s in
  match m_T1T2map s !! pageKey el with
  | Some _ => Ret (set_T1T2map (delete (pageKey el) (m_T1T2map s)) s)
  | None => Undef
  end.

(** [m_B1B2map.insert(std::make_pair(k, elementAndIt))] keeps an
    existing entry. *)
Definition B1B2map_insert (k : KEY) (e : ptr) (s : Cache) : Cache :=
  match m_B1B2map s !! k with
  | Some _ => s
  | None => set_B1B2map (<[k := e]> (m_B1B2map s)) s
  end.

Definition demote_T1 (key : KEY) (demoteT1 : nat) (s : Cache) : res Cache :=
  match m_T1Queue s !! demoteT1 with
  | None => Undef
  | Some element =>
      (* Demote the head page in T1 and make it the MRU page in B1. *)
      let s := set_T1Queue (delete demoteT1 (m_T1Queue s)) s in
      el ← deref element s;
      let s := if longBit el then set_numLong (m_numLong s - 1) s
               else set_numShort (m_numShort s - 1) s in
      if decide (pageKey el = key) then Hang
      else
        let s := assert (bool_decide (is_Some (m_T1T2map s !! pageKey el))) s in
        let s := set_B1List (element :: m_B1List s) (m_B1ListSize s + 1) s in
        let s := B1B2map_insert (pageKey el) element s in
        demote_tail key el s
  end.

Definition demote_T2 (key : KEY) (demoteT2 : nat) (s : Cache) : res Cache :=
  match m_T2Queue s !! demoteT2 with
  | None => Undef
  | Some element =>
      (* Demote the head page in T2 and make it the MRU page in B2. *)
      let s := set_T2Queue (delete demoteT2 (m_T2Queue s)) s in
      el ← deref element s;
      let s := set_numLong (m_numLong s - 1) s in
      if decide (pageKey el = key) then Hang
      else
        let s := assert (bool_decide (is_Some (m_T1T2map s !! pageKey el))) s in
        let s := set_B2List (element :: m_B2List s) (m_B2ListSize s + 1) s in
        let s := B1B2map_insert (pageKey el) element s in
        demote_tail key el s
  end.

(** Demote excessive pages. *)
Definition demote (key : KEY) (s : Cache) : res Cache :=
  let endT1 := length (m_T1Queue s) in
  let endT2 := length (m_T2Queue s) in
  (* Try to find something in T1 *)
  '(demoteT1, s) ←
    (if size_of (m_T1Queue s) >=? Max to_uint 1 (m_p s)
     then scan_unpinned (m_T1Queue s) 0 s else Ret (endT1, s));
  (* Demote in T2 if nothing can be deleted in T1 *)
  '(demoteT2, s) ←
    (if bool_decide (demoteT1 = endT1)
     then scan_unpinned (m_T2Queue s) 0 s else Ret (endT2, s));
  (* Perform demoting *)
  if bool_decide (demoteT1 ≠ endT1) then demote_T1 key demoteT1 s
  else if bool_decide (demoteT2 ≠ endT2) then demote_T2 key demoteT2 s
  else Ret s.

(** History replacement. *)
Definition history_full (key : KEY) (c : Z) (s : Cache) : bool :=
  bool_decide (m_B1B2map s !! key = None)
  && (to_size_t (to_int (Z.of_nat (size (m_B1B2map s)))) >=? to_size_t (c + 1)).

Definition history_from_B1 (s : Cache) : bool :=
  (Max id 0 (m_q s) <? m_B1ListSize s) || (m_B2ListSize s =? 0).

Definition history_replace (key : KEY) (c : Z) (s : Cache) : res Cache :=
  if history_full key c s then
    if history_from_B1 s then
      (* Remove the bottom page in B1 from history *)
      match last (m_B1List s) with
      | None => Undef
      | Some toRemove =>
          let s := set_B1List (removelast (m_B1List s)) (m_B1ListSize s - 1) s in
          el ← deref toRemove s;
          let s := set_B1B2map (delete (pageKey el) (m_B1B2map s)) s in
          delete_element toRemove s
      end
    else if 0 <? m_B2ListSize s then
      (* Remove the bottom page in B2 from history *)
      match last (m_B2List s) with
      | None => Undef
      | Some toRemove =>
          let s := set_B2List (removelast (m_B2List s)) (m_B2ListSize s - 1) s in
          el ← deref toRemove s;
          let s := set_B1B2map (delete (pageKey el) (m_B1B2map s)) s in
          delete_element toRemove s
      end
    else Ret s
  else Ret s.

(** The block under [if (IsFull())], after [maxNumElements] has been
    set.  A rotation of the T1 sweep clears a reference bit and a move
    shortens T1, hence the bounds of the two loops. *)
Definition replace (key : KEY) (c : Z) (s : Cache) : res Cache :=
  s ← while (S (length (m_T2Queue s))) T2_sweep_cond (T2_sweep_body c) s;
  s ← while (S (2 * length (m_T1Queue s))) T1_sweep_cond (T1_sweep_body c) s;
  s ← demote key s;
  history_replace key c s.

(** History miss: insert x at the tail of T1. *)
Definition install_new (key : KEY) (value : ptr) (s : Cache) : res Cache :=
  let '(element, s) := new_element (mkCLOCKElement key value false false true) s in
  let s := set_numShort (m_numShort s + 1) s in
  let s := set_T1T2map (<[key := element]> (m_T1T2map s)) s in
  Ret (set_T1Queue (m_T1Queue s ++ [element]) s).

(** History hit, x in B1. *)
Definition install_from_B1 (key : KEY) (value : ptr) (c : Z) (element : ptr) (s : Cache)
    : res Cache :=
  (* Adapt: increase the target size for the list T1 *)
  let s := set_p (Min to_int
                    (m_p s + Max id 1 (if m_B1ListSize s =? 0 then 0
                                       else Z.quot (m_numShort s) (m_B1ListSize s)))
                    c) s in
  s ← modify element (set_page value) s;
  s ← modify element (set_referenceBit false) s;
  s ← modify element (set_longBit true) s;
  let s := set_numLong (m_numLong s + 1) s in
  (* Move x to the tail of T1 *)
  let s := set_T1T2map (<[key := element]> (m_T1T2map s)) s in
  let s := set_T1Queue (m_T1Queue s ++ [element]) s in
  match list_erase element (m_B1List s) with
  | None => Undef
  | Some l =>
      let s := set_B1List l (m_B1ListSize s - 1) s in
      Ret (set_B1B2map (delete key (m_B1B2map s)) s)
  end.

(** History hit, x in B2. *)
Definition install_from_B2 (key : KEY) (value : ptr) (c : Z) (element : ptr) (s : Cache)
    : res Cache :=
  (* Adapt: decrease the target size for the list T1 *)
  let s := set_p (Max id
                    (m_p s - Max id 1 (if m_B2ListSize s =? 0 then 0
                                       else Z.quot (m_numLong s) (m_B2ListSize s)))
                    0) s in
  s ← modify element (set_page value) s;
  s ← modify element (set_firstList true) s;
  s ← modify element (set_referenceBit false) s;
  s ← modify element (set_longBit true) s;
  let s := set_numLong (m_numLong s + 1) s in
  (* Move x to the tail of T1 *)
  let s := set_T1T2map (<[key := element]> (m_T1T2map s)) s in
  let s := set_T1Queue (m_T1Queue s ++ [element]) s in
  match list_erase element (m_B2List s) with
  | None => Undef
  | Some l =>
      let s := set_B2List l (m_B2ListSize s - 1) s in
      let s := set_B1B2map (delete key (m_B1B2map s)) s in
      if q_grows c s then Ret (adapt_q_up c s) else Ret s
  end.

Definition install (key : KEY) (value : ptr) (c : Z) (s : Cache) : res Cache :=
  match m_B1B2map s !! key with
  | None => install_new key value s
  | Some element =>
      el ← deref element s;
      if firstList el then install_from_B1 key value c element s
      else install_from_B2 key value c element s
  end.

(** The value of the local [maxNumElements] once the test of
    [IsFull()] is past. *)
Definition capacity (s : Cache) : Z :=
  if IsFull s then size_of (m_T1Queue s) + size_of (m_T2Queue s) else m_maxNumElements s.

(** [acquired] is what [m_interface.CacheAcquireValue(key)] answers if
    it is called. *)
Definition InternalInsert (key : KEY) (value : ptr) (acquired : ptr) (s : Cache)
    : res (Handle * Cache) :=
  match m_T1T2map s !! key with
  | Some e =>
      (* another thread inserted it meanwhile *)
      el ← deref e s; Handle_new key (page el) s
  | None =>
      (* Lock current key from reading/modification *)
      let s := set_T1T2map (<[key := nullptr]> (m_T1T2map s)) s in
      (* Fetch a page, if needed *)
      let value := if (value =? nullptr)%N then acquired else value in
      let s := IncUsage key value s in
      let c := capacity s in
      s ← (if IsFull s then replace key c s else Ret s);
      s ← install key value c s;
      let s := set_usedMemory (to_size_t (m_usedMemory s + CacheGetValueSize value)) s in
      Handle_new key value s
  end.

Definition FindOrCreate (key : KEY) (acquired : ptr) (s : Cache) : res (Handle * Cache) :=
  match m_T1T2map s !! key with
  | Some e =>
      s ← modify e (set_referenceBit true) s;   (* set reference bit *)
      el ← deref e s;
      Handle_new key (page el) s
  | None =>
      (* Cache miss *)
      InternalInsert key nullptr acquired s
  end.

Definition InsertIntoCache (key : KEY) (value : ptr) (acquired : ptr) (s : Cache)
    : res (Handle * Cache) :=
  InternalInsert key value acquired s.

(** ** Sequences of calls

    What a client can do with the cache: its public operations and the
    life of the handles they return.  A handle operation names the
    handle it acts on; the handle a cache operation returns is the
    client's to keep, copy or release by later steps.  Assigning to a
    handle is a release followed by a copy.

    [RemoveFromCache] is not among the calls.  Its body,
    [InternalRemove], ends with [DecUsage(element->pageKey,
    element->page)] (Cache.h:607), two arguments for the three
    parameters of [DecUsage(KEY, VALUE*, bool)] (Cache.h:629), none of
    which has a default: the member cannot be instantiated, and a
    program that calls it does not compile. *)
Inductive call : Type :=
  | CallFindOrCreate (key : KEY) (acquired : ptr)
  | CallIsInCache (key : KEY)
  | CallInsertIntoCache (key : KEY) (value : ptr) (acquired : ptr)
  | CallClear
  | CallHandleCopy (h : Handle)
  | CallHandleRelease (h : Handle).

Definition step (o : call) (s : Cache) : res Cache :=
  match o with
  | CallFindOrCreate key acquired => '(_, s) ← FindOrCreate key acquired s; Ret s
  | CallIsInCache key => '(_, s) ← IsInCache key s; Ret s
  | CallInsertIntoCache key value acquired =>
      '(_, s) ← InsertIntoCache key value acquired s; Ret s
  | CallClear => Clear s
  | CallHandleCopy h => '(_, s) ← Handle_copy h s; Ret s
  | CallHandleRelease h => '(_, s) ← Handle_Release h s; Ret s
  end.

Fixpoint run (os : list call) (s : Cache) : res Cache :=
  match os with
  | [] => Ret s
  | o :: os' => s' ← step o s; run os' s'
  end.

(** The states a cache goes through: what a sequence of complete calls
    makes of a freshly constructed cache. *)
Definition reachable (s : Cache) : Prop :=
  ∃ maxNumElements maxUsedMemory os,
    (maxNumElements ≠ 0 ∨ maxUsedMemory ≠ 0) ∧
    0 ≤ maxNumElements ∧ 0 ≤ maxUsedMemory ∧
    run os (Cache_new maxNumElements maxUsedMemory) = Ret s.

(** ** The representation invariant

    What the containers of a cache satisfy between two calls
    ([pending = None]) and, inside [InternalInsert], while the slot of
    the key being inserted holds a null pointer
    ([pending = Some key]). *)

Definition long_at (s : Cache) (e : ptr) : bool :=
  match store s !! e with
  | Some el => longBit el
  | None => false
  end.

Definition short_at (s : Cache) (e : ptr) : bool :=
  match store s !! e with
  | Some el => negb (longBit el)
  | None => false
  end.

Definition referenced_at (s : Cache) (e : ptr) : bool :=
  match store s !! e with
  | Some el => referenceBit el
  | None => false
  end.

Fixpoint count (f : ptr → bool) (l : list ptr) : nat :=
  match l with
  | [] => O
  | e :: l' => ((if f e then 1 else 0) + count f l')%nat
  end.

(** [e] is a resident node of the first ([first = true]) or of the
    second queue. *)
Definition resident_node (s : Cache) (first : bool) (e : ptr) : Prop :=
  ∃ el, store s !! e = Some el ∧ firstList el = first
        ∧ (first = false → longBit el = true)
        ∧ m_T1T2map s !! pageKey el = Some e.

(** [e] is a ghost of B1 ([first = true]) or of B2. *)
Definition ghost_node (s : Cache) (first : bool) (e : ptr) : Prop :=
  ∃ el, store s !! e = Some el ∧ firstList el = first
        ∧ m_B1B2map s !! pageKey el = Some e.

Record wf (pending : option KEY) (s : Cache) : Prop := mk_wf {
  wf_T1_nodup : NoDup (m_T1Queue s);
  wf_T2_nodup : NoDup (m_T2Queue s);
  wf_B1_nodup : NoDup (m_B1List s);
  wf_B2_nodup : NoDup (m_B2List s);
  wf_T1 : ∀ e, e ∈ m_T1Queue s → resident_node s true e;
  wf_T2 : ∀ e, e ∈ m_T2Queue s → resident_node s false e;
  wf_B1 : ∀ e, e ∈ m_B1List s → ghost_node s true e;
  wf_B2 : ∀ e, e ∈ m_B2List s → ghost_node s false e;
  wf_R : ∀ k e, m_T1T2map s !! k = Some e → pending ≠ Some k →
           ∃ el, store s !! e = Some el ∧ pageKey el = k
                 ∧ (e ∈ m_T1Queue s ∨ e ∈ m_T2Queue s);
  wf_G : ∀ k e, m_B1B2map s !! k = Some e →
           ∃ el, store s !! e = Some el ∧ pageKey el = k
                 ∧ (e ∈ m_B1List s ∨ e ∈ m_B2List s);
  wf_pending : ∀ k, pending = Some k → m_T1T2map s !! k = Some nullptr;
  wf_apart : ∀ k, is_Some (m_T1T2map s !! k) → is_Some (m_B1B2map s !! k) →
               pending = Some k;
  wf_B1size : m_B1ListSize s = size_of (m_B1List s);
  wf_B2size : m_B2ListSize s = size_of (m_B2List s);
  wf_Gsize : size (m_B1B2map s) = (length (m_B1List s) + length (m_B2List s))%nat;
  wf_numLong : m_numLong s = Z.of_nat (count (long_at s) (m_T1Queue s ++ m_T2Queue s));
  wf_total : m_numShort s + m_numLong s = size_of (m_T1Queue s) + size_of (m_T2Queue s);
  wf_null : store s !! nullptr = None;
  wf_next : ∀ e, is_Some (store s !! e) → (e < next_element s)%N;
  wf_next_pos : next_element s ≠ nullptr
}.

End CART.

Global Arguments CLOCKElement KEY : clear implicits.
Global Arguments Cache KEY {_ _}.
Global Arguments Handle KEY : clear implicits.
Global Arguments call KEY : clear implicits.

(** * Vocabulary of the proofs *)

(** Taking one cell out of a list. *)
Definition without (e : ptr) (l l' : list ptr) : Prop :=
  ∃ l1 l2, l = l1 ++ e :: l2 ∧ l' = l1 ++ l2.

Section Vocabulary.
Context {KEY : Type} `{Countable KEY} `{!CacheTraits KEY}.
Implicit Types (s : Cache KEY) (e : ptr) (el : CLOCKElement KEY) (key k : KEY).

(** What the two sweeps leave alone. *)
Definition sweep_frame s s' : Prop :=
  m_T1T2map s' = m_T1T2map s ∧ m_B1B2map s' = m_B1B2map s ∧
  m_B1List s' = m_B1List s ∧ m_B1ListSize s' = m_B1ListSize s ∧
  m_B2List s' = m_B2List s ∧ m_B2ListSize s' = m_B2ListSize s ∧
  m_usage s' = m_usage s ∧ released s' = released s ∧
  m_usedMemory s' = m_usedMemory s ∧ m_p s' = m_p s ∧
  m_maxNumElements s' = m_maxNumElements s ∧ m_maxUsedMemory s' = m_maxUsedMemory s ∧
  assert_failed s' = assert_failed s ∧ next_element s' = next_element s ∧
  m_T1Queue s' ++ m_T2Queue s' ≡ₚ m_T1Queue s ++ m_T2Queue s.

(** The rotations and moves left to the T1 sweep. *)
Definition T1_sweep_measure s : nat :=
  (length (m_T1Queue s) + count (referenced_at s) (m_T1Queue s))%nat.

Definition queue s (first : bool) : list ptr := if first then m_T1Queue s else m_T2Queue s.
Definition ghosts s (first : bool) : list ptr := if first then m_B1List s else m_B2List s.
Definition ghosts_size s (first : bool) : Z := if first then m_B1ListSize s else m_B2ListSize s.

(** [s'] differs from [s] in the usage map, the released values and the
    flag of the assertions at most. *)
Definition bookkeeping s s' : Prop :=
  s' = set_usage (m_usage s') (set_released (released s') (set_assert_failed (assert_failed s') s)).

(** The row of a node in the usage map does not ask [DecUsage] to wait. *)
Definition unpinned s el : Prop :=
  ∀ n, m_usage s !! usage_id (pageKey el) (page el) = Some n → n ≤ 1.

(** What a demotion leaves alone, and by how much the history grows. *)
Definition demote_frame key s s' : Prop :=
  (length (m_B1List s') + length (m_B2List s') ≤ length (m_B1List s) + length (m_B2List s) + 1)%nat
  ∧ (length (m_B1List s) + length (m_B2List s) ≤ length (m_B1List s') + length (m_B2List s'))%nat
  ∧ m_B1B2map s' !! key = m_B1B2map s !! key
  ∧ m_p s' = m_p s ∧ m_q s' = m_q s
  ∧ m_maxNumElements s' = m_maxNumElements s ∧ m_maxUsedMemory s' = m_maxUsedMemory s.

Definition history_length s : nat := (length (m_B1List s) + length (m_B2List s))%nat.

(** What the history replacement leaves alone. *)
Definition history_frame key s s' : Prop :=
  m_T1Queue s' = m_T1Queue s ∧ m_T2Queue s' = m_T2Queue s ∧
  m_T1T2map s' = m_T1T2map s ∧ m_B1B2map s' !! key = m_B1B2map s !! key ∧
  m_p s' = m_p s ∧ m_q s' = m_q s ∧ m_numShort s' = m_numShort s ∧ m_numLong s' = m_numLong s ∧
  m_usage s' = m_usage s ∧ m_usedMemory s' = m_usedMemory s ∧
  m_maxNumElements s' = m_maxNumElements s ∧ m_maxUsedMemory s' = m_maxUsedMemory s.

(** What [install] does whatever the history says: the node of the key
    is the new tail of T1, with the value, the reference bit clear and
    the slot of the key pointing to it. *)
Definition installed key value s s' : Prop :=
  ∃ e el,
    m_T1Queue s' = m_T1Queue s ++ [e] ∧ m_T2Queue s' = m_T2Queue s ∧
    store s' !! e = Some el ∧ pageKey el = key ∧ page el = value ∧
    referenceBit el = false ∧ firstList el = true ∧
    longBit el = bool_decide (is_Some (m_B1B2map s !! key)) ∧
    m_T1T2map s' = <[key := e]> (m_T1T2map s) ∧
    m_usage s' = m_usage s ∧ released s' = released s ∧
    assert_failed s' = assert_failed s ∧ m_usedMemory s' = m_usedMemory s ∧
    m_maxNumElements s' = m_maxNumElements s ∧ m_maxUsedMemory s' = m_maxUsedMemory s ∧
    history_length s
    = (history_length s' + (if bool_decide (is_Some (m_B1B2map s !! key)) then 1 else 0))%nat.

(** The state from which the history replacement starts. *)
Definition before_history key s s1 : Prop :=
  wf (Some key) s1 ∧
  (history_length s ≤ history_length s1 ≤ history_length s + 1)%nat ∧
  m_B1B2map s1 !! key = m_B1B2map s !! key ∧
  m_maxNumElements s1 = m_maxNumElements s ∧ m_maxUsedMemory s1 = m_maxUsedMemory s.

(** The value that ends up in the cache. *)
Definition inserted_value (value acquired : ptr) : ptr :=
  if (value =? nullptr)%N then acquired else value.

(** The state in which [InternalInsert] tests [IsFull]. *)
Definition insert_start key value acquired s : Cache KEY :=
  IncUsage key (inserted_value value acquired)
    (set_T1T2map (<[key := nullptr]> (m_T1T2map s)) s).

(** The store only loses nodes, and nothing else changes but the
    usage map, the released values and the flag. *)
Definition shrinks s s' : Prop :=
  s' = set_store (store s') (set_usage (m_usage s') (set_released (released s')
         (set_assert_failed (assert_failed s') s))) ∧
  (∀ e, is_Some (store s' !! e) → is_Some (store s !! e)).

(** The count of holders [GetUsage] reads for a key and a value. *)
Definition usage_count s key (value : ptr) : Z := (GetUsage key value s).1.

(** The number of residents plus one is still a [size_t]. *)
Definition residents_fit s : Prop :=
  size_of (m_T1Queue s) + size_of (m_T2Queue s) + 1 < 18446744073709551616.


End Vocabulary.

(** * Vocabulary of the further properties *)

Section MoreVocabulary.
Context {KEY : Type} `{Countable KEY} `{!CacheTraits KEY}.
Implicit Types (s : Cache KEY) (e : ptr) (el : CLOCKElement KEY) (key k : KEY).

(** The row of the usage map that counts the holders of the value of a
    node. *)
Definition row_of el : Z := usage_id (pageKey el) (page el).

(** Somebody besides the cache holds the value of node [e]:
    [GetUsage(e->pageKey, e->page) > 1]. *)
Definition pinned s e : Prop :=
  ∃ el n, store s !! e = Some el ∧ m_usage s !! row_of el = Some n ∧ 1 < n.

(** The cache is the only holder of the value of node [e]. *)
Definition sole_holder s e : Prop :=
  ∀ el n, store s !! e = Some el → m_usage s !! row_of el = Some n → n = 1.

(** The two limits given to the constructor. *)
Definition same_limits s s' : Prop :=
  m_maxNumElements s' = m_maxNumElements s ∧ m_maxUsedMemory s' = m_maxUsedMemory s.

(** Where a scan for a node that nobody but the cache holds stops in
    [q]: every node before position [j] is pinned, and position [j] is
    the end of [q] or a node that is not. *)
Definition first_unpinned s (q : list ptr) (j : nat) : Prop :=
  (∀ i e, (i < j)%nat → q !! i = Some e → pinned s e) ∧
  (j ≤ length q)%nat ∧
  ((j < length q)%nat → ∃ e el, q !! j = Some e ∧ store s !! e = Some el ∧ unpinned s el).

(** [DecUsage] on a row that does not make it wait: the state it
    returns. *)
Definition dropped key (value : ptr) s : Cache KEY :=
  match m_usage s !! usage_id key value with
  | Some n =>
      if to_uint (n - 1) =? 0
      then set_usage (delete (usage_id key value) (m_usage s))
             (set_released (released s ++ [(key, value)]) s)
      else set_usage (<[usage_id key value := to_uint (n - 1)]> (m_usage s)) s
  | None => set_assert_failed true s
  end.

(** The demotion of the node [e] found at position [j] of T1
    ([first = true]) or T2: the node is the new front of B1 or B2 and
    is remembered in the ghost index, its key leaves the resident
    index, its filter is counted off, the size of its value is taken
    off the used memory and the cache gives up its hold on the
    value. *)
Definition demoted (first : bool) (j : nat) e el s : Cache KEY :=
  let s := if first then set_T1Queue (delete j (m_T1Queue s)) s
           else set_T2Queue (delete j (m_T2Queue s)) s in
  let s := if first && negb (longBit el) then set_numShort (m_numShort s - 1) s
           else set_numLong (m_numLong s - 1) s in
  let s := if first then set_B1List (e :: m_B1List s) (m_B1ListSize s + 1) s
           else set_B2List (e :: m_B2List s) (m_B2ListSize s + 1) s in
  let s := set_B1B2map (<[pageKey el := e]> (m_B1B2map s)) s in
  let s := dropped (pageKey el) (page el) s in
  let s := set_usedMemory (to_size_t (m_usedMemory s - CacheGetValueSize (page el))) s in
  set_T1T2map (delete (pageKey el) (m_T1T2map s)) s.

(** [s'] is [s] up to the flag of the assertions. *)
Definition flagged s s' : Prop := s' = set_assert_failed (assert_failed s') s.

(** The key and the value that each node carries. *)
Definition values s : gmap ptr (KEY * ptr) := (λ el, (pageKey el, page el)) <$> store s.







End MoreVocabulary.

(** * The cache of the test program

    test/Test.cpp instantiates [Cache<key_t, key_t, CacheImpl>] with
    [key_t = unsigned int]; [CacheImpl::CacheGetValueSize] answers
    [sizeof(key_t)].  The row of the usage map is an injective function
    of the key and the address of the value here. *)
#[global] Instance test_traits : CacheTraits N := {
  CacheGetValueSize := λ _, 4;
  usage_id := λ key value, Z.of_N key * 4294967296 + Z.of_N value
}.

(** The loader puts the value of key [k] at address [100 + k]. *)
Definition value_of (k : N) : ptr := (100 + k)%N.

(** [cache[k]], keeping the handle. *)
Definition lookup (k : N) : call N := CallFindOrCreate k (value_of k).

(** The handle that [cache[k]] returns. *)
Definition handle_of (k : N) : Handle N := mkHandle true (Some k) (value_of k).

(** [cache[k]] as a statement of its own: the handle is a temporary. *)
Definition touch (k : N) : list (call N) := [lookup k; CallHandleRelease (handle_of k)].

(** The state after the calls [os] on a new cache with the two limits. *)
Definition state_after (os : list (call N)) (maxNumElements maxUsedMemory : Z) : Cache N :=
  match run os (Cache_new maxNumElements maxUsedMemory) with
  | Ret s => s
  | _ => Cache_new maxNumElements maxUsedMemory
  end.

(** Limit of 2 entries: keys 1, 2, 3 touched in turn; key 1 is a ghost
    in B1, keys 2 and 3 are in T1. *)
Definition three_touched : Cache N :=
  state_after (touch 1 ++ touch 2 ++ touch 3) 2 0.

(** Limit of 2 entries: keys 1 and 2 touched, key 1 touched again (a
    hit, which sets its reference bit). *)
Definition referenced : Cache N := state_after (touch 1 ++ touch 2 ++ touch 1) 2 0.

(** The same, then keys 3 and 4 touched: key 1 has been made Long and
    moved to T2, key 4 is in T1. *)
Definition promoted : Cache N :=
  state_after (touch 1 ++ touch 2 ++ touch 1 ++ touch 3 ++ touch 4) 2 0.

(** Limit of 2 entries: key 1 looked up, handle kept. *)
Definition one_held : Cache N := state_after [lookup 1] 2 0.

(** Limits of 10 entries and 4 bytes: one value of 4 bytes is resident,
    the byte budget makes the cache full. *)
Definition byte_limited : Cache N := state_after (touch 1) 10 4.

(** [three_touched] at the point where [InternalInsert] of key 1 calls
    [install]: key 2 has been demoted. *)
Definition before_install : Cache N :=
  match replace 1%N 2 (insert_start 1%N nullptr (value_of 1) three_touched) with
  | Ret s => s
  | _ => three_touched
  end.








(** Limit of 2 entries: key 1 looked up and its handle kept, key 2
    touched.  The cache is full and somebody holds the value of
    key 1. *)
Definition held_and_full : Cache N := state_after ([lookup 1] ++ touch 2) 2 0.

(** Limit of 2 entries: keys 1 and 2 looked up, both handles kept. *)
Definition all_held : Cache N := state_after [lookup 1; lookup 2] 2 0.

(** [promoted] after another hit of key 1: the front of T2 is
    referenced. *)
Definition T2_referenced : Cache N :=
  state_after (touch 1 ++ touch 2 ++ touch 1 ++ touch 3 ++ touch 4 ++ touch 1) 2 0.




#[local] Set Warnings "-clear-no-such-hyp".
#[local] Arguments Z.quot : simpl never.
#[local] Arguments Z.add : simpl never.
#[local] Arguments Z.sub : simpl never.
#[local] Arguments Z.mul : simpl never.

(** * Properties *)

(** ** Outcomes *)

Lemma bind_Ret_inv {A B : Type} (m : res A) (f : A → res B) (b : B) :
  m ≫= f = Ret b → ∃ a, m = Ret a ∧ f a = Ret b.
Proof. destruct m as [a| | |]; simpl; intros Hm; try discriminate. by exists a. Qed.

Lemma bind_Ret_l {A B : Type} (a : A) (f : A → res B) : Ret a ≫= f = f a.
Proof. reflexivity. Qed.

(** ** Lists *)

Lemma count_app (f : ptr → bool) (l1 l2 : list ptr) :
  count f (l1 ++ l2) = (count f l1 + count f l2)%nat.
Proof. induction l1 as [|x l1 IH]; simpl; [done|]. rewrite IH. lia. Qed.

Lemma count_ext (f g : ptr → bool) (l : list ptr) :
  (∀ e, e ∈ l → f e = g e) → count f l = count g l.
Proof.
  induction l as [|x l IH]; simpl; intros Hfg; [done|].
  rewrite (Hfg x) by set_solver. rewrite IH; [done|]. intros e He. apply Hfg. set_solver.
Qed.

Lemma count_le_length (f : ptr → bool) (l : list ptr) : (count f l ≤ length l)%nat.
Proof. induction l as [|x l IH]; simpl; [done|]. destruct (f x); lia. Qed.

Lemma count_all (f : ptr → bool) (l : list ptr) :
  (∀ e, e ∈ l → f e = true) → count f l = length l.
Proof.
  induction l as [|x l IH]; simpl; intros Hf; [done|].
  rewrite (Hf x) by set_solver. rewrite IH; [done|]. intros e He. apply Hf. set_solver.
Qed.


Lemma without_length e l l' : without e l l' → length l = S (length l').
Proof. intros (l1 & l2 & -> & ->). rewrite !length_app. simpl. lia. Qed.

Lemma without_NoDup e l l' : without e l l' → NoDup l → NoDup l' ∧ e ∉ l'.
Proof.
  intros (l1 & l2 & -> & ->) Hnd.
  apply NoDup_app in Hnd as (H1 & H12 & H2). apply NoDup_cons in H2 as [He2 H2].
  split.
  - apply NoDup_app. split_and!; [done| |done]. intros x Hx Hx2. apply (H12 x Hx). set_solver.
  - intros [He|He]%elem_of_app; [|done]. apply (H12 e He). set_solver.
Qed.

Lemma without_elem_of e l l' x : without e l l' → x ∈ l ↔ x = e ∨ x ∈ l'.
Proof. intros (l1 & l2 & -> & ->). set_solver. Qed.

Lemma without_count f e l l' :
  without e l l' → count f l = ((if f e then 1 else 0) + count f l')%nat.
Proof. intros (l1 & l2 & -> & ->). rewrite !count_app. simpl. lia. Qed.

Lemma without_delete (l : list ptr) i e : l !! i = Some e → without e l (delete i l).
Proof.
  intros Hi. exists (take i l), (drop (S i) l). split.
  - by rewrite take_drop_middle.
  - apply delete_take_drop.
Qed.

Lemma without_head e l : without e (e :: l) l.
Proof. by exists [], l. Qed.

Lemma without_last (l : list ptr) e : last l = Some e → without e l (removelast l).
Proof.
  intros Hl. exists (removelast l), []. rewrite app_nil_r. split; [|done].
  destruct (decide (l = [])) as [->|Hne]; [done|].
  rewrite (app_removelast_last e Hne) at 1. f_equal. f_equal.
  apply last_Some in Hl as [l' ->]. by rewrite List.last_last.
Qed.

Lemma without_erase e l : e ∈ l → ∃ l', list_erase e l = Some l' ∧ without e l l'.
Proof.
  induction l as [|x l IH]; [set_solver|]. intros He. simpl.
  destruct (decide (x = e)) as [->|Hne]; [eexists; split; [done|apply without_head]|].
  destruct IH as (l' & -> & (l1 & l2 & -> & ->)); [set_solver|].
  exists (x :: l1 ++ l2). split; [done|]. by exists (x :: l1), l2.
Qed.

Section Properties.
Context {KEY : Type} `{Countable KEY} `{!CacheTraits KEY}.
Implicit Types (s : Cache KEY) (e : ptr) (el : CLOCKElement KEY) (key k : KEY).
Implicit Types (pend : option KEY).

(** Linear arithmetic with the conversions between integer types. *)
Ltac wrap_lia :=
  unfold to_size_t, to_int, to_uint in *; Z.div_mod_to_equations; lia.

(** ** Consequences of the invariant *)

Lemma count_Permutation (f : ptr → bool) (l1 l2 : list ptr) :
  l1 ≡ₚ l2 → count f l1 = count f l2.
Proof. induction 1; simpl; lia. Qed.

Lemma wf_resident_stored pend s b e :
  wf pend s → resident_node s b e → e ≠ nullptr ∧ is_Some (store s !! e).
Proof.
  intros Hwf (el & Hel & _). split; [|eauto].
  intros ->. rewrite (wf_null _ _ Hwf) in Hel. discriminate.
Qed.

Lemma wf_T1_T2_apart pend s e :
  wf pend s → e ∈ m_T1Queue s → e ∈ m_T2Queue s → False.
Proof.
  intros Hwf H1 H2.
  destruct (wf_T1 _ _ Hwf e H1) as (el & Hel & Hf & _).
  destruct (wf_T2 _ _ Hwf e H2) as (el' & Hel' & Hf' & _).
  congruence.
Qed.

Lemma wf_B1_B2_apart pend s e :
  wf pend s → e ∈ m_B1List s → e ∈ m_B2List s → False.
Proof.
  intros Hwf H1 H2.
  destruct (wf_B1 _ _ Hwf e H1) as (el & Hel & Hf & _).
  destruct (wf_B2 _ _ Hwf e H2) as (el' & Hel' & Hf' & _).
  congruence.
Qed.

Lemma wf_resident_ghost_apart pend s b b' e :
  wf pend s → resident_node s b e → ghost_node s b' e → False.
Proof.
  intros Hwf (el & Hel & _ & _ & HR) (el' & Hel' & _ & HG).
  assert (el' = el) as -> by congruence.
  assert (pend = Some (pageKey el)) as Hp by (eapply wf_apart; eauto).
  rewrite (wf_pending _ _ Hwf _ Hp) in HR. injection HR as <-.
  rewrite (wf_null _ _ Hwf) in Hel. discriminate.
Qed.

Lemma wf_resident pend s e :
  wf pend s → e ∈ m_T1Queue s ∨ e ∈ m_T2Queue s →
  ∃ b, resident_node s b e.
Proof.
  intros Hwf [He|He]; [exists true; by apply (wf_T1 _ _ Hwf)|exists false; by apply (wf_T2 _ _ Hwf)].
Qed.

Lemma wf_ghost pend s e :
  wf pend s → e ∈ m_B1List s ∨ e ∈ m_B2List s →
  ∃ b, ghost_node s b e.
Proof.
  intros Hwf [He|He]; [exists true; by apply (wf_B1 _ _ Hwf)|exists false; by apply (wf_B2 _ _ Hwf)].
Qed.

Lemma wf_queues_NoDup pend s : wf pend s → NoDup (m_T1Queue s ++ m_T2Queue s).
Proof.
  intros Hwf. apply NoDup_app. split_and!; [by apply (wf_T1_nodup _ _ Hwf)| |by apply (wf_T2_nodup _ _ Hwf)].
  intros e H1 H2. by eapply wf_T1_T2_apart.
Qed.

(** The key of a resident node is not the key being inserted. *)
Lemma wf_resident_key pend s b e el :
  wf pend s → resident_node s b e → store s !! e = Some el → pend ≠ Some (pageKey el).
Proof.
  intros Hwf Hr Hel Hp. destruct Hr as (el' & Hel' & _ & _ & HR).
  assert (el' = el) as -> by congruence.
  rewrite (wf_pending _ _ Hwf _ Hp) in HR. injection HR as <-.
  rewrite (wf_null _ _ Hwf) in Hel. discriminate.
Qed.

(** ** A resident node changes its bits and its queue *)

Lemma wf_resident_update pend s s' e0 el0 el0' :
  wf pend s →
  store s !! e0 = Some el0 →
  store s' = <[e0 := el0']> (store s) →
  pageKey el0' = pageKey el0 →
  m_T1T2map s' = m_T1T2map s →
  m_B1B2map s' = m_B1B2map s →
  m_B1List s' = m_B1List s → m_B1ListSize s' = m_B1ListSize s →
  m_B2List s' = m_B2List s → m_B2ListSize s' = m_B2ListSize s →
  next_element s' = next_element s →
  m_T1Queue s' ++ m_T2Queue s' ≡ₚ m_T1Queue s ++ m_T2Queue s →
  (∀ e, e ≠ e0 → e ∈ m_T1Queue s' → e ∈ m_T1Queue s) →
  (∀ e, e ≠ e0 → e ∈ m_T2Queue s' → e ∈ m_T2Queue s) →
  e0 ∈ m_T1Queue s ∨ e0 ∈ m_T2Queue s →
  (e0 ∈ m_T1Queue s' → firstList el0' = true) →
  (e0 ∈ m_T2Queue s' → firstList el0' = false ∧ longBit el0' = true) →
  m_numShort s' + m_numLong s' = m_numShort s + m_numLong s →
  m_numLong s' - m_numLong s
    = (if longBit el0' then 1 else 0) - (if longBit el0 then 1 else 0) →
  wf pend s'.
Proof.
  intros Hwf Hel0 Hst Hpk HR HG HB1 HB1s HB2 HB2s Hnext Hperm HT1 HT2 Hin0 Hf1 Hf2 Hsum Hlong.
  assert (NoDup (m_T1Queue s' ++ m_T2Queue s')) as Hnd.
  { rewrite Hperm. by eapply wf_queues_NoDup. }
  apply NoDup_app in Hnd as (Hnd1 & Hnd12 & Hnd2).
  destruct (wf_resident _ _ _ Hwf Hin0) as [b0 Hr0].
  assert (m_T1T2map s !! pageKey el0 = Some e0) as HR0.
  { destruct Hr0 as (el & Hel & _ & _ & HRel). congruence. }
  assert (∀ e, e ∈ m_B1List s ∨ e ∈ m_B2List s → e ≠ e0) as Hghost.
  { intros e He ->. destruct (wf_ghost _ _ _ Hwf He) as [b Hg].
    eapply wf_resident_ghost_apart; eauto. }
  assert (∀ b e, e ≠ e0 → resident_node s b e → resident_node s' b e) as Hres.
  { intros b e Hne (el & Hel & ?). exists el. rewrite Hst, lookup_insert_ne, HR by done. done. }
  assert (∀ b e, e ≠ e0 → ghost_node s b e → ghost_node s' b e) as Hgh.
  { intros b e Hne (el & Hel & ?). exists el. rewrite Hst, lookup_insert_ne, HG by done. done. }
  constructor.
  - done.
  - done.
  - rewrite HB1. by apply (wf_B1_nodup _ _ Hwf).
  - rewrite HB2. by apply (wf_B2_nodup _ _ Hwf).
  - intros e He. destruct (decide (e = e0)) as [->|Hne].
    + exists el0'. rewrite Hst, lookup_insert_eq, HR, Hpk. split_and!; auto. done.
    + apply Hres; [done|]. apply (wf_T1 _ _ Hwf). auto.
  - intros e He. destruct (decide (e = e0)) as [->|Hne].
    + exists el0'. rewrite Hst, lookup_insert_eq, HR, Hpk. destruct (Hf2 He). split_and!; auto.
    + apply Hres; [done|]. apply (wf_T2 _ _ Hwf). auto.
  - intros e He. rewrite HB1 in He. apply Hgh; [apply Hghost; auto|]. by apply (wf_B1 _ _ Hwf).
  - intros e He. rewrite HB2 in He. apply Hgh; [apply Hghost; auto|]. by apply (wf_B2 _ _ Hwf).
  - intros k e Hk Hp. rewrite HR in Hk.
    destruct (wf_R _ _ Hwf k e Hk Hp) as (el & Hel & Hkey & Hin).
    assert (e ∈ m_T1Queue s' ∨ e ∈ m_T2Queue s') as Hin'.
    { apply elem_of_app. rewrite Hperm. by apply elem_of_app. }
    destruct (decide (e = e0)) as [->|Hne].
    + exists el0'. rewrite Hst, lookup_insert_eq. split_and!; [done| |done]. congruence.
    + exists el. rewrite Hst, lookup_insert_ne by done. done.
  - intros k e Hk. rewrite HG in Hk.
    destruct (wf_G _ _ Hwf k e Hk) as (el & Hel & Hkey & Hin).
    exists el. rewrite Hst, lookup_insert_ne, HB1, HB2; [done|]. intros ->. by eapply Hghost.
  - intros k Hk. rewrite HR. by apply (wf_pending _ _ Hwf).
  - intros k. rewrite HR, HG. by apply (wf_apart _ _ Hwf).
  - rewrite HB1s, HB1. by apply (wf_B1size _ _ Hwf).
  - rewrite HB2s, HB2. by apply (wf_B2size _ _ Hwf).
  - rewrite HG, HB1, HB2. by apply (wf_Gsize _ _ Hwf).
  - pose proof (wf_numLong _ _ Hwf) as HnL.
    assert (∃ l, m_T1Queue s ++ m_T2Queue s ≡ₚ e0 :: l ∧ e0 ∉ l) as (l & Hl & Hnl).
    { apply elem_of_app, elem_of_Permutation in Hin0 as [l Hl]. exists l. split; [done|].
      pose proof (wf_queues_NoDup _ _ Hwf) as Hq. rewrite Hl in Hq. by apply NoDup_cons in Hq as []. }
    rewrite (count_Permutation _ _ _ Hl) in HnL.
    rewrite (count_Permutation _ _ _ (transitivity Hperm Hl)).
    simpl in *. unfold long_at at 1 in HnL. rewrite Hel0 in HnL.
    unfold long_at at 1. rewrite Hst, lookup_insert_eq.
    rewrite (count_ext (long_at s') (long_at s)).
    + destruct (longBit el0), (longBit el0'); lia.
    + intros e He. unfold long_at. rewrite Hst, lookup_insert_ne; [done|]. intros ->. done.
  - rewrite Hsum, (wf_total _ _ Hwf). unfold size_of.
    pose proof (Permutation_length Hperm) as Hlen. rewrite !length_app in Hlen. lia.
  - rewrite Hst, lookup_insert_ne; [by apply (wf_null _ _ Hwf)|].
    intros ->. rewrite (wf_null _ _ Hwf) in Hel0. discriminate.
  - intros e. rewrite Hst, Hnext. intros He. apply (wf_next _ _ Hwf).
    destruct (decide (e = e0)) as [->|Hne]; [eauto|]. by rewrite lookup_insert_ne in He.
  - rewrite Hnext. by apply (wf_next_pos _ _ Hwf).
Qed.

(** ** Primitive steps *)

Lemma deref_Ret s e el : store s !! e = Some el → deref e s = Ret el.
Proof. unfold deref. by intros ->. Qed.

Lemma modify_Ret s e el f :
  store s !! e = Some el → modify e f s = Ret (set_store (<[e := f el]> (store s)) s).
Proof. unfold modify. by intros ->. Qed.

Lemma delete_element_Ret s e el :
  store s !! e = Some el → delete_element e s = Ret (set_store (delete e (store s)) s).
Proof. unfold delete_element. by intros ->. Qed.

Lemma while_total {S : Type} (P : S → Prop) (μ : S → nat) (cond : S → res bool)
    (body : S → res S) :
  (∀ x, P x → ∃ b, cond x = Ret b) →
  (∀ x, P x → cond x = Ret true → ∃ x', body x = Ret x' ∧ P x' ∧ (μ x' < μ x)%nat) →
  ∀ fuel x, P x → (μ x < fuel)%nat →
    ∃ x', while fuel cond body x = Ret x' ∧ P x' ∧ cond x' = Ret false.
Proof.
  intros Hcond Hbody. induction fuel as [|fuel IH]; intros x HP Hμ; [lia|].
  simpl. destruct (Hcond x HP) as [[] Hb]; rewrite Hb; simpl.
  - destruct (Hbody x HP Hb) as (x' & -> & HP' & Hlt). simpl. apply IH; [done|lia].
  - by exists x.
Qed.


Lemma sweep_frame_refl s : sweep_frame s s.
Proof. by repeat split. Qed.

Lemma sweep_frame_trans s1 s2 s3 : sweep_frame s1 s2 → sweep_frame s2 s3 → sweep_frame s1 s3.
Proof.
  unfold sweep_frame. intros H12 H23. destruct_and!.
  split_and!; try (etransitivity; eassumption).
Qed.

Lemma wf_set_q pend v s : wf pend s → wf pend (set_q v s).
Proof. intros Hwf. destruct Hwf. constructor; assumption. Qed.

Lemma wf_adapt_q_up pend c s : wf pend s → wf pend (adapt_q_up c s).
Proof. apply wf_set_q. Qed.

Lemma T2_sweep_cond_total pend s : wf pend s → ∃ b, T2_sweep_cond s = Ret b.
Proof.
  intros Hwf. unfold T2_sweep_cond. destruct (m_T2Queue s) as [|front rest] eqn:HT2; [by eexists|].
  destruct (wf_T2 _ _ Hwf front) as (el & Hel & _); [rewrite HT2; set_solver|].
  rewrite (deref_Ret _ _ _ Hel). by eexists.
Qed.

Lemma T2_sweep_body_wf pend c s :
  wf pend s → T2_sweep_cond s = Ret true →
  ∃ s', T2_sweep_body c s = Ret s' ∧ wf pend s' ∧ sweep_frame s s'
        ∧ (length (m_T2Queue s') < length (m_T2Queue s))%nat.
Proof.
  intros Hwf Hc. unfold T2_sweep_cond, T2_sweep_body in *.
  destruct (m_T2Queue s) as [|front rest] eqn:HT2; [discriminate|].
  destruct (wf_T2 _ _ Hwf front) as (el & Hel & Hfirst & Hlong & HR); [rewrite HT2; set_solver|].
  erewrite modify_Ret by (simpl; eassumption). simpl.
  erewrite modify_Ret by (simpl; apply lookup_insert_eq). simpl.
  rewrite insert_insert_eq.
  match goal with |- ∃ s', (if ?b then Ret (adapt_q_up c ?s1) else Ret _) = _ ∧ _ =>
    assert (wf pend s1 ∧ sweep_frame s s1 ∧ m_T2Queue s1 = rest) as (Hwf1 & Hfr1 & HT21);
    [|destruct b; eexists; (split; [reflexivity|])]
  end.
  - split_and!; [|repeat split; simpl; rewrite ?HT2; try done|done].
    + eapply (wf_resident_update pend s _ front el); simpl; rewrite ?HT2; try done.
      * by rewrite <-app_assoc.
      * set_solver.
      * set_solver.
      * set_solver.
      * intros He. exfalso. pose proof (wf_T2_nodup _ _ Hwf) as Hnd. rewrite HT2 in Hnd.
        by apply NoDup_cons in Hnd as [].
      * simpl. lia.
    + by rewrite <-app_assoc.
  - split_and!.
    + by apply wf_adapt_q_up.
    + unfold sweep_frame in *. simpl. done.
    + simpl. lia.
  - split_and!; [done|done|]. simpl. lia.
Qed.

Lemma T1_sweep_cond_total pend s : wf pend s → ∃ b, T1_sweep_cond s = Ret b.
Proof.
  intros Hwf. unfold T1_sweep_cond. destruct (m_T1Queue s) as [|front rest] eqn:HT1; [by eexists|].
  destruct (wf_T1 _ _ Hwf front) as (el & Hel & _); [rewrite HT1; set_solver|].
  rewrite (deref_Ret _ _ _ Hel). by eexists.
Qed.


Lemma count_referenced_insert s s' e el l :
  store s' = <[e := el]> (store s) → e ∉ l →
  count (referenced_at s') l = count (referenced_at s) l.
Proof.
  intros Hst Hnin. apply count_ext. intros x Hx. unfold referenced_at.
  rewrite Hst, lookup_insert_ne; [done|]. by intros ->.
Qed.

Lemma referenced_at_insert s s' e el :
  store s' = <[e := el]> (store s) → referenced_at s' e = referenceBit el.
Proof. intros Hst. unfold referenced_at. by rewrite Hst, lookup_insert_eq. Qed.

Lemma T1_sweep_body_wf pend c s :
  wf pend s → T1_sweep_cond s = Ret true →
  ∃ s', T1_sweep_body c s = Ret s' ∧ wf pend s' ∧ sweep_frame s s'
        ∧ (T1_sweep_measure s' < T1_sweep_measure s)%nat.
Proof.
  intros Hwf Hc. unfold T1_sweep_cond, T1_sweep_body, T1_sweep_measure in *.
  destruct (m_T1Queue s) as [|e rest] eqn:HT1; [discriminate|].
  destruct (wf_T1 _ _ Hwf e) as (el & Hel & Hfirst & _ & HR); [rewrite HT1; set_solver|].
  pose proof (wf_T1_nodup _ _ Hwf) as Hnd. rewrite HT1 in Hnd. apply NoDup_cons in Hnd as [Hnin Hnd].
  assert (e ∉ m_T2Queue s) as Hnin2.
  { intros He. eapply wf_T1_T2_apart; [done| |done]. rewrite HT1. set_solver. }
  rewrite (deref_Ret _ _ _ Hel) in Hc |- *. simpl in Hc |- *. injection Hc as Hc.
  destruct (referenceBit el) eqn:Href.
  - (* rotation *)
    erewrite modify_Ret by (simpl; eassumption). simpl.
    assert ((rest ++ [e]) ++ m_T2Queue s ≡ₚ (e :: rest) ++ m_T2Queue s) as Hperm.
    { by rewrite (Permutation_app_comm rest). }
    match goal with |- ∃ s', (if ?b then _ else _) = _ ∧ _ => destruct b eqn:Hb end.
    + apply andb_true_iff in Hb as [_ Hshort]. apply negb_true_iff in Hshort.
      erewrite modify_Ret by (simpl; apply lookup_insert_eq). simpl.
      rewrite insert_insert_eq. eexists. split; [reflexivity|]. split_and!.
      * eapply (wf_resident_update pend s _ e el (set_longBit true (set_referenceBit false el)));
          simpl; rewrite ?HT1, ?Hshort; try done; try lia; set_solver.
      * repeat split; simpl; rewrite ?HT1; done.
      * simpl. rewrite count_app, length_app. simpl.
        erewrite (count_referenced_insert s); [|reflexivity|done].
        erewrite (referenced_at_insert s); [|reflexivity].
        unfold referenced_at. rewrite Hel, Href. simpl. lia.
    + eexists. split; [reflexivity|]. split_and!.
      * eapply (wf_resident_update pend s _ e el (set_referenceBit false el));
          simpl; rewrite ?HT1; try done; try lia; set_solver.
      * repeat split; simpl; rewrite ?HT1; done.
      * simpl. rewrite count_app, length_app. simpl.
        erewrite (count_referenced_insert s); [|reflexivity|done].
        erewrite (referenced_at_insert s); [|reflexivity].
        unfold referenced_at. rewrite Hel, Href. simpl. lia.
  - (* move to T2 *)
    rewrite orb_false_r in Hc.
    assert (rest ++ m_T2Queue s ++ [e] ≡ₚ (e :: rest) ++ m_T2Queue s) as Hperm.
    { rewrite (Permutation_app_comm (m_T2Queue s)). simpl. by rewrite Permutation_middle. }
    erewrite modify_Ret by (simpl; eassumption). simpl.
    erewrite modify_Ret by (simpl; apply lookup_insert_eq). simpl.
    rewrite insert_insert_eq. eexists. split; [reflexivity|]. split_and!.
    + eapply (wf_resident_update pend s _ e el (set_firstList false (set_referenceBit false el)));
        simpl; rewrite ?HT1, ?Hc; try done; try lia; set_solver.
    + repeat split; simpl; rewrite ?HT1; done.
    + simpl. erewrite (count_referenced_insert s); [|reflexivity|done].
      destruct (referenced_at s e); lia.
Qed.

Lemma T2_sweep_wf pend c s :
  wf pend s →
  ∃ s', while (S (length (m_T2Queue s))) T2_sweep_cond (T2_sweep_body c) s = Ret s'
        ∧ wf pend s' ∧ sweep_frame s s'.
Proof.
  intros Hwf.
  destruct (while_total (λ x, wf pend x ∧ sweep_frame s x) (λ x, length (m_T2Queue x))
              T2_sweep_cond (T2_sweep_body c)) with (fuel := S (length (m_T2Queue s))) (x := s)
    as (s' & Hrun & [Hwf' Hfr] & _).
  - intros x [Hx _]. by eapply T2_sweep_cond_total.
  - intros x [Hx Hfx] Hc. destruct (T2_sweep_body_wf pend c x Hx Hc) as (x' & ? & ? & ? & ?).
    exists x'. split_and!; try done. by eapply sweep_frame_trans.
  - split; [done|apply sweep_frame_refl].
  - lia.
  - by exists s'.
Qed.

Lemma T1_sweep_wf pend c s :
  wf pend s →
  ∃ s', while (S (2 * length (m_T1Queue s))) T1_sweep_cond (T1_sweep_body c) s = Ret s'
        ∧ wf pend s' ∧ sweep_frame s s' ∧ T1_sweep_cond s' = Ret false.
Proof.
  intros Hwf.
  destruct (while_total (λ x, wf pend x ∧ sweep_frame s x) T1_sweep_measure
              T1_sweep_cond (T1_sweep_body c)) with (fuel := S (2 * length (m_T1Queue s))) (x := s)
    as (s' & Hrun & [Hwf' Hfr] & Hstop).
  - intros x [Hx _]. by eapply T1_sweep_cond_total.
  - intros x [Hx Hfx] Hc. destruct (T1_sweep_body_wf pend c x Hx Hc) as (x' & ? & ? & ? & ?).
    exists x'. split_and!; try done. by eapply sweep_frame_trans.
  - split; [done|apply sweep_frame_refl].
  - unfold T1_sweep_measure. pose proof (count_le_length (referenced_at s) (m_T1Queue s)). lia.
  - by exists s'.
Qed.

(** ** The invariant, uniformly in the two queues and the two ghost lists *)


Lemma wf_queue pend s b e : wf pend s → e ∈ queue s b → resident_node s b e.
Proof. intros Hwf. destruct b; [apply (wf_T1 _ _ Hwf)|apply (wf_T2 _ _ Hwf)]. Qed.

Lemma wf_ghosts pend s b e : wf pend s → e ∈ ghosts s b → ghost_node s b e.
Proof. intros Hwf. destruct b; [apply (wf_B1 _ _ Hwf)|apply (wf_B2 _ _ Hwf)]. Qed.

Lemma wf_queue_nodup pend s b : wf pend s → NoDup (queue s b).
Proof. intros Hwf. destruct b; [apply (wf_T1_nodup _ _ Hwf)|apply (wf_T2_nodup _ _ Hwf)]. Qed.

Lemma wf_ghosts_nodup pend s b : wf pend s → NoDup (ghosts s b).
Proof. intros Hwf. destruct b; [apply (wf_B1_nodup _ _ Hwf)|apply (wf_B2_nodup _ _ Hwf)]. Qed.

Lemma wf_ghosts_size pend s b : wf pend s → ghosts_size s b = size_of (ghosts s b).
Proof. intros Hwf. destruct b; [apply (wf_B1size _ _ Hwf)|apply (wf_B2size _ _ Hwf)]. Qed.

Lemma wf_queue_apart pend s b b' e :
  wf pend s → e ∈ queue s b → e ∈ queue s b' → b = b'.
Proof.
  intros Hwf (el & Hel & Hf & _)%(wf_queue pend) (el' & Hel' & Hf' & _)%(wf_queue pend); try done.
  congruence.
Qed.

Lemma wf_ghosts_apart pend s b b' e :
  wf pend s → e ∈ ghosts s b → e ∈ ghosts s b' → b = b'.
Proof.
  intros Hwf (el & Hel & Hf & _)%(wf_ghosts pend) (el' & Hel' & Hf' & _)%(wf_ghosts pend); try done.
  congruence.
Qed.

Lemma wf_queue_ghosts_apart pend s b b' e :
  wf pend s → e ∈ queue s b → e ∈ ghosts s b' → False.
Proof.
  intros Hwf Hq%(wf_queue pend) Hg%(wf_ghosts pend); try done.
  by eapply wf_resident_ghost_apart.
Qed.

Lemma wf_R_queue pend s k e :
  wf pend s → m_T1T2map s !! k = Some e → pend ≠ Some k →
  ∃ el b, store s !! e = Some el ∧ pageKey el = k ∧ firstList el = b ∧ e ∈ queue s b.
Proof.
  intros Hwf Hk Hp. destruct (wf_R _ _ Hwf k e Hk Hp) as (el & Hel & Hkey & [Hin|Hin]).
  - exists el, true. split_and!; try done.
    destruct (wf_T1 _ _ Hwf e Hin) as (el' & Hel' & ? & _). congruence.
  - exists el, false. split_and!; try done.
    destruct (wf_T2 _ _ Hwf e Hin) as (el' & Hel' & ? & _). congruence.
Qed.

Lemma wf_G_ghosts pend s k e :
  wf pend s → m_B1B2map s !! k = Some e →
  ∃ el b, store s !! e = Some el ∧ pageKey el = k ∧ firstList el = b ∧ e ∈ ghosts s b.
Proof.
  intros Hwf Hk. destruct (wf_G _ _ Hwf k e Hk) as (el & Hel & Hkey & [Hin|Hin]).
  - exists el, true. split_and!; try done.
    destruct (wf_B1 _ _ Hwf e Hin) as (el' & Hel' & ? & _). congruence.
  - exists el, false. split_and!; try done.
    destruct (wf_B2 _ _ Hwf e Hin) as (el' & Hel' & ? & _). congruence.
Qed.

Lemma wf_intro pend s :
  (∀ b, NoDup (queue s b)) →
  (∀ b, NoDup (ghosts s b)) →
  (∀ b e, e ∈ queue s b → resident_node s b e) →
  (∀ b e, e ∈ ghosts s b → ghost_node s b e) →
  (∀ k e, m_T1T2map s !! k = Some e → pend ≠ Some k →
     ∃ el b, store s !! e = Some el ∧ pageKey el = k ∧ e ∈ queue s b) →
  (∀ k e, m_B1B2map s !! k = Some e →
     ∃ el b, store s !! e = Some el ∧ pageKey el = k ∧ e ∈ ghosts s b) →
  (∀ k, pend = Some k → m_T1T2map s !! k = Some nullptr) →
  (∀ k, is_Some (m_T1T2map s !! k) → is_Some (m_B1B2map s !! k) → pend = Some k) →
  (∀ b, ghosts_size s b = size_of (ghosts s b)) →
  size (m_B1B2map s) = (length (ghosts s true) + length (ghosts s false))%nat →
  m_numLong s = Z.of_nat (count (long_at s) (queue s true ++ queue s false)) →
  m_numShort s + m_numLong s = size_of (queue s true) + size_of (queue s false) →
  store s !! nullptr = None →
  (∀ e, is_Some (store s !! e) → (e < next_element s)%N) →
  next_element s ≠ nullptr →
  wf pend s.
Proof.
  intros Hqn Hgn Hq Hg HR HG Hp Hap Hsz HGs HnL Htot Hnull Hnext Hpos.
  constructor; try done.
  - apply (Hqn true).
  - apply (Hqn false).
  - apply (Hgn true).
  - apply (Hgn false).
  - apply (Hq true).
  - apply (Hq false).
  - apply (Hg true).
  - apply (Hg false).
  - intros k e Hk Hpk. destruct (HR k e Hk Hpk) as (el & [] & ? & ? & ?); eauto 6.
  - intros k e Hk. destruct (HG k e Hk) as (el & [] & ? & ? & ?); eauto 6.
  - apply (Hsz true).
  - apply (Hsz false).
Qed.

(** ** A resident node becomes a ghost *)

Lemma wf_demote pend s s' b e0 el0 :
  wf pend s → e0 ∈ queue s b → store s !! e0 = Some el0 →
  store s' = store s → next_element s' = next_element s →
  without e0 (queue s b) (queue s' b) → queue s' (negb b) = queue s (negb b) →
  ghosts s' b = e0 :: ghosts s b → ghosts s' (negb b) = ghosts s (negb b) →
  ghosts_size s' b = ghosts_size s b + 1 →
  ghosts_size s' (negb b) = ghosts_size s (negb b) →
  m_T1T2map s' = delete (pageKey el0) (m_T1T2map s) →
  m_B1B2map s' = <[pageKey el0 := e0]> (m_B1B2map s) →
  m_numLong s' = m_numLong s - (if longBit el0 then 1 else 0) →
  m_numShort s' + m_numLong s' = m_numShort s + m_numLong s - 1 →
  wf pend s'.
Proof.
  intros Hwf Hin0 Hel0 Hst Hnext Hq Hq' Hg Hg' Hgs Hgs' HR HG HnL Htot.
  pose proof (wf_queue _ _ _ _ Hwf Hin0) as Hr0.
  assert (firstList el0 = b ∧ m_T1T2map s !! pageKey el0 = Some e0) as [Hf0 HR0].
  { destruct Hr0 as (el & Hel & ? & _ & ?). split; congruence. }
  assert (pend ≠ Some (pageKey el0)) as Hp0 by (by eapply wf_resident_key).
  assert (m_B1B2map s !! pageKey el0 = None) as HG0.
  { destruct (m_B1B2map s !! pageKey el0) eqn:HG0; [|done]. exfalso. apply Hp0.
    eapply wf_apart; eauto. }
  destruct (without_NoDup _ _ _ Hq (wf_queue_nodup _ _ b Hwf)) as [Hnd' Hnin'].
  assert (∀ b' e, e ∈ queue s' b' → e ∈ queue s b' ∧ e ≠ e0) as Hsub.
  { intros b' e He. destruct (decide (b' = b)) as [->|Hne].
    - split; [apply (without_elem_of _ _ _ e Hq); auto|]. by intros ->.
    - assert (b' = negb b) as -> by (destruct b, b'; done). rewrite Hq' in He.
      split; [done|]. intros ->. destruct b; by pose proof (wf_queue_apart _ _ _ _ _ Hwf Hin0 He). }
  assert (∀ b' e, e ∈ ghosts s' b' → e = e0 ∧ b' = b ∨ e ∈ ghosts s b') as Hgsub.
  { intros b' e He. destruct (decide (b' = b)) as [->|Hne].
    - rewrite Hg in He. set_solver.
    - assert (b' = negb b) as -> by (destruct b, b'; done). rewrite Hg' in He. auto. }
  apply wf_intro.
  - intros b'. destruct (decide (b' = b)) as [->|Hne]; [done|].
    assert (b' = negb b) as -> by (destruct b, b'; done). rewrite Hq'. by eapply wf_queue_nodup.
  - intros b'. destruct (decide (b' = b)) as [->|Hne].
    + rewrite Hg. apply NoDup_cons. split; [|by eapply wf_ghosts_nodup].
      intros He. by eapply wf_queue_ghosts_apart.
    + assert (b' = negb b) as -> by (destruct b, b'; done). rewrite Hg'. by eapply wf_ghosts_nodup.
  - intros b' e [He Hne]%Hsub. destruct (wf_queue _ _ _ _ Hwf He) as (el & Hel & ? & ? & HRe).
    exists el. rewrite Hst, HR. split_and!; try done. rewrite lookup_delete_ne; [done|].
    intros Heq. rewrite Heq in HR0. congruence.
  - intros b' e [[-> ->]|He]%Hgsub.
    + exists el0. rewrite Hst, HG, lookup_insert_eq. done.
    + destruct (wf_ghosts _ _ _ _ Hwf He) as (el & Hel & ? & HGe).
      exists el. rewrite Hst, HG. split_and!; try done. rewrite lookup_insert_ne; [done|].
      intros Heq. rewrite Heq in HG0. congruence.
  - intros k e Hk Hp. rewrite HR in Hk. apply lookup_delete_Some in Hk as [Hne Hk].
    destruct (wf_R_queue _ _ _ _ Hwf Hk Hp) as (el & b' & Hel & Hkey & _ & Hin).
    exists el, b'. rewrite Hst. split_and!; try done.
    assert (e ≠ e0) as Hne0 by (intros ->; congruence).
    destruct (decide (b' = b)) as [->|Hneb].
    + apply (without_elem_of _ _ _ e Hq) in Hin as [?|?]; done.
    + assert (b' = negb b) as -> by (destruct b, b'; done). by rewrite Hq'.
  - intros k e Hk. rewrite HG in Hk. apply lookup_insert_Some in Hk as [[<- <-]|[Hne Hk]].
    + exists el0, b. rewrite Hst, Hg. split_and!; try done. set_solver.
    + destruct (wf_G_ghosts _ _ _ _ Hwf Hk) as (el & b' & Hel & Hkey & _ & Hin).
      exists el, b'. rewrite Hst. split_and!; try done.
      destruct (decide (b' = b)) as [->|Hneb]; [rewrite Hg; set_solver|].
      assert (b' = negb b) as -> by (destruct b, b'; done). by rewrite Hg'.
  - intros k Hk. rewrite HR, lookup_delete_ne; [by apply (wf_pending _ _ Hwf)|]. congruence.
  - intros k Hk1 Hk2. rewrite HR in Hk1. rewrite HG in Hk2.
    apply lookup_delete_is_Some in Hk1 as [Hne Hk1].
    rewrite lookup_insert_ne in Hk2 by done. by apply (wf_apart _ _ Hwf).
  - intros b'. destruct (decide (b' = b)) as [->|Hne].
    + rewrite Hgs, Hg, (wf_ghosts_size pend) by done. unfold size_of. simpl. lia.
    + assert (b' = negb b) as -> by (destruct b, b'; done).
      rewrite Hgs', Hg'. by eapply wf_ghosts_size.
  - rewrite HG, map_size_insert_None, (wf_Gsize _ _ Hwf) by done.
    destruct b; simpl in *; rewrite Hg, Hg'; simpl; lia.
  - rewrite HnL, (wf_numLong _ _ Hwf).
    rewrite (count_ext (long_at s') (long_at s)) by (intros; unfold long_at; by rewrite Hst).
    rewrite !count_app.
    assert (long_at s e0 = longBit el0) as Hl0 by (unfold long_at; by rewrite Hel0).
    destruct b; simpl in *; rewrite Hq', (without_count _ _ _ _ Hq), Hl0;
      destruct (longBit el0); lia.
  - rewrite Htot, (wf_total _ _ Hwf). pose proof (without_length _ _ _ Hq) as Hlen.
    unfold size_of. destruct b; simpl in *; rewrite Hq'; lia.
  - rewrite Hst. by apply (wf_null _ _ Hwf).
  - intros e. rewrite Hst, Hnext. by apply (wf_next _ _ Hwf).
  - rewrite Hnext. by apply (wf_next_pos _ _ Hwf).
Qed.

Ltac other_side b b' :=
  assert (b' = negb b) as -> by (destruct b, b'; done).

(** ** A ghost is forgotten *)

Lemma wf_forget pend s s' b e0 el0 :
  wf pend s → e0 ∈ ghosts s b → store s !! e0 = Some el0 →
  store s' = delete e0 (store s) → next_element s' = next_element s →
  m_T1Queue s' = m_T1Queue s → m_T2Queue s' = m_T2Queue s →
  without e0 (ghosts s b) (ghosts s' b) → ghosts s' (negb b) = ghosts s (negb b) →
  ghosts_size s' b = ghosts_size s b - 1 →
  ghosts_size s' (negb b) = ghosts_size s (negb b) →
  m_T1T2map s' = m_T1T2map s →
  m_B1B2map s' = delete (pageKey el0) (m_B1B2map s) →
  m_numLong s' = m_numLong s → m_numShort s' = m_numShort s →
  wf pend s'.
Proof.
  intros Hwf Hin0 Hel0 Hst Hnext HT1 HT2 Hg Hg' Hgs Hgs' HR HG HnL HnS.
  pose proof (wf_ghosts _ _ _ _ Hwf Hin0) as Hg0.
  assert (firstList el0 = b ∧ m_B1B2map s !! pageKey el0 = Some e0) as [Hf0 HG0].
  { destruct Hg0 as (el & Hel & ? & ?). split; congruence. }
  destruct (without_NoDup _ _ _ Hg (wf_ghosts_nodup _ _ b Hwf)) as [Hnd' Hnin'].
  assert (∀ b' e, e ∈ queue s' b' → e ∈ queue s b' ∧ e ≠ e0) as Hsub.
  { intros b' e He. assert (e ∈ queue s b') as He' by (destruct b'; simpl in *; congruence).
    split; [done|]. intros ->. by eapply wf_queue_ghosts_apart. }
  assert (∀ b' e, e ∈ ghosts s' b' → e ∈ ghosts s b' ∧ e ≠ e0) as Hgsub.
  { intros b' e He. destruct (decide (b' = b)) as [->|Hne].
    - split; [apply (without_elem_of _ _ _ e Hg); auto|]. by intros ->.
    - other_side b b'. rewrite Hg' in He.
      split; [done|]. intros ->. destruct b; by pose proof (wf_ghosts_apart _ _ _ _ _ Hwf Hin0 He). }
  apply wf_intro.
  - intros b'. destruct b'; simpl; rewrite ?HT1, ?HT2;
      [apply (wf_T1_nodup _ _ Hwf)|apply (wf_T2_nodup _ _ Hwf)].
  - intros b'. destruct (decide (b' = b)) as [->|Hne]; [done|].
    other_side b b'. rewrite Hg'. by eapply wf_ghosts_nodup.
  - intros b' e [He Hne]%Hsub. destruct (wf_queue _ _ _ _ Hwf He) as (el & Hel & ? & ? & HRe).
    exists el. rewrite Hst, HR, lookup_delete_ne by done. done.
  - intros b' e [He Hne]%Hgsub. destruct (wf_ghosts _ _ _ _ Hwf He) as (el & Hel & ? & HGe).
    exists el. rewrite Hst, HG, lookup_delete_ne by done. split_and!; try done.
    rewrite lookup_delete_ne; [done|]. intros Heq. rewrite Heq in HG0. congruence.
  - intros k e Hk Hp. rewrite HR in Hk.
    destruct (wf_R_queue _ _ _ _ Hwf Hk Hp) as (el & b' & Hel & Hkey & _ & Hin).
    exists el, b'. rewrite Hst, lookup_delete_ne.
    + split_and!; try done. destruct b'; simpl in *; congruence.
    + intros ->. by eapply wf_queue_ghosts_apart.
  - intros k e Hk. rewrite HG in Hk. apply lookup_delete_Some in Hk as [Hne Hk].
    destruct (wf_G_ghosts _ _ _ _ Hwf Hk) as (el & b' & Hel & Hkey & _ & Hin).
    assert (e ≠ e0) as Hne0 by (intros ->; congruence).
    exists el, b'. rewrite Hst, lookup_delete_ne by done. split_and!; try done.
    destruct (decide (b' = b)) as [->|Hneb].
    + apply (without_elem_of _ _ _ e Hg) in Hin as [?|?]; done.
    + other_side b b'. by rewrite Hg'.
  - intros k Hk. rewrite HR. by apply (wf_pending _ _ Hwf).
  - intros k Hk1 Hk2. rewrite HR in Hk1. rewrite HG in Hk2.
    apply lookup_delete_is_Some in Hk2 as [Hne Hk2]. by apply (wf_apart _ _ Hwf).
  - intros b'. destruct (decide (b' = b)) as [->|Hne].
    + rewrite Hgs, (wf_ghosts_size pend) by done. pose proof (without_length _ _ _ Hg).
      unfold size_of. lia.
    + other_side b b'. rewrite Hgs', Hg'. by eapply wf_ghosts_size.
  - rewrite HG. pose proof (map_size_delete_Some (pageKey el0) (m_B1B2map s) (mk_is_Some _ _ HG0)) as Hsz.
    pose proof (wf_Gsize _ _ Hwf) as HGs. pose proof (without_length _ _ _ Hg) as Hlen.
    destruct b; simpl in *; rewrite Hg'; lia.
  - rewrite HnL, (wf_numLong _ _ Hwf). simpl. rewrite HT1, HT2. f_equal.
    apply count_ext. intros e He. unfold long_at. rewrite Hst, lookup_delete_ne; [done|].
    intros <-. apply elem_of_app in He as [He|He].
    + by eapply (wf_queue_ghosts_apart pend s true).
    + by eapply (wf_queue_ghosts_apart pend s false).
  - simpl. rewrite HnL, HnS, HT1, HT2. by apply (wf_total _ _ Hwf).
  - rewrite Hst. apply lookup_delete_None. right. by apply (wf_null _ _ Hwf).
  - intros e. rewrite Hst, Hnext. intros He. apply (wf_next _ _ Hwf).
    apply lookup_delete_is_Some in He as [_ He]. done.
  - rewrite Hnext. by apply (wf_next_pos _ _ Hwf).
Qed.

(** ** The slot of the key is taken *)

Lemma wf_begin key s :
  wf None s → m_T1T2map s !! key = None →
  wf (Some key) (set_T1T2map (<[key := nullptr]> (m_T1T2map s)) s).
Proof.
  intros Hwf Hkey. constructor; simpl; try apply Hwf.
  - intros e. intros (el & Hel & ? & ? & HR)%(wf_T1 _ _ Hwf). exists el. split_and!; try done.
    simpl. rewrite lookup_insert_ne; [done|]. intros Heq. congruence.
  - intros e. intros (el & Hel & ? & ? & HR)%(wf_T2 _ _ Hwf). exists el. split_and!; try done.
    simpl. rewrite lookup_insert_ne; [done|]. intros Heq. congruence.
  - intros k e Hk Hp. rewrite lookup_insert_ne in Hk by congruence. by apply (wf_R _ _ Hwf).
  - intros k [= <-]. apply lookup_insert_eq.
  - intros k Hk1 Hk2. destruct (decide (key = k)) as [->|Hne]; [done|].
    rewrite lookup_insert_ne in Hk1 by done. by pose proof (wf_apart _ _ Hwf k Hk1 Hk2).
Qed.

(** ** A new node enters T1 *)

Lemma wf_new key s s' el :
  wf (Some key) s → m_B1B2map s !! key = None →
  store s' = <[next_element s := el]> (store s) →
  next_element s' = N.succ (next_element s) →
  pageKey el = key → firstList el = true → longBit el = false →
  m_T1Queue s' = m_T1Queue s ++ [next_element s] → m_T2Queue s' = m_T2Queue s →
  m_B1List s' = m_B1List s → m_B2List s' = m_B2List s →
  m_B1ListSize s' = m_B1ListSize s → m_B2ListSize s' = m_B2ListSize s →
  m_T1T2map s' = <[key := next_element s]> (m_T1T2map s) →
  m_B1B2map s' = m_B1B2map s →
  m_numLong s' = m_numLong s → m_numShort s' = m_numShort s + 1 →
  wf None s'.
Proof.
  intros Hwf HG0 Hst Hnext Hkey Hfirst Hlong HT1 HT2 HB1 HB2 HB1s HB2s HR HG HnL HnS.
  set (e0 := next_element s) in *.
  assert (store s !! e0 = None) as Hfresh.
  { destruct (store s !! e0) eqn:He; [|done]. pose proof (wf_next _ _ Hwf e0 (mk_is_Some _ _ He)). lia. }
  assert (∀ e, is_Some (store s !! e) → e ≠ e0) as Hold by (intros e [? He] ->; congruence).
  assert (∀ b e, e ∈ queue s b → e ≠ e0) as Hq.
  { intros b e (el' & Hel' & _)%(wf_queue _ _ _ _ Hwf). apply Hold. eauto. }
  assert (∀ b e, e ∈ ghosts s b → e ≠ e0) as Hg.
  { intros b e (el' & Hel' & _)%(wf_ghosts _ _ _ _ Hwf). apply Hold. eauto. }
  assert (m_T1T2map s !! key = Some nullptr) as Hslot by (by apply (wf_pending _ _ Hwf)).
  assert (∀ b e, resident_node s b e → resident_node s' b e) as Hres.
  { intros b e (el' & Hel' & ? & ? & HRe). exists el'.
    rewrite Hst, HR, lookup_insert_ne by (apply not_eq_sym, Hold; eauto). split_and!; try done.
    rewrite lookup_insert_ne; [done|]. intros Heq. rewrite <-Heq, Hslot in HRe.
    injection HRe as <-. rewrite (wf_null _ _ Hwf) in Hel'. discriminate. }
  apply wf_intro.
  - intros []; simpl; rewrite ?HT1, ?HT2; [|apply (wf_T2_nodup _ _ Hwf)].
    apply NoDup_app. split_and!; [apply (wf_T1_nodup _ _ Hwf)| |apply NoDup_singleton].
    intros e He Heq%list_elem_of_singleton. by apply (Hq true e).
  - intros []; simpl; rewrite ?HB1, ?HB2; [apply (wf_B1_nodup _ _ Hwf)|apply (wf_B2_nodup _ _ Hwf)].
  - intros [] e; simpl; rewrite ?HT1, ?HT2.
    + intros [He| ->%list_elem_of_singleton]%elem_of_app.
      * apply Hres. by apply (wf_T1 _ _ Hwf).
      * exists el. rewrite Hst, HR, Hkey, !lookup_insert_eq. split_and!; try done.
    + intros He. apply Hres. by apply (wf_T2 _ _ Hwf).
  - intros b e He. assert (e ∈ ghosts s b) as He' by (destruct b; simpl in *; congruence).
    destruct (wf_ghosts _ _ _ _ Hwf He') as (el' & Hel' & ? & ?). exists el'.
    rewrite Hst, HG, lookup_insert_ne by (apply not_eq_sym, Hold; eauto). done.
  - intros k e Hk _. rewrite HR in Hk. apply lookup_insert_Some in Hk as [[<- <-]|[Hne Hk]].
    + exists el, true. rewrite Hst, lookup_insert_eq. simpl. rewrite HT1. split_and!; try done.
      set_solver.
    + destruct (wf_R_queue _ _ _ _ Hwf Hk) as (el' & b & Hel' & ? & _ & Hin); [congruence|].
      exists el', b. rewrite Hst, lookup_insert_ne by (apply not_eq_sym, Hold; eauto).
      split_and!; try done. destruct b; simpl in *; rewrite ?HT1, ?HT2; set_solver.
  - intros k e Hk. rewrite HG in Hk.
    destruct (wf_G_ghosts _ _ _ _ Hwf Hk) as (el' & b & Hel' & ? & _ & Hin).
    exists el', b. rewrite Hst, lookup_insert_ne by (apply not_eq_sym, Hold; eauto).
    split_and!; try done. destruct b; simpl in *; congruence.
  - done.
  - intros k Hk1 Hk2. exfalso. rewrite HR in Hk1. rewrite HG in Hk2.
    destruct (decide (key = k)) as [<-|Hne]; [rewrite HG0 in Hk2; by destruct Hk2|].
    rewrite lookup_insert_ne in Hk1 by done.
    pose proof (wf_apart _ _ Hwf k Hk1 Hk2). congruence.
  - intros []; simpl; rewrite ?HB1, ?HB2, ?HB1s, ?HB2s;
      [apply (wf_B1size _ _ Hwf)|apply (wf_B2size _ _ Hwf)].
  - simpl. rewrite HG, HB1, HB2. apply (wf_Gsize _ _ Hwf).
  - simpl. rewrite HnL, HT1, HT2, (wf_numLong _ _ Hwf), <-app_assoc, !count_app. simpl.
    assert (long_at s' e0 = longBit el) as -> by (unfold long_at; by rewrite Hst, lookup_insert_eq).
    rewrite Hlong.
    assert (∀ b, count (long_at s') (queue s b) = count (long_at s) (queue s b)) as Hcnt.
    { intros b0. apply count_ext. intros e He. unfold long_at.
      rewrite Hst, lookup_insert_ne; [done|]. apply not_eq_sym. by apply (Hq b0). }
    pose proof (Hcnt true) as Hc1. pose proof (Hcnt false) as Hc2. simpl in Hc1, Hc2.
    rewrite Hc1, Hc2. lia.
  - simpl. rewrite HnL, HnS, HT1, HT2. pose proof (wf_total _ _ Hwf).
    unfold size_of in *. rewrite length_app. simpl. lia.
  - rewrite Hst, lookup_insert_ne; [apply (wf_null _ _ Hwf)|]. apply (wf_next_pos _ _ Hwf).
  - intros e. rewrite Hst, Hnext. intros [He|He]%lookup_insert_is_Some.
    + subst. unfold e0. lia.
    + destruct He as [_ He]. pose proof (wf_next _ _ Hwf e He). lia.
  - rewrite Hnext. unfold nullptr. lia.
Qed.

(** ** A ghost becomes resident again *)

Lemma wf_revive key s s' b e0 el0 el0' :
  wf (Some key) s → m_B1B2map s !! key = Some e0 →
  store s !! e0 = Some el0 → firstList el0 = b →
  store s' = <[e0 := el0']> (store s) → next_element s' = next_element s →
  pageKey el0' = key → firstList el0' = true → longBit el0' = true →
  m_T1Queue s' = m_T1Queue s ++ [e0] → m_T2Queue s' = m_T2Queue s →
  without e0 (ghosts s b) (ghosts s' b) → ghosts s' (negb b) = ghosts s (negb b) →
  ghosts_size s' b = ghosts_size s b - 1 →
  ghosts_size s' (negb b) = ghosts_size s (negb b) →
  m_T1T2map s' = <[key := e0]> (m_T1T2map s) →
  m_B1B2map s' = delete key (m_B1B2map s) →
  m_numLong s' = m_numLong s + 1 → m_numShort s' = m_numShort s →
  wf None s'.
Proof.
  intros Hwf HG0 Hel0 Hf0 Hst Hnext Hkey Hfirst Hlong HT1 HT2 Hg Hg' Hgs Hgs' HR HG HnL HnS.
  destruct (wf_G_ghosts _ _ _ _ Hwf HG0) as (el & b' & Hel & Hk0 & Hfb & Hin0).
  assert (el = el0) as -> by congruence. assert (b' = b) as -> by congruence. clear Hfb.
  destruct (without_NoDup _ _ _ Hg (wf_ghosts_nodup _ _ b Hwf)) as [Hnd' Hnin'].
  assert (m_T1T2map s !! key = Some nullptr) as Hslot by (by apply (wf_pending _ _ Hwf)).
  assert (∀ b' e, e ∈ queue s b' → e ≠ e0) as Hq.
  { intros b' e He ->. by eapply wf_queue_ghosts_apart. }
  assert (∀ b' e, e ∈ ghosts s' b' → e ∈ ghosts s b' ∧ e ≠ e0) as Hgsub.
  { intros b' e He. destruct (decide (b' = b)) as [->|Hne].
    - split; [apply (without_elem_of _ _ _ e Hg); auto|]. by intros ->.
    - other_side b b'. rewrite Hg' in He.
      split; [done|]. intros ->. destruct b; by pose proof (wf_ghosts_apart _ _ _ _ _ Hwf Hin0 He). }
  assert (∀ b' e, e ∈ queue s b' → resident_node s' b' e) as Hres.
  { intros b' e He. destruct (wf_queue _ _ _ _ Hwf He) as (el' & Hel' & ? & ? & HRe). exists el'.
    rewrite Hst, HR, lookup_insert_ne by (apply not_eq_sym; eauto). split_and!; try done.
    rewrite lookup_insert_ne; [done|]. intros Heq. rewrite <-Heq, Hslot in HRe.
    injection HRe as <-. rewrite (wf_null _ _ Hwf) in Hel'. discriminate. }
  apply wf_intro.
  - intros []; simpl; rewrite ?HT1, ?HT2; [|apply (wf_T2_nodup _ _ Hwf)].
    apply NoDup_app. split_and!; [apply (wf_T1_nodup _ _ Hwf)| |apply NoDup_singleton].
    intros e He Heq%list_elem_of_singleton. by apply (Hq true e).
  - intros b'. destruct (decide (b' = b)) as [->|Hne]; [done|].
    other_side b b'. rewrite Hg'. by eapply wf_ghosts_nodup.
  - intros [] e; simpl; rewrite ?HT1, ?HT2.
    + intros [He| ->%list_elem_of_singleton]%elem_of_app.
      * by apply (Hres true).
      * exists el0'. rewrite Hst, HR, Hkey, !lookup_insert_eq. split_and!; try done.
    + intros He. by apply (Hres false).
  - intros b' e [He Hne]%Hgsub. destruct (wf_ghosts _ _ _ _ Hwf He) as (el' & Hel' & ? & HGe).
    exists el'. rewrite Hst, HG, lookup_insert_ne by done. split_and!; try done.
    rewrite lookup_delete_ne; [done|]. intros Heq. rewrite <-Heq in HGe. congruence.
  - intros k e Hk _. rewrite HR in Hk. apply lookup_insert_Some in Hk as [[<- <-]|[Hne Hk]].
    + exists el0', true. rewrite Hst, lookup_insert_eq. simpl. rewrite HT1. split_and!; try done.
      set_solver.
    + destruct (wf_R_queue _ _ _ _ Hwf Hk) as (el' & b' & Hel' & ? & _ & Hin); [congruence|].
      exists el', b'. rewrite Hst, lookup_insert_ne by (apply not_eq_sym; eauto).
      split_and!; try done. destruct b'; simpl in *; rewrite ?HT1, ?HT2; set_solver.
  - intros k e Hk. rewrite HG in Hk. apply lookup_delete_Some in Hk as [Hne Hk].
    destruct (wf_G_ghosts _ _ _ _ Hwf Hk) as (el' & b' & Hel' & ? & _ & Hin).
    assert (e ≠ e0) as Hne0 by (intros ->; congruence).
    exists el', b'. rewrite Hst, lookup_insert_ne by done. split_and!; try done.
    destruct (decide (b' = b)) as [->|Hneb].
    + apply (without_elem_of _ _ _ e Hg) in Hin as [?|?]; done.
    + other_side b b'. by rewrite Hg'.
  - done.
  - intros k Hk1 Hk2. exfalso. rewrite HR in Hk1. rewrite HG in Hk2.
    apply lookup_delete_is_Some in Hk2 as [Hne Hk2].
    rewrite lookup_insert_ne in Hk1 by done.
    pose proof (wf_apart _ _ Hwf k Hk1 Hk2). congruence.
  - intros b'. destruct (decide (b' = b)) as [->|Hne].
    + rewrite Hgs, (wf_ghosts_size (Some key)) by done. pose proof (without_length _ _ _ Hg).
      unfold size_of. lia.
    + other_side b b'. rewrite Hgs', Hg'. by eapply wf_ghosts_size.
  - rewrite HG. pose proof (map_size_delete_Some key (m_B1B2map s) (mk_is_Some _ _ HG0)) as Hsz.
    pose proof (wf_Gsize _ _ Hwf) as HGs. pose proof (without_length _ _ _ Hg) as Hlen.
    destruct b; simpl in *; rewrite Hg'; lia.
  - simpl. rewrite HnL, HT1, HT2, (wf_numLong _ _ Hwf), <-app_assoc, !count_app. simpl.
    assert (long_at s' e0 = longBit el0') as -> by (unfold long_at; by rewrite Hst, lookup_insert_eq).
    rewrite Hlong.
    assert (∀ b, count (long_at s') (queue s b) = count (long_at s) (queue s b)) as Hcnt.
    { intros b0. apply count_ext. intros e He. unfold long_at.
      rewrite Hst, lookup_insert_ne; [done|]. apply not_eq_sym. by apply (Hq b0). }
    pose proof (Hcnt true) as Hc1. pose proof (Hcnt false) as Hc2. simpl in Hc1, Hc2.
    rewrite Hc1, Hc2. lia.
  - simpl. rewrite HnL, HnS, HT1, HT2. pose proof (wf_total _ _ Hwf).
    unfold size_of in *. rewrite length_app. simpl. lia.
  - rewrite Hst, lookup_insert_ne; [apply (wf_null _ _ Hwf)|].
    intros ->. rewrite (wf_null _ _ Hwf) in Hel0. discriminate.
  - intros e. rewrite Hst, Hnext. intros He. apply (wf_next _ _ Hwf).
    destruct (decide (e = e0)) as [->|Hne]; [eauto|]. by rewrite lookup_insert_ne in He.
  - rewrite Hnext. by apply (wf_next_pos _ _ Hwf).
Qed.

(** ** Steps that touch the usage map only *)


Lemma bookkeeping_refl s : bookkeeping s s.
Proof. by destruct s. Qed.

Lemma bookkeeping_trans s1 s2 s3 : bookkeeping s1 s2 → bookkeeping s2 s3 → bookkeeping s1 s3.
Proof. unfold bookkeeping. intros -> ->. by destruct s1. Qed.

Lemma bookkeeping_set_usage s u : bookkeeping s (set_usage u s).
Proof. by destruct s. Qed.

Lemma bookkeeping_assert s b : bookkeeping s (assert b s).
Proof. destruct b; by destruct s. Qed.

Lemma bookkeeping_wf pend s s' : bookkeeping s s' → wf pend s → wf pend s'.
Proof.
  unfold bookkeeping. intros -> Hwf. destruct Hwf.
  constructor; try done.
Qed.

Lemma bookkeeping_IncUsage s key value : bookkeeping s (IncUsage key value s).
Proof. unfold IncUsage. destruct (m_usage s !! _); apply bookkeeping_set_usage. Qed.

Lemma bookkeeping_GetUsage s key value : bookkeeping s (GetUsage key value s).2.
Proof.
  unfold GetUsage. destruct (m_usage s !! _); simpl;
    [apply bookkeeping_refl|apply (bookkeeping_assert s false)].
Qed.

Lemma bookkeeping_DecUsage s key value w b s' :
  DecUsage key value w s = Ret (b, s') → bookkeeping s s'.
Proof.
  unfold DecUsage. destruct (m_usage s !! _) as [n|].
  - destruct (w && (1 <? n)); [discriminate|].
    destruct (to_uint (n - 1) =? 0); intros [= <- <-]; by destruct s.
  - intros [= <- <-]. apply (bookkeeping_assert s false).
Qed.

(** [DecUsage] returns unless it has to wait for another holder. *)
Lemma DecUsage_total s key value w :
  (w = true → ∀ n, m_usage s !! usage_id key value = Some n → n ≤ 1) →
  ∃ b s', DecUsage key value w s = Ret (b, s').
Proof.
  intros Hw. unfold DecUsage. destruct (m_usage s !! _) as [n|] eqn:Hn; [|by eauto].
  destruct w; simpl.
  - specialize (Hw eq_refl n eq_refl). destruct (1 <? n) eqn:Hlt; [lia|].
    destruct (to_uint (n - 1) =? 0); eauto.
  - destruct (to_uint (n - 1) =? 0); eauto.
Qed.

Lemma bookkeeping_Handle_IncUsage s h s' : Handle_IncUsage h s = Ret s' → bookkeeping s s'.
Proof.
  unfold Handle_IncUsage. destruct (pins h); [|intros [= <-]; apply bookkeeping_refl].
  destruct (h_key h); [|discriminate]. intros [= <-]. apply bookkeeping_IncUsage.
Qed.

Lemma bookkeeping_Handle_new s key value h s' :
  Handle_new key value s = Ret (h, s') → bookkeeping s s'.
Proof.
  unfold Handle_new. intros (s1 & Hs1 & [= <- <-])%bind_Ret_inv.
  by eapply bookkeeping_Handle_IncUsage.
Qed.

Lemma Handle_new_total s key value :
  ∃ s', Handle_new key value s = Ret (mkHandle true (Some key) value, s').
Proof.
  unfold Handle_new, Handle_IncUsage. destruct (pins _); simpl; eauto.
Qed.

Lemma bookkeeping_Handle_copy s h h' s' :
  Handle_copy h s = Ret (h', s') → bookkeeping s s'.
Proof.
  unfold Handle_copy. intros (s1 & Hs1 & [= <- <-])%bind_Ret_inv.
  by eapply bookkeeping_Handle_IncUsage.
Qed.

Lemma bookkeeping_Handle_Release s h h' s' :
  Handle_Release h s = Ret (h', s') → bookkeeping s s'.
Proof.
  unfold Handle_Release. destruct (pins h); [|intros [= <- <-]; apply bookkeeping_refl].
  destruct (h_key h); [|discriminate].
  intros ([b s1] & Hs1 & [= <- <-])%bind_Ret_inv.
  eapply bookkeeping_trans; [by eapply bookkeeping_DecUsage|apply bookkeeping_assert].
Qed.

(** ** Demotion *)


Lemma scan_unpinned_spec q : ∀ i s,
  (∀ e, e ∈ q → is_Some (store s !! e)) →
  ∃ j s', scan_unpinned q i s = Ret (j, s') ∧ bookkeeping s s' ∧ m_usage s' = m_usage s
    ∧ (i ≤ j ≤ i + length q)%nat
    ∧ ((j < i + length q)%nat →
       ∃ e el, q !! (j - i)%nat = Some e ∧ store s !! e = Some el ∧ unpinned s el).
Proof.
  induction q as [|e q IH]; intros i s Hq; simpl.
  - exists i, s. split_and!; try done; try lia. apply bookkeeping_refl.
  - destruct (Hq e) as [el Hel]; [set_solver|]. rewrite (deref_Ret _ _ _ Hel). simpl.
    unfold GetUsage. destruct (m_usage s !! usage_id (pageKey el) (page el)) as [n|] eqn:Hn.
    + destruct (1 <? n) eqn:Hlt.
      * destruct (IH (S i) s) as (j & s' & -> & ? & ? & ? & Hj); [intros; apply Hq; set_solver|].
        exists j, s'. split_and!; try done; try lia.
        intros Hlt'. destruct Hj as (e' & el' & Hj & ? & ?); [lia|]. exists e', el'.
        split_and!; try done. replace (j - i)%nat with (S (j - S i)) by lia. done.
      * exists i, s. split_and!; try done; try lia; [apply bookkeeping_refl|].
        intros _. exists e, el. rewrite Nat.sub_diag. split_and!; try done.
        intros n' Hn'. unfold unpinned in *. assert (n' = n) as -> by congruence. lia.
    + simpl. exists i, (set_assert_failed true s). split_and!; try done; try lia.
      intros _. exists e, el. rewrite Nat.sub_diag. split_and!; try done.
      intros n' Hn'. congruence.
Qed.


Lemma bookkeeping_unpinned s s' el :
  m_usage s' = m_usage s → unpinned s el → unpinned s' el.
Proof. unfold unpinned. by intros ->. Qed.

Lemma demote_tail_spec key s el :
  unpinned s el → is_Some (m_T1T2map s !! pageKey el) →
  ∃ s1, bookkeeping s s1 ∧
    demote_tail key el s
    = Ret (set_T1T2map (delete (pageKey el) (m_T1T2map s))
             (set_usedMemory (to_size_t (m_usedMemory s - CacheGetValueSize (page el))) s1)).
Proof.
  intros Hun [e0 HR]. unfold demote_tail.
  destruct (DecUsage_total s (pageKey el) (page el) true) as (b & s1 & Hdec); [by intros _|].
  rewrite Hdec. simpl. pose proof (bookkeeping_DecUsage _ _ _ _ _ _ Hdec) as Hbk.
  exists s1. split; [done|]. rewrite Hbk. simpl. rewrite HR. done.
Qed.

Lemma demote_T1_wf key s j e el :
  wf (Some key) s → m_T1Queue s !! j = Some e → store s !! e = Some el → unpinned s el →
  ∃ s', demote_T1 key j s = Ret s' ∧ wf (Some key) s' ∧ demote_frame key s s'.
Proof.
  intros Hwf Hj Hel Hun. unfold demote_T1. rewrite Hj.
  assert (e ∈ m_T1Queue s) as Hin by (by eapply list_elem_of_lookup_2).
  destruct (wf_T1 _ _ Hwf e Hin) as (el' & Hel' & Hf & _ & HR).
  assert (el' = el) as -> by congruence.
  pose proof (wf_resident_key _ _ _ _ _ Hwf (wf_T1 _ _ Hwf e Hin) Hel) as Hp.
  assert (m_B1B2map s !! pageKey el = None) as HG0.
  { destruct (m_B1B2map s !! pageKey el) eqn:HG0; [|done]. exfalso. apply Hp.
    eapply wf_apart; eauto. }
  rewrite deref_Ret with (el := el) by done. simpl.
  destruct (decide (pageKey el = key)) as [Heq|Hne]; [congruence|].
  match goal with |- ∃ s', demote_tail key el ?s0 = _ ∧ _ => set (s0' := s0) end.
  assert (s0' = set_B1B2map (<[pageKey el := e]> (m_B1B2map s))
            (set_B1List (e :: m_B1List s) (m_B1ListSize s + 1)
               ((if longBit el then set_numLong (m_numLong s - 1) else set_numShort (m_numShort s - 1))
                  (set_T1Queue (delete j (m_T1Queue s)) s)))) as Hs0.
  { unfold s0', B1B2map_insert. destruct (longBit el); simpl; rewrite HR;
      rewrite bool_decide_true by eauto; simpl; rewrite HG0; done. }
  clearbody s0'. subst s0'.
  match goal with |- ∃ s', demote_tail key el ?s0 = _ ∧ _ =>
    destruct (demote_tail_spec key s0 el) as (s1 & Hbk & ->) end.
  { destruct (longBit el); done. }
  { destruct (longBit el); simpl; eauto. }
  eexists. split; [reflexivity|]. rewrite Hbk. split.
  - eapply (wf_demote (Some key) s _ true e el); try done;
      try (destruct (longBit el); simpl; done); try (destruct (longBit el); simpl; lia).
    destruct (longBit el); simpl; by apply without_delete.
  - repeat split; destruct (longBit el); simpl; try lia; try done;
      rewrite lookup_insert_ne; done.
Qed.

Lemma demote_T2_wf key s j e el :
  wf (Some key) s → m_T2Queue s !! j = Some e → store s !! e = Some el → unpinned s el →
  ∃ s', demote_T2 key j s = Ret s' ∧ wf (Some key) s' ∧ demote_frame key s s'.
Proof.
  intros Hwf Hj Hel Hun. unfold demote_T2. rewrite Hj.
  assert (e ∈ m_T2Queue s) as Hin by (by eapply list_elem_of_lookup_2).
  destruct (wf_T2 _ _ Hwf e Hin) as (el' & Hel' & Hf & Hlong & HR).
  assert (el' = el) as -> by congruence. specialize (Hlong eq_refl).
  pose proof (wf_resident_key _ _ _ _ _ Hwf (wf_T2 _ _ Hwf e Hin) Hel) as Hp.
  assert (m_B1B2map s !! pageKey el = None) as HG0.
  { destruct (m_B1B2map s !! pageKey el) eqn:HG0; [|done]. exfalso. apply Hp.
    eapply wf_apart; eauto. }
  rewrite deref_Ret with (el := el) by done. simpl.
  destruct (decide (pageKey el = key)) as [Heq|Hne]; [congruence|].
  match goal with |- ∃ s', demote_tail key el ?s0 = _ ∧ _ => set (s0' := s0) end.
  assert (s0' = set_B1B2map (<[pageKey el := e]> (m_B1B2map s))
            (set_B2List (e :: m_B2List s) (m_B2ListSize s + 1)
               (set_numLong (m_numLong s - 1)
                  (set_T2Queue (delete j (m_T2Queue s)) s)))) as Hs0.
  { unfold s0', B1B2map_insert. simpl; rewrite HR;
      rewrite bool_decide_true by eauto; simpl; rewrite HG0; done. }
  clearbody s0'. subst s0'.
  match goal with |- ∃ s', demote_tail key el ?s0 = _ ∧ _ =>
    destruct (demote_tail_spec key s0 el) as (s1 & Hbk & ->) end; [done|simpl; eauto|].
  eexists. split; [reflexivity|]. rewrite Hbk. split.
  - eapply (wf_demote (Some key) s _ false e el); try done; simpl; rewrite ?Hlong; try lia.
    by apply without_delete.
  - repeat split; simpl; try lia; try done. rewrite lookup_insert_ne; done.
Qed.

Lemma bookkeeping_containers s s' :
  bookkeeping s s' →
  m_T1Queue s' = m_T1Queue s ∧ m_T2Queue s' = m_T2Queue s ∧
  m_B1List s' = m_B1List s ∧ m_B2List s' = m_B2List s ∧
  m_T1T2map s' = m_T1T2map s ∧ m_B1B2map s' = m_B1B2map s ∧ store s' = store s.
Proof. intros ->. done. Qed.

Lemma demote_frame_refl key s : demote_frame key s s.
Proof. repeat split; lia. Qed.

Lemma demote_frame_bookkeeping key s s1 s' :
  bookkeeping s s1 → demote_frame key s1 s' → demote_frame key s s'.
Proof. intros ->. done. Qed.

Lemma demote_frame_bookkeeping_r key s s1 :
  bookkeeping s s1 → demote_frame key s s1.
Proof. intros ->. repeat split; simpl; lia. Qed.

Lemma demote_wf key s :
  wf (Some key) s →
  ∃ s', demote key s = Ret s' ∧ wf (Some key) s' ∧ demote_frame key s s'.
Proof.
  intros Hwf. unfold demote.
  assert (∀ s1, bookkeeping s s1 → m_usage s1 = m_usage s →
    ∀ j, (j < length (m_T1Queue s))%nat →
      (∃ e el, m_T1Queue s !! j = Some e ∧ store s !! e = Some el ∧ unpinned s el) →
      ∃ s', demote_T1 key j s1 = Ret s' ∧ wf (Some key) s' ∧ demote_frame key s s') as Hd1.
  { intros s1 Hbk Hu j Hj (e & el & Hje & Hel & Hun).
    destruct (bookkeeping_containers _ _ Hbk) as (HT1 & _ & _ & _ & _ & _ & Hst).
    destruct (demote_T1_wf key s1 j e el) as (s' & ? & ? & ?).
    - by eapply bookkeeping_wf.
    - by rewrite HT1.
    - by rewrite Hst.
    - by eapply bookkeeping_unpinned.
    - exists s'. split_and!; try done. by eapply demote_frame_bookkeeping. }
  assert (∀ s1, bookkeeping s s1 → m_usage s1 = m_usage s →
    ∀ j, (j < length (m_T2Queue s))%nat →
      (∃ e el, m_T2Queue s !! j = Some e ∧ store s !! e = Some el ∧ unpinned s el) →
      ∃ s', demote_T2 key j s1 = Ret s' ∧ wf (Some key) s' ∧ demote_frame key s s') as Hd2.
  { intros s1 Hbk Hu j Hj (e & el & Hje & Hel & Hun).
    destruct (bookkeeping_containers _ _ Hbk) as (_ & HT2 & _ & _ & _ & _ & Hst).
    destruct (demote_T2_wf key s1 j e el) as (s' & ? & ? & ?).
    - by eapply bookkeeping_wf.
    - by rewrite HT2.
    - by rewrite Hst.
    - by eapply bookkeeping_unpinned.
    - exists s'. split_and!; try done. by eapply demote_frame_bookkeeping. }
  assert (∀ s1, bookkeeping s s1 → m_usage s1 = m_usage s →
    ∃ j s2, scan_unpinned (m_T2Queue s1) 0 s1 = Ret (j, s2) ∧ bookkeeping s s2
      ∧ m_usage s2 = m_usage s ∧ (j ≤ length (m_T2Queue s))%nat
      ∧ ((j < length (m_T2Queue s))%nat →
         ∃ e el, m_T2Queue s !! j = Some e ∧ store s !! e = Some el ∧ unpinned s el)) as Hs2.
  { intros s1 Hbk Hu.
    destruct (bookkeeping_containers _ _ Hbk) as (_ & HT2 & _ & _ & _ & _ & Hst).
    destruct (scan_unpinned_spec (m_T2Queue s1) 0 s1) as (j & s2 & ? & ? & ? & ? & Hj).
    { intros e He. rewrite HT2 in He. rewrite Hst.
      destruct (wf_T2 _ _ Hwf e He) as (el & -> & _). eauto. }
    exists j, s2. rewrite HT2 in *. split_and!; try done.
    - by eapply bookkeeping_trans.
    - congruence.
    - lia.
    - intros Hlt. destruct Hj as (e & el & Hje & Hel & Hun); [lia|].
      rewrite Nat.sub_0_r in Hje. exists e, el. rewrite Hst in Hel. split_and!; try done.
      eapply bookkeeping_unpinned; [|done]. congruence. }
  assert (∀ s1 j2, bookkeeping s s1 → m_usage s1 = m_usage s →
    (j2 ≤ length (m_T2Queue s))%nat →
    ((j2 < length (m_T2Queue s))%nat →
       ∃ e el, m_T2Queue s !! j2 = Some e ∧ store s !! e = Some el ∧ unpinned s el) →
    ∃ s', (if bool_decide (j2 ≠ length (m_T2Queue s)) then demote_T2 key j2 s1 else Ret s1) = Ret s'
          ∧ wf (Some key) s' ∧ demote_frame key s s') as Hfin.
  { intros s1 j2 Hbk Hu Hle Hj2. case_bool_decide as Hne.
    - apply Hd2; try done; try lia. apply Hj2. lia.
    - exists s1. split_and!; [done|by eapply bookkeeping_wf|by apply demote_frame_bookkeeping_r]. }
  destruct (size_of (m_T1Queue s) >=? Max to_uint 1 (m_p s)).
  - destruct (scan_unpinned_spec (m_T1Queue s) 0 s) as (j1 & s1 & -> & Hbk1 & Hu1 & Hr1 & Hj1).
    { intros e He. destruct (wf_T1 _ _ Hwf e He) as (el & -> & _). eauto. }
    simpl. destruct (decide (j1 = length (m_T1Queue s))) as [Hend|Hend].
    + rewrite (bool_decide_true (j1 = _)) by done.
      destruct (Hs2 s1 Hbk1 Hu1) as (j2 & s2 & -> & Hbk2 & Hu2 & Hle2 & Hj2). simpl.
      rewrite (bool_decide_false (j1 ≠ _)) by (intros ?; done). by apply Hfin.
    + rewrite (bool_decide_false (j1 = _)) by done. simpl.
      rewrite (bool_decide_true (j1 ≠ _)) by done. apply Hd1; try done; try lia.
      destruct Hj1 as (e & el & Hje & ?); [lia|]. rewrite Nat.sub_0_r in Hje. eauto.
  - simpl. rewrite (bool_decide_true (_ = _)) by done.
    destruct (Hs2 s (bookkeeping_refl s) eq_refl) as (j2 & s2 & -> & Hbk2 & Hu2 & Hle2 & Hj2).
    simpl. rewrite (bool_decide_false (length (m_T1Queue s) ≠ _)) by (intros ?; done).
    by apply Hfin.
Qed.

(** ** History replacement *)



Lemma last_is_Some {A} (l : list A) : l ≠ [] → is_Some (last l).
Proof.
  intros Hl. destruct (last l) eqn:Hlast; [eauto|]. by apply last_None in Hlast.
Qed.

Lemma history_replace_spec pend key c s :
  wf pend s →
  (history_full key c s = true → size (m_B1B2map s) ≠ 0%nat) →
  ∃ s', history_replace key c s = Ret s' ∧ wf pend s' ∧ history_frame key s s' ∧
    history_length s = (history_length s' + (if history_full key c s then 1 else 0))%nat.
Proof.
  intros Hwf Hne. unfold history_replace, history_length.
  destruct (history_full key c s) eqn:Hfull;
    [|exists s; split_and!; [done|done|repeat split; done|lia]].
  specialize (Hne eq_refl). rewrite (wf_Gsize _ _ Hwf) in Hne.
  pose proof (wf_B1size _ _ Hwf) as HB1s. pose proof (wf_B2size _ _ Hwf) as HB2s.
  unfold size_of in *.
  apply andb_true_iff in Hfull as [Hmiss%bool_decide_eq_true _].
  unfold history_from_B1.
  destruct ((Max id 0 (m_q s) <? m_B1ListSize s) || (m_B2ListSize s =? 0)) eqn:Hfrom.
  - assert (m_B1List s ≠ []) as Hnil.
    { intros Hnil. rewrite Hnil in *. simpl in *.
      apply orb_true_iff in Hfrom as [Hlt|Heq]; [unfold Max, id in Hlt; destruct (0 <? m_q s) eqn:?; lia|].
      destruct (m_B2List s); simpl in *; lia. }
    destruct (last_is_Some _ Hnil) as [e Hlast]. rewrite Hlast.
    assert (e ∈ m_B1List s) as Hin.
    { apply last_Some in Hlast as [l' ->]. set_solver. }
    destruct (wf_B1 _ _ Hwf e Hin) as (el & Hel & Hf & HG).
    rewrite deref_Ret with (el := el) by done. simpl.
    erewrite delete_element_Ret by (simpl; eassumption).
    eexists. split; [reflexivity|]. pose proof (without_last _ _ Hlast) as Hwo. split_and!.
    + eapply (wf_forget pend s _ true e el); simpl; try done.
    + repeat split; simpl; try done. rewrite lookup_delete_ne; [done|]. congruence.
    + simpl. pose proof (without_length _ _ _ Hwo). lia.
  - apply orb_false_iff in Hfrom as [_ Hne0]. destruct (0 <? m_B2ListSize s) eqn:Hpos; [|lia].
    assert (m_B2List s ≠ []) as Hnil by (intros Hnil; rewrite Hnil in *; simpl in *; lia).
    destruct (last_is_Some _ Hnil) as [e Hlast]. rewrite Hlast.
    assert (e ∈ m_B2List s) as Hin.
    { apply last_Some in Hlast as [l' ->]. set_solver. }
    destruct (wf_B2 _ _ Hwf e Hin) as (el & Hel & Hf & HG).
    rewrite deref_Ret with (el := el) by done. simpl.
    erewrite delete_element_Ret by (simpl; eassumption).
    eexists. split; [reflexivity|]. pose proof (without_last _ _ Hlast) as Hwo. split_and!.
    + eapply (wf_forget pend s _ false e el); simpl; try done.
    + repeat split; simpl; try done. rewrite lookup_delete_ne; [done|]. congruence.
    + simpl. pose proof (without_length _ _ _ Hwo). lia.
Qed.

(** Without the side condition: the replacement either returns as
    above or reads the back of an empty list. *)
Lemma history_replace_wf pend key c s s' :
  wf pend s → history_replace key c s = Ret s' →
  wf pend s' ∧ history_frame key s s' ∧
  history_length s = (history_length s' + (if history_full key c s then 1 else 0))%nat.
Proof.
  intros Hwf Hrun.
  destruct (decide (history_full key c s = true → size (m_B1B2map s) ≠ 0%nat)) as [Hok|Hbad].
  - destruct (history_replace_spec pend key c s Hwf Hok) as (s1 & Hs1 & ?). congruence.
  - exfalso. destruct (history_full key c s) eqn:Hfull; [|by destruct Hbad].
    assert (size (m_B1B2map s) = 0%nat) as Hsz.
    { destruct (decide (size (m_B1B2map s) = 0%nat)); [done|]. by destruct Hbad. }
    rewrite (wf_Gsize _ _ Hwf) in Hsz.
    assert (m_B1List s = [] ∧ m_B2List s = []) as [HB1 HB2].
    { destruct (m_B1List s), (m_B2List s); simpl in *; try lia. done. }
    unfold history_replace, history_from_B1 in Hrun.
    rewrite Hfull, (wf_B2size _ _ Hwf), HB1, HB2, orb_true_r in Hrun. discriminate.
Qed.

(** ** Installing the entry *)


Lemma install_spec key value c s :
  wf (Some key) s →
  ∃ s', install key value c s = Ret s' ∧ wf None s' ∧ installed key value s s'.
Proof.
  intros Hwf. unfold install, installed, history_length.
  destruct (m_B1B2map s !! key) as [e|] eqn:HG.
  - destruct (wf_G_ghosts _ _ _ _ Hwf HG) as (el & b & Hel & Hkey & Hfirst & Hin).
    rewrite deref_Ret with (el := el) by done. simpl. rewrite Hfirst.
    destruct (without_erase e (ghosts s b) Hin) as (l & Herase & Hwo).
    pose proof (without_length _ _ _ Hwo) as Hlen.
    rewrite ?bool_decide_true by eauto.
    destruct b; simpl in Herase, Hwo, Hlen.
    + unfold install_from_B1.
      erewrite modify_Ret by (simpl; eassumption). simpl.
      erewrite modify_Ret by (simpl; apply lookup_insert_eq). simpl.
      erewrite modify_Ret by (simpl; apply lookup_insert_eq). simpl.
      rewrite !insert_insert_eq, Herase.
      eexists. split; [reflexivity|]. split.
      * eapply (wf_revive key s _ true e el); simpl; done.
      * exists e, (set_longBit true (set_referenceBit false (set_page value el))).
        simpl. rewrite lookup_insert_eq. split_and!; try done. lia.
    + unfold install_from_B2.
      erewrite modify_Ret by (simpl; eassumption). simpl.
      erewrite modify_Ret by (simpl; apply lookup_insert_eq). simpl.
      erewrite modify_Ret by (simpl; apply lookup_insert_eq). simpl.
      erewrite modify_Ret by (simpl; apply lookup_insert_eq). simpl.
      rewrite !insert_insert_eq, Herase.
      match goal with |- ∃ s', (if ?b then Ret (adapt_q_up c ?s1) else Ret _) = _ ∧ _ =>
        assert (wf None s1) as Hwf1;
        [|destruct b; eexists; (split; [reflexivity|]); (split; [|
           exists e, (set_longBit true (set_referenceBit false (set_firstList true (set_page value el))));
           simpl; rewrite lookup_insert_eq; split_and!; try done; lia])]
      end.
      * eapply (wf_revive key s _ false e el); simpl; done.
      * by apply wf_adapt_q_up.
      * done.
  - unfold install_new. simpl. eexists. split; [reflexivity|]. split.
    + eapply (wf_new key s _ (mkCLOCKElement key value false false true)); simpl; done.
    + exists (next_element s), (mkCLOCKElement key value false false true).
      simpl. rewrite lookup_insert_eq, ?bool_decide_false by (by intros [??]).
      split_and!; try done; lia.
Qed.

(** ** The whole replacement and the whole insertion *)

Lemma wf_set_p pend v s : wf pend s → wf pend (set_p v s).
Proof. intros Hwf. destruct Hwf. constructor; assumption. Qed.

Lemma wf_set_usedMemory pend v s : wf pend s → wf pend (set_usedMemory v s).
Proof. intros Hwf. destruct Hwf. constructor; assumption. Qed.


Lemma replace_steps key c s :
  wf (Some key) s →
  ∃ s1, before_history key s s1 ∧ replace key c s = history_replace key c s1.
Proof.
  intros Hwf. unfold replace.
  destruct (T2_sweep_wf (Some key) c s Hwf) as (sa & -> & Hwfa & Hfa). rewrite bind_Ret_l.
  destruct (T1_sweep_wf (Some key) c sa Hwfa) as (sb & -> & Hwfb & Hfb & _). rewrite bind_Ret_l.
  destruct (demote_wf key sb Hwfb) as (sc & -> & Hwfc & Hfc). rewrite bind_Ret_l.
  exists sc. split; [|done]. split; [done|].
  destruct (sweep_frame_trans _ _ _ Hfa Hfb)
    as (HR & HG & HB1 & HB1s & HB2 & HB2s & Hu & Hrel & Hmem & Hp & HN & HM & Ha & Hn & Hperm).
  destruct Hfc as (? & ? & ? & ? & ? & ? & ?).
  unfold history_length. rewrite <-HB1, <-HB2, <-HG, <-HN, <-HM. split_and!; try done.
Qed.

Lemma replace_wf key c s s' :
  wf (Some key) s → replace key c s = Ret s' →
  wf (Some key) s' ∧
  m_B1B2map s' !! key = m_B1B2map s !! key ∧
  m_maxNumElements s' = m_maxNumElements s ∧ m_maxUsedMemory s' = m_maxUsedMemory s ∧
  (history_length s' ≤ history_length s + 1)%nat ∧
  ((history_length s' ≤ history_length s)%nat
   ∨ is_Some (m_B1B2map s !! key)
   ∨ to_size_t (to_int (Z.of_nat (history_length s'))) < to_size_t (c + 1)).
Proof.
  intros Hwf Hrun. destruct (replace_steps key c s Hwf) as (s1 & (Hwf1 & Hf1) & Heq).
  rewrite Heq in Hrun. destruct (history_replace_wf _ _ _ _ _ Hwf1 Hrun) as (Hwf' & Hfr & Hlen).
  unfold history_frame in *. destruct_and!.
  split_and!; try congruence; try lia.
  destruct (history_full key c s1) eqn:Hfull; [left; unfold history_length in *; lia|].
  right. apply andb_false_iff in Hfull as [Hin|Hsmall].
  - left. apply bool_decide_eq_false in Hin.
    destruct (m_B1B2map s !! key) eqn:HG; [eauto|]. congruence.
  - right. rewrite (wf_Gsize _ _ Hwf1) in Hsmall.
    replace (history_length s') with (history_length s1) by lia. unfold history_length. lia.
Qed.

Lemma replace_total key c s :
  wf (Some key) s → to_size_t (c + 1) ≠ 0 → ∃ s', replace key c s = Ret s'.
Proof.
  intros Hwf Hc. destruct (replace_steps key c s Hwf) as (s1 & (Hwf1 & Hf1) & ->).
  destruct (history_replace_spec (Some key) key c s1 Hwf1) as (s' & ? & _); [|eauto].
  intros [_ Hfull]%andb_true_iff Hsz. rewrite Hsz in Hfull.
  apply Z.geb_le in Hfull. change (Z.of_nat 0) with 0 in Hfull. wrap_lia.
Qed.



Lemma InternalInsert_miss key value acquired s :
  m_T1T2map s !! key = None →
  InternalInsert key value acquired s =
    let v := inserted_value value acquired in
    let s0 := insert_start key value acquired s in
    let c := capacity s0 in
    s1 ← (if IsFull s0 then replace key c s0 else Ret s0);
    s2 ← install key v c s1;
    Handle_new key v (set_usedMemory (to_size_t (m_usedMemory s2 + CacheGetValueSize v)) s2).
Proof. intros HR. unfold InternalInsert. rewrite HR. done. Qed.

Lemma insert_start_wf key value acquired s :
  wf None s → m_T1T2map s !! key = None → wf (Some key) (insert_start key value acquired s).
Proof.
  intros Hwf HR. unfold insert_start.
  eapply bookkeeping_wf; [apply bookkeeping_IncUsage|]. by apply wf_begin.
Qed.

Lemma InternalInsert_wf key value acquired s h s' :
  wf None s → InternalInsert key value acquired s = Ret (h, s') → wf None s'.
Proof.
  intros Hwf. destruct (m_T1T2map s !! key) as [e|] eqn:HR.
  - unfold InternalInsert. rewrite HR. intros (el & _ & Hh)%bind_Ret_inv.
    eapply bookkeeping_wf; [by eapply bookkeeping_Handle_new|done].
  - rewrite InternalInsert_miss by done. simpl.
    pose proof (insert_start_wf key value acquired s Hwf HR) as Hwf0.
    intros (s1 & Hs1 & (s2 & Hs2 & Hh)%bind_Ret_inv)%bind_Ret_inv.
    assert (wf (Some key) s1) as Hwf1.
    { destruct (IsFull _); [by eapply replace_wf|congruence]. }
    destruct (install_spec key (inserted_value value acquired) (capacity (insert_start key value acquired s)) s1 Hwf1)
      as (s2' & Hs2' & Hwf2 & _).
    assert (s2' = s2) as -> by congruence.
    eapply bookkeeping_wf; [by eapply bookkeeping_Handle_new|]. by apply wf_set_usedMemory.
Qed.

Lemma insert_start_fields key value acquired s :
  let s0 := insert_start key value acquired s in
  IsFull s0 = IsFull s ∧ capacity s0 = capacity s ∧
  m_T1Queue s0 = m_T1Queue s ∧ m_T2Queue s0 = m_T2Queue s ∧
  m_B1List s0 = m_B1List s ∧ m_B2List s0 = m_B2List s ∧
  m_B1B2map s0 = m_B1B2map s ∧ m_T1T2map s0 = <[key := nullptr]> (m_T1T2map s).
Proof.
  simpl. unfold insert_start, capacity, IsFull.
  pose proof (bookkeeping_IncUsage (set_T1T2map (<[key:=nullptr]> (m_T1T2map s)) s)
                key (inserted_value value acquired)) as Hbk.
  rewrite Hbk. done.
Qed.

(** A miss of [InternalInsert], step by step: [s1] is the state after
    the replacement (the state [insert_start] when the cache is not
    full), [s2] the state after [install]. *)
Lemma InternalInsert_miss_spec key value acquired s :
  wf None s → residents_fit s → m_T1T2map s !! key = None →
  let v := inserted_value value acquired in
  let s0 := insert_start key value acquired s in
  ∃ s1 s2 s',
    (if IsFull s then replace key (capacity s) s0 else Ret s0) = Ret s1 ∧
    wf (Some key) s1 ∧
    install key v (capacity s) s1 = Ret s2 ∧ wf None s2 ∧ installed key v s1 s2 ∧
    bookkeeping (set_usedMemory (to_size_t (m_usedMemory s2 + CacheGetValueSize v)) s2) s' ∧
    wf None s' ∧
    InternalInsert key value acquired s = Ret (mkHandle true (Some key) v, s').
Proof.
  intros Hwf Hfit HR. simpl. rewrite InternalInsert_miss by done. simpl.
  pose proof (insert_start_wf key value acquired s Hwf HR) as Hwf0.
  destruct (insert_start_fields key value acquired s) as (HF & Hcap & _). simpl in HF, Hcap.
  rewrite HF, Hcap.
  assert (∃ s1, (if IsFull s then replace key (capacity s) (insert_start key value acquired s)
                 else Ret (insert_start key value acquired s)) = Ret s1
                ∧ wf (Some key) s1) as (s1 & Hs1 & Hwf1).
  { destruct (IsFull s) eqn:Hfull.
    - destruct (replace_total key (capacity s) (insert_start key value acquired s)) as [s1 Hs1];
        [done| |].
      + unfold capacity. rewrite Hfull. unfold residents_fit, size_of in *. wrap_lia.
      + exists s1. split; [done|]. by eapply replace_wf.
    - by eexists. }
  rewrite Hs1, bind_Ret_l.
  destruct (install_spec key (inserted_value value acquired) (capacity s) s1 Hwf1)
    as (s2 & Hs2 & Hwf2 & Hinst).
  rewrite Hs2, bind_Ret_l.
  match goal with |- context [Handle_new ?k ?v ?x] =>
    destruct (Handle_new_total x k v) as [s' Hs'] end.
  exists s1, s2, s'. rewrite Hs'.
  pose proof (bookkeeping_Handle_new _ _ _ _ _ Hs') as Hbk.
  split_and!; try done.
  eapply bookkeeping_wf; [done|]. by apply wf_set_usedMemory.
Qed.

(** [InternalInsert] returns. *)
Lemma InternalInsert_total key value acquired s :
  wf None s → residents_fit s →
  ∃ h s', InternalInsert key value acquired s = Ret (h, s').
Proof.
  intros Hwf Hc. destruct (m_T1T2map s !! key) as [e|] eqn:HR.
  - unfold InternalInsert. rewrite HR.
    destruct (wf_R _ _ Hwf key e HR) as (el & Hel & _); [done|].
    rewrite deref_Ret with (el := el) by done. simpl.
    destruct (Handle_new_total s key (page el)) as [s' ->]. eauto.
  - destruct (InternalInsert_miss_spec key value acquired s Hwf Hc HR)
      as (s1 & s2 & s' & _ & _ & _ & _ & _ & _ & _ & ->). eauto.
Qed.

(** ** Lookup *)

Lemma wf_hit s e el :
  wf None s → e ∈ m_T1Queue s ∨ e ∈ m_T2Queue s → store s !! e = Some el →
  wf None (set_store (<[e := set_referenceBit true el]> (store s)) s).
Proof.
  intros Hwf Hin Hel.
  eapply (wf_resident_update None s _ e el (set_referenceBit true el)); simpl; try done; try lia.
  - intros He. destruct (wf_T1 _ _ Hwf e He) as (el' & Hel' & ? & _). congruence.
  - intros He. destruct (wf_T2 _ _ Hwf e He) as (el' & Hel' & ? & Hl & _).
    assert (el' = el) as -> by congruence. auto.
Qed.

Lemma FindOrCreate_wf key acquired s h s' :
  wf None s → FindOrCreate key acquired s = Ret (h, s') → wf None s'.
Proof.
  intros Hwf. unfold FindOrCreate. destruct (m_T1T2map s !! key) as [e|] eqn:HR.
  - destruct (wf_R _ _ Hwf key e HR) as (el & Hel & _ & Hin); [done|].
    erewrite modify_Ret by done. rewrite bind_Ret_l.
    intros (el' & _ & Hh)%bind_Ret_inv.
    eapply bookkeeping_wf; [by eapply bookkeeping_Handle_new|]. by apply wf_hit.
  - by apply InternalInsert_wf.
Qed.

Lemma FindOrCreate_total key acquired s :
  wf None s → residents_fit s →
  ∃ h s', FindOrCreate key acquired s = Ret (h, s').
Proof.
  intros Hwf Hc. unfold FindOrCreate. destruct (m_T1T2map s !! key) as [e|] eqn:HR.
  - destruct (wf_R _ _ Hwf key e HR) as (el & Hel & _ & Hin); [done|].
    erewrite modify_Ret by done. rewrite bind_Ret_l.
    erewrite deref_Ret by (simpl; apply lookup_insert_eq). rewrite bind_Ret_l.
    match goal with |- ∃ h s', Handle_new ?k ?v ?x = _ =>
      destruct (Handle_new_total x k v) as [s' ->] end. eauto.
  - by apply InternalInsert_total.
Qed.

Lemma IsInCache_bookkeeping key s h s' :
  IsInCache key s = Ret (h, s') → bookkeeping s s'.
Proof.
  unfold IsInCache. destruct (m_T1T2map s !! key) as [e|].
  - intros (el & _ & Hh)%bind_Ret_inv. by eapply bookkeeping_Handle_new.
  - intros [= <- <-]. apply bookkeeping_refl.
Qed.

(** ** [Clear] *)


Lemma shrinks_refl s : shrinks s s.
Proof. split; [by destruct s|done]. Qed.

Lemma shrinks_trans s1 s2 s3 : shrinks s1 s2 → shrinks s2 s3 → shrinks s1 s3.
Proof.
  intros [Hn1 Hs1] [Hn2 Hs2]. split; [|auto].
  rewrite Hn2 at 1. rewrite Hn1 at 1. by destruct s1.
Qed.

Lemma shrinks_bookkeeping s s' : bookkeeping s s' → shrinks s s'.
Proof. intros ->. split; [by destruct s|done]. Qed.

Lemma shrinks_delete_element e s s' : delete_element e s = Ret s' → shrinks s s'.
Proof.
  unfold delete_element. destruct (store s !! e) eqn:He; [|discriminate].
  intros [= <-]. split; [by destruct s|]. simpl. intros e' [_ ?]%lookup_delete_is_Some. done.
Qed.

Lemma shrinks_fields s s' :
  shrinks s s' →
  m_T1Queue s' = m_T1Queue s ∧ m_T2Queue s' = m_T2Queue s ∧
  m_B1List s' = m_B1List s ∧ m_B2List s' = m_B2List s ∧ next_element s' = next_element s ∧
  m_B1ListSize s' = m_B1ListSize s.
Proof. intros [-> _]. done. Qed.

Lemma Clear_queue_shrinks q : ∀ s s', Clear_queue q s = Ret s' → shrinks s s'.
Proof.
  induction q as [|e q IH]; intros s s'; simpl; [intros [= <-]; apply shrinks_refl|].
  intros (el & _ & ([b s1] & Hdec & (s2 & Hdel & Hrest)%bind_Ret_inv)%bind_Ret_inv)%bind_Ret_inv.
  eapply shrinks_trans; [|by eapply IH].
  eapply shrinks_trans; [|by eapply shrinks_delete_element].
  apply shrinks_bookkeeping. by eapply bookkeeping_DecUsage.
Qed.

Lemma Clear_list_shrinks l : ∀ s s', Clear_list l s = Ret s' → shrinks s s'.
Proof.
  induction l as [|e l IH]; intros s s'; simpl; [intros [= <-]; apply shrinks_refl|].
  intros (s2 & Hdel & Hrest)%bind_Ret_inv.
  eapply shrinks_trans; [by eapply shrinks_delete_element|by eapply IH].
Qed.

Lemma Clear_wf s s' : wf None s → Clear s = Ret s' → wf None s'.
Proof.
  intros Hwf. unfold Clear.
  intros (s1 & H1%Clear_queue_shrinks & (s2 & H2%Clear_queue_shrinks &
           (s3 & H3%Clear_list_shrinks & (s4 & H4%Clear_list_shrinks & [= <-])%bind_Ret_inv
           )%bind_Ret_inv)%bind_Ret_inv)%bind_Ret_inv.
  destruct (shrinks_fields _ _ H1) as (_ & _ & _ & _ & Hn1 & _).
  destruct (shrinks_fields _ _ H2) as (HT1b & _ & _ & _ & Hn2 & _).
  destruct (shrinks_fields _ _ H3) as (HT1c & HT2c & _ & _ & Hn3 & _).
  destruct (shrinks_fields _ _ H4) as (HT1d & HT2d & HB1d & _ & Hn4 & HB1s).
  simpl in *.
  assert (next_element s4 = next_element s) as Hnext by congruence.
  assert (∀ e, is_Some (store s4 !! e) → is_Some (store s !! e)) as Hstore.
  { destruct H1 as [_ H1], H2 as [_ H2], H3 as [_ H3], H4 as [_ H4]. simpl in *.
    intros e He. auto. }
  assert (m_T1Queue s4 = []) as HT1 by congruence.
  assert (m_T2Queue s4 = []) as HT2 by congruence.
  constructor; simpl; rewrite ?HT1, ?HT2, ?HB1d, ?HB1s; try done; try apply NoDup_nil_2;
    try (intros e He; by apply elem_of_nil in He).
  - intros k Hk. rewrite lookup_empty in Hk. by destruct Hk.
  - destruct (store s4 !! nullptr) eqn:Hnull; [|done].
    destruct (Hstore nullptr) as [el Hel]; [eauto|]. rewrite (wf_null _ _ Hwf) in Hel. discriminate.
  - intros e He. rewrite Hnext. by apply (wf_next _ _ Hwf), Hstore.
  - rewrite Hnext. apply (wf_next_pos _ _ Hwf).
Qed.

(** ** Every call keeps the invariant *)

Lemma Cache_new_wf maxNumElements maxUsedMemory :
  wf (KEY:=KEY) None (Cache_new maxNumElements maxUsedMemory).
Proof.
  eapply bookkeeping_wf; [apply bookkeeping_assert|].
  constructor; simpl; try done; try apply NoDup_nil_2; try (intros e He; by apply elem_of_nil in He).
  - intros k Hk. rewrite lookup_empty in Hk. by destruct Hk.
  - intros e He. rewrite lookup_empty in He. by destruct He.
Qed.

Lemma step_wf o s s' : wf None s → step o s = Ret s' → wf None s'.
Proof.
  intros Hwf. destruct o; simpl.
  - intros ([h s1] & Hs1 & [= <-])%bind_Ret_inv. by eapply FindOrCreate_wf.
  - intros ([h s1] & Hs1 & [= <-])%bind_Ret_inv.
    eapply bookkeeping_wf; [by eapply IsInCache_bookkeeping|done].
  - intros ([h s1] & Hs1 & [= <-])%bind_Ret_inv. by eapply InternalInsert_wf.
  - by apply Clear_wf.
  - intros ([h' s1] & Hs1 & [= <-])%bind_Ret_inv.
    eapply bookkeeping_wf; [by eapply bookkeeping_Handle_copy|done].
  - intros ([h' s1] & Hs1 & [= <-])%bind_Ret_inv.
    eapply bookkeeping_wf; [by eapply bookkeeping_Handle_Release|done].
Qed.

Lemma run_wf os : ∀ s s', wf None s → run os s = Ret s' → wf None s'.
Proof.
  induction os as [|o os IH]; intros s s' Hwf; simpl; [by intros [= <-]|].
  intros (s1 & Hs1 & Hrest)%bind_Ret_inv. eapply IH; [|done]. by eapply step_wf.
Qed.

Lemma reachable_wf s : reachable s → wf None s.
Proof.
  intros (N & M & os & _ & _ & _ & Hrun). eapply run_wf; [|done]. apply Cache_new_wf.
Qed.

End Properties.

(** * Further properties of the cache *)

Section MoreProperties.
Context {KEY : Type} `{Countable KEY} `{!CacheTraits KEY}.
Implicit Types (s : Cache KEY) (e : ptr) (el : CLOCKElement KEY) (key k : KEY).
Implicit Types (pend : option KEY).

Ltac wrap_lia :=
  unfold to_size_t, to_int, to_uint in *; Z.div_mod_to_equations; lia.

(** ** The containers between two calls *)

Lemma values_of_index (m : gmap KEY ptr) (l : list ptr) :
  NoDup l →
  (∀ k1 k2 e, m !! k1 = Some e → m !! k2 = Some e → k1 = k2) →
  (∀ e, e ∈ l ↔ ∃ k, m !! k = Some e) →
  size m = length l.
Proof.
  intros Hl Hinj Hiff. rewrite <-length_map_to_list.
  rewrite <-(length_fmap snd (map_to_list m)). apply Permutation_length.
  apply NoDup_Permutation; [|done|].
  - apply NoDup_fmap_2_strong; [|apply NoDup_map_to_list].
    intros [k1 e1] [k2 e2] H1%elem_of_map_to_list H2%elem_of_map_to_list Heq.
    simpl in Heq. subst e2. f_equal. eauto.
  - intros e. rewrite Hiff, list_elem_of_fmap. split.
    + intros ([k e'] & -> & Hin%elem_of_map_to_list). eauto.
    + intros (k & Hk). exists (k, e). by rewrite elem_of_map_to_list.
Qed.

(** X1: between two calls the resident index and the two queues hold
    the same entries: no node is queued twice, a key maps to a node
    exactly when that node is queued in T1 or T2 and carries the key,
    the index has one slot per queued node, and a node of T1 has
    [firstList] set while a node of T2 has it clear. *)
Theorem resident_index_matches_queues s :
  reachable s →
  NoDup (m_T1Queue s ++ m_T2Queue s) ∧
  size (m_T1T2map s) = (length (m_T1Queue s) + length (m_T2Queue s))%nat ∧
  (∀ key e, m_T1T2map s !! key = Some e ↔
     (e ∈ m_T1Queue s ∨ e ∈ m_T2Queue s)
     ∧ ∃ el, store s !! e = Some el ∧ pageKey el = key) ∧
  (∀ e el, store s !! e = Some el →
     (e ∈ m_T1Queue s → firstList el = true) ∧ (e ∈ m_T2Queue s → firstList el = false)).
Proof.
  intros Hwf%reachable_wf.
  assert (∀ key e, m_T1T2map s !! key = Some e ↔
     (e ∈ m_T1Queue s ∨ e ∈ m_T2Queue s)
     ∧ ∃ el, store s !! e = Some el ∧ pageKey el = key) as Hiff.
  { intros key e. split.
    - intros HR. destruct (wf_R _ _ Hwf key e HR) as (el & Hel & Hk & Hin); [done|]. eauto.
    - intros (Hin & el & Hel & <-).
      destruct (wf_resident _ _ _ Hwf Hin) as (b & el' & Hel' & _ & _ & HR). congruence. }
  split_and!; [by eapply wf_queues_NoDup| |done|].
  - rewrite <-length_app. apply values_of_index; [by eapply wf_queues_NoDup| |].
    + intros k1 k2 e (_ & el1 & Hel1 & <-)%Hiff (_ & el2 & Hel2 & <-)%Hiff. congruence.
    + intros e. rewrite elem_of_app. split.
      * intros Hin. destruct (wf_resident _ _ _ Hwf Hin) as (b & el & Hel & _ & _ & HR). eauto.
      * intros (k & HR%Hiff). tauto.
  - intros e el Hel. split; intros Hin.
    + destruct (wf_T1 _ _ Hwf e Hin) as (el' & Hel' & Hf & _). congruence.
    + destruct (wf_T2 _ _ Hwf e Hin) as (el' & Hel' & Hf & _). congruence.
Qed.

(** X2: between two calls the ghost index and the two history lists
    hold the same entries, and the two counters that stand for
    [std::list::size] are the lengths of B1 and B2. *)
Theorem ghost_index_matches_lists s :
  reachable s →
  NoDup (m_B1List s ++ m_B2List s) ∧
  m_B1ListSize s = size_of (m_B1List s) ∧ m_B2ListSize s = size_of (m_B2List s) ∧
  size (m_B1B2map s) = (length (m_B1List s) + length (m_B2List s))%nat ∧
  (∀ key e, m_B1B2map s !! key = Some e ↔
     (e ∈ m_B1List s ∨ e ∈ m_B2List s)
     ∧ ∃ el, store s !! e = Some el ∧ pageKey el = key) ∧
  (∀ e el, store s !! e = Some el →
     (e ∈ m_B1List s → firstList el = true) ∧ (e ∈ m_B2List s → firstList el = false)).
Proof.
  intros Hwf%reachable_wf. split_and!.
  - apply NoDup_app. split_and!; [apply (wf_B1_nodup _ _ Hwf)| |apply (wf_B2_nodup _ _ Hwf)].
    intros e H1 H2. by eapply wf_B1_B2_apart.
  - apply (wf_B1size _ _ Hwf).
  - apply (wf_B2size _ _ Hwf).
  - apply (wf_Gsize _ _ Hwf).
  - intros key e. split.
    + intros HG. destruct (wf_G _ _ Hwf key e HG) as (el & Hel & Hk & Hin). eauto.
    + intros (Hin & el & Hel & <-).
      destruct (wf_ghost _ _ _ Hwf Hin) as (b & el' & Hel' & _ & HG). congruence.
  - intros e el Hel. split; intros Hin.
    + destruct (wf_B1 _ _ Hwf e Hin) as (el' & Hel' & Hf & _). congruence.
    + destruct (wf_B2 _ _ Hwf e Hin) as (el' & Hel' & Hf & _). congruence.
Qed.

(** X3: between two calls no key is both resident and remembered in
    the history, and no node is both in a queue and in a history
    list. *)
Theorem residents_and_ghosts_apart s :
  reachable s →
  (∀ key, is_Some (m_T1T2map s !! key) → m_B1B2map s !! key = None) ∧
  (∀ e, e ∈ m_T1Queue s ++ m_T2Queue s → e ∉ m_B1List s ++ m_B2List s).
Proof.
  intros Hwf%reachable_wf. split.
  - intros key HR. destruct (m_B1B2map s !! key) eqn:HG; [|done].
    by pose proof (wf_apart _ _ Hwf key HR (mk_is_Some _ _ HG)).
  - intros e Hq%elem_of_app Hg%elem_of_app.
    destruct (wf_resident _ _ _ Hwf Hq) as (b & Hb).
    destruct (wf_ghost _ _ _ Hwf Hg) as (b' & Hb').
    by eapply wf_resident_ghost_apart.
Qed.

(** ** Lookups and insertions *)

Lemma IsInCache_resident s key e el :
  m_T1T2map s !! key = Some e → store s !! e = Some el →
  ∃ s', IsInCache key s = Ret (mkHandle true (Some key) (page el), s') ∧
    s' = set_usage (m_usage s') s ∧
    m_usage s' = m_usage (if (page el =? nullptr)%N then s else IncUsage key (page el) s).
Proof.
  intros HR Hel. unfold IsInCache. rewrite HR, (deref_Ret _ _ _ Hel), bind_Ret_l.
  unfold Handle_new, Handle_IncUsage, pins. simpl.
  destruct (page el =? nullptr)%N; simpl.
  - exists s. split_and!; try done. by destruct s.
  - eexists. split_and!; try done. unfold IncUsage. destruct (m_usage s !! _); by destruct s.
Qed.

Lemma FindOrCreate_hit s key e :
  wf None s → m_T1T2map s !! key = Some e →
  ∃ el, store s !! e = Some el ∧ pageKey el = key ∧
    ∀ acquired, ∃ s',
      FindOrCreate key acquired s = Ret (mkHandle true (Some key) (page el), s') ∧
      s' = set_usage (m_usage s')
             (set_store (<[e := set_referenceBit true el]> (store s)) s) ∧
      m_usage s' = m_usage (if (page el =? nullptr)%N then s else IncUsage key (page el) s).
Proof.
  intros Hwf HR.
  destruct (wf_R _ _ Hwf key e HR) as (el & Hel & Hk & _); [done|].
  exists el. split_and!; try done. intros acquired. unfold FindOrCreate. rewrite HR.
  rewrite (modify_Ret _ _ _ _ Hel), bind_Ret_l.
  set (s1 := set_store _ s).
  assert (store s1 !! e = Some (set_referenceBit true el)) as Hel1
    by (simpl; by rewrite lookup_insert_eq).
  rewrite (deref_Ret _ _ _ Hel1), bind_Ret_l.
  unfold Handle_new, Handle_IncUsage, pins. simpl.
  destruct (page el =? nullptr)%N; simpl.
  - exists s1. split_and!; try done.
  - eexists. split_and!; try done.
    + unfold IncUsage. simpl. destruct (m_usage s !! _); done.
    + unfold IncUsage. simpl. destruct (m_usage s !! _); done.
Qed.

Lemma InternalInsert_fresh s key value acquired :
  wf None s → residents_fit s → m_T1T2map s !! key = None →
  let v := inserted_value value acquired in
  ∃ s' e el,
    InternalInsert key value acquired s = Ret (mkHandle true (Some key) v, s') ∧
    wf None s' ∧
    m_T1T2map s' !! key = Some e ∧ last (m_T1Queue s') = Some e ∧
    store s' !! e = Some el ∧ pageKey el = key ∧ page el = v ∧
    referenceBit el = false ∧ firstList el = true ∧
    longBit el = bool_decide (is_Some (m_B1B2map s !! key)) ∧
    m_B1B2map s' !! key = None.
Proof.
  intros Hwf Hfit HR v.
  destruct (InternalInsert_miss_spec key value acquired s Hwf Hfit HR)
    as (s1 & s2 & s' & Hs1 & Hwf1 & Hs2 & Hwf2 & Hinst & Hbk & Hwf' & Hrun).
  destruct Hinst as (e & el & HT1 & _ & Hel & Hk & Hp & Href & Hfirst & Hlong & HR2 & _).
  apply bookkeeping_containers in Hbk as (HT1' & _ & _ & _ & HR' & HG' & Hst'). simpl in *.
  assert (m_B1B2map s1 !! key = m_B1B2map s !! key) as HG1.
  { destruct (insert_start_fields key value acquired s) as (_ & _ & _ & _ & _ & _ & HG0 & _).
    destruct (IsFull s).
    - apply replace_wf in Hs1 as (_ & -> & _); [|by apply insert_start_wf]. by rewrite HG0.
    - injection Hs1 as <-. by rewrite HG0. }
  exists s', e, el. split_and!; try done.
  - by rewrite HR', HR2, lookup_insert_eq.
  - by rewrite HT1', HT1, last_snoc.
  - by rewrite Hst'.
  - by rewrite Hlong, HG1.
  - destruct (m_B1B2map s' !! key) eqn:HG; [|done].
    assert (m_T1T2map s' !! key = Some e) as HRk by (by rewrite HR', HR2, lookup_insert_eq).
    by pose proof (wf_apart _ _ Hwf' key (mk_is_Some _ _ HRk) (mk_is_Some _ _ HG)).
Qed.

(** X4: [FindOrCreate] of a resident key sets the reference bit of its
    entry and counts the handle it returns; nothing else changes, and
    the loader is not asked: the answer it would give has no effect. *)
Theorem hit_sets_only_the_reference_bit s key e :
  reachable s → m_T1T2map s !! key = Some e →
  ∃ el, store s !! e = Some el ∧ pageKey el = key ∧
    ∀ acquired, ∃ s',
      FindOrCreate key acquired s = Ret (mkHandle true (Some key) (page el), s') ∧
      s' = set_usage (m_usage s')
             (set_store (<[e := set_referenceBit true el]> (store s)) s) ∧
      m_usage s' = m_usage (if (page el =? nullptr)%N then s else IncUsage key (page el) s).
Proof. intros Hwf%reachable_wf. by apply FindOrCreate_hit. Qed.

(** X5: [InsertIntoCache] of a resident key does not update the entry:
    it returns a handle on the value that is resident, as [IsInCache]
    does, and the value submitted is not stored anywhere. *)
Theorem InsertIntoCache_keeps_the_resident_value s key e :
  reachable s → m_T1T2map s !! key = Some e →
  ∃ el, store s !! e = Some el ∧ pageKey el = key ∧
    ∀ value acquired, ∃ s',
      InsertIntoCache key value acquired s = Ret (mkHandle true (Some key) (page el), s') ∧
      IsInCache key s = Ret (mkHandle true (Some key) (page el), s') ∧
      s' = set_usage (m_usage s') s.
Proof.
  intros Hwf%reachable_wf HR.
  destruct (wf_R _ _ Hwf key e HR) as (el & Hel & Hk & _); [done|].
  exists el. split_and!; try done. intros value acquired.
  destruct (IsInCache_resident s key e el HR Hel) as (s' & Hpeek & Hs' & _).
  exists s'. split_and!; try done.
  rewrite <-Hpeek. unfold InsertIntoCache, InternalInsert, IsInCache. by rewrite HR.
Qed.

(** X6: an insertion of a key that is not resident returns a handle on
    the value inserted (the value submitted, or what the loader
    answers when none is submitted).  The key is then resident at the
    tail of T1 with that value and a clear reference bit, its filter is
    Long exactly when the key was remembered in the history and Short
    otherwise, and the key has left the history. *)
Theorem new_entry_filter s key value acquired :
  reachable s → residents_fit s → m_T1T2map s !! key = None →
  let v := inserted_value value acquired in
  ∃ s' e el,
    InternalInsert key value acquired s = Ret (mkHandle true (Some key) v, s') ∧
    m_T1T2map s' !! key = Some e ∧ last (m_T1Queue s') = Some e ∧
    store s' !! e = Some el ∧ pageKey el = key ∧ page el = v ∧
    referenceBit el = false ∧ firstList el = true ∧
    longBit el = bool_decide (is_Some (m_B1B2map s !! key)) ∧
    m_B1B2map s' !! key = None.
Proof.
  intros Hwf%reachable_wf Hfit HR v.
  destruct (InternalInsert_fresh s key value acquired Hwf Hfit HR)
    as (s' & e & el & Hrun & _ & Hrest).
  by exists s', e, el.
Qed.

(** X7: what [FindOrCreate] returns is what a lookup finds afterwards:
    the call returns a handle of the key; on a miss its value is the
    loader's answer; after the call the key is resident with that
    value, [IsInCache] returns the same handle, and a second
    [FindOrCreate] returns it too whatever the loader would answer. *)
Theorem FindOrCreate_then_lookup s key acquired :
  reachable s → residents_fit s →
  ∃ v s' e el,
    FindOrCreate key acquired s = Ret (mkHandle true (Some key) v, s') ∧
    (m_T1T2map s !! key = None → v = acquired) ∧
    m_T1T2map s' !! key = Some e ∧ store s' !! e = Some el ∧
    pageKey el = key ∧ page el = v ∧
    (∃ s'', IsInCache key s' = Ret (mkHandle true (Some key) v, s'')) ∧
    (∀ acquired', ∃ s'', FindOrCreate key acquired' s' = Ret (mkHandle true (Some key) v, s'')).
Proof.
  intros Hwf%reachable_wf Hfit.
  assert (∃ v s' e el,
    FindOrCreate key acquired s = Ret (mkHandle true (Some key) v, s') ∧
    (m_T1T2map s !! key = None → v = acquired) ∧
    m_T1T2map s' !! key = Some e ∧ store s' !! e = Some el ∧
    pageKey el = key ∧ page el = v) as (v & s' & e & el & Hrun & Hv & HR' & Hel' & Hk & Hp).
  { destruct (m_T1T2map s !! key) as [e|] eqn:HR.
    - destruct (FindOrCreate_hit s key e Hwf HR) as (el & Hel & Hk & Hhit).
      destruct (Hhit acquired) as (s' & Hrun & Hs' & _).
      exists (page el), s', e, (set_referenceBit true el). split_and!; try done.
      + by rewrite Hs'.
      + rewrite Hs'. simpl. by rewrite lookup_insert_eq.
    - destruct (InternalInsert_fresh s key nullptr acquired Hwf Hfit HR)
        as (s' & e & el & Hrun & _ & HR' & _ & Hel & Hk & Hp & _).
      exists acquired, s', e, el. unfold FindOrCreate. rewrite HR. split_and!; done. }
  exists v, s', e, el. split_and!; try done.
  - destruct (IsInCache_resident s' key e el HR' Hel') as (s'' & Hpeek & _). rewrite <-Hp. eauto.
  - intros acquired'. pose proof (FindOrCreate_wf _ _ _ _ _ Hwf Hrun) as Hwf'.
    destruct (FindOrCreate_hit s' key e Hwf' HR') as (el2 & Hel2 & _ & Hhit).
    destruct (Hhit acquired') as (s'' & Hrun' & _).
    assert (el2 = el) as -> by congruence. rewrite Hp in Hrun'. eauto.
Qed.

(** ** The limits *)

Lemma same_limits_trans s1 s2 s3 : same_limits s1 s2 → same_limits s2 s3 → same_limits s1 s3.
Proof. intros [? ?] [? ?]. split; congruence. Qed.

Lemma bookkeeping_limits s s' : bookkeeping s s' → same_limits s s'.
Proof. intros ->. done. Qed.

Lemma shrinks_limits s s' : shrinks s s' → same_limits s s'.
Proof. intros [-> _]. done. Qed.

Lemma InternalInsert_limits key value acquired s h s' :
  wf None s → InternalInsert key value acquired s = Ret (h, s') → same_limits s s'.
Proof.
  intros Hwf. destruct (m_T1T2map s !! key) as [e|] eqn:HR.
  - unfold InternalInsert. rewrite HR. intros (el & _ & Hnew)%bind_Ret_inv.
    by apply bookkeeping_Handle_new, bookkeeping_limits in Hnew.
  - rewrite InternalInsert_miss by done. cbv zeta.
    intros (s1 & Hs1 & (s2 & Hs2 & Hnew)%bind_Ret_inv)%bind_Ret_inv.
    pose proof (insert_start_wf key value acquired s Hwf HR) as Hwf0.
    assert (same_limits s (insert_start key value acquired s)) as H0.
    { unfold insert_start, IncUsage. simpl. destruct (m_usage s !! _); done. }
    assert (same_limits (insert_start key value acquired s) s1 ∧ wf (Some key) s1) as [H1 Hwf1].
    { destruct (IsFull _).
      - apply replace_wf in Hs1 as (? & _ & ? & ? & _); done.
      - by injection Hs1 as <-. }
    destruct (install_spec key (inserted_value value acquired)
                (capacity (insert_start key value acquired s)) s1 Hwf1)
      as (s2' & Hs2' & _ & Hinst).
    assert (s2' = s2) as -> by congruence.
    destruct Hinst as (e & el & _ & _ & _ & _ & _ & _ & _ & _ & _ & _ & _ & _ & _ & HN & HM & _).
    apply bookkeeping_Handle_new, bookkeeping_limits in Hnew.
    destruct H0 as [? ?], H1 as [? ?], Hnew as [? ?]. simpl in *. split; congruence.
Qed.

Lemma step_limits o s s' : wf None s → step o s = Ret s' → same_limits s s'.
Proof.
  intros Hwf. destruct o; simpl.
  - intros ([h s1] & Hs1 & [= <-])%bind_Ret_inv. unfold FindOrCreate in Hs1.
    destruct (m_T1T2map s !! key) as [e|] eqn:HR; [|by eapply InternalInsert_limits].
    destruct (FindOrCreate_hit s key e Hwf HR) as (el & _ & _ & Hhit).
    destruct (Hhit acquired) as (s2 & Hrun & Hs2 & _). unfold FindOrCreate in Hrun.
    rewrite HR, Hs1 in Hrun. injection Hrun as _ ->. by rewrite Hs2.
  - intros ([h s1] & Hs1 & [= <-])%bind_Ret_inv.
    by eapply bookkeeping_limits, IsInCache_bookkeeping.
  - intros ([h s1] & Hs1 & [= <-])%bind_Ret_inv. by eapply InternalInsert_limits.
  - unfold Clear.
    intros (s1 & H1%Clear_queue_shrinks%shrinks_limits
            & (s2 & H2%Clear_queue_shrinks%shrinks_limits &
           (s3 & H3%Clear_list_shrinks%shrinks_limits
            & (s4 & H4%Clear_list_shrinks%shrinks_limits & [= <-])%bind_Ret_inv
           )%bind_Ret_inv)%bind_Ret_inv)%bind_Ret_inv.
    destruct H1 as [? ?], H2 as [? ?], H3 as [? ?], H4 as [? ?]. simpl in *.
    split; simpl; congruence.
  - intros ([h' s1] & Hs1 & [= <-])%bind_Ret_inv.
    by eapply bookkeeping_limits, bookkeeping_Handle_copy.
  - intros ([h' s1] & Hs1 & [= <-])%bind_Ret_inv.
    by eapply bookkeeping_limits, bookkeeping_Handle_Release.
Qed.

Lemma run_limits os : ∀ s s', wf None s → run os s = Ret s' → same_limits s s'.
Proof.
  induction os as [|o os IH]; intros s s' Hwf; simpl; [by intros [= <-]|].
  intros (s1 & Hs1 & Hrest)%bind_Ret_inv.
  eapply same_limits_trans; [by eapply step_limits|].
  eapply IH; [|done]. by eapply step_wf.
Qed.

Lemma reachable_limits s :
  reachable s →
  0 ≤ m_maxNumElements s ∧ 0 ≤ m_maxUsedMemory s ∧
  (m_maxNumElements s ≠ 0 ∨ m_maxUsedMemory s ≠ 0).
Proof.
  intros (N & M & os & Hlim & HN & HM & Hos).
  apply run_limits in Hos as [-> ->]; [|apply Cache_new_wf].
  unfold Cache_new, assert. destruct (_ || _); done.
Qed.


(** ** [Clear] *)

Lemma Clear_list_returns l : ∀ s,
  NoDup l → (∀ e, e ∈ l → is_Some (store s !! e)) →
  ∃ s', Clear_list l s = Ret s' ∧ m_usage s' = m_usage s ∧
    (∀ x, x ∉ l → store s' !! x = store s !! x) ∧ (∀ x, x ∈ l → store s' !! x = None).
Proof.
  induction l as [|e l IH]; intros s Hnd Hst; simpl.
  - exists s. split_and!; try done. intros x Hx. by apply elem_of_nil in Hx.
  - apply NoDup_cons in Hnd as [Hne Hnd].
    destruct (Hst e) as [el Hel]; [set_solver|].
    rewrite (delete_element_Ret _ _ _ Hel), bind_Ret_l.
    destruct (IH (set_store (delete e (store s)) s) Hnd) as (s' & Hrun & Hu & Hout & Hin).
    { intros x Hx. simpl. rewrite lookup_delete_ne by set_solver. apply Hst. set_solver. }
    exists s'. split_and!; [done|done| |].
    + intros x Hx. rewrite Hout by set_solver. simpl. apply lookup_delete_ne. set_solver.
    + intros x [->|Hx]%elem_of_cons; [|by apply Hin].
      rewrite Hout by done. simpl. apply lookup_delete_eq.
Qed.

Lemma Clear_queue_returns q : ∀ s,
  NoDup q → (∀ e, e ∈ q → is_Some (store s !! e) ∧ sole_holder s e) →
  ∃ s', Clear_queue q s = Ret s' ∧
    (∀ x, x ∉ q → store s' !! x = store s !! x) ∧ (∀ x, x ∈ q → store s' !! x = None) ∧
    (∀ id n, m_usage s' !! id = Some n → m_usage s !! id = Some n).
Proof.
  induction q as [|e q IH]; intros s Hnd Hst; simpl.
  - exists s. split_and!; try done. intros x Hx. by apply elem_of_nil in Hx.
  - apply NoDup_cons in Hnd as [Hne Hnd].
    destruct (Hst e) as [[el Hel] Hsole]; [set_solver|].
    rewrite (deref_Ret _ _ _ Hel), bind_Ret_l.
    assert (∃ b s1, DecUsage (pageKey el) (page el) true s = Ret (b, s1) ∧
              store s1 = store s ∧
              (∀ id n, m_usage s1 !! id = Some n → m_usage s !! id = Some n))
      as (b & s1 & -> & Hst1 & Hu1).
    { unfold DecUsage. fold (row_of el). destruct (m_usage s !! row_of el) as [n|] eqn:Hn.
      - rewrite (Hsole el n Hel Hn). simpl. do 2 eexists. split_and!; try done. simpl.
        intros id m [_ ?]%lookup_delete_Some. done.
      - do 2 eexists. split_and!; try done. }
    rewrite bind_Ret_l. cbv beta iota.
    assert (store s1 !! e = Some el) as Hel1 by (by rewrite Hst1).
    rewrite (delete_element_Ret _ _ _ Hel1), bind_Ret_l.
    destruct (IH (set_store (delete e (store s1)) s1) Hnd) as (s' & Hrun & Hout & Hin & Hu).
    { intros x Hx. simpl. rewrite lookup_delete_ne, Hst1 by set_solver.
      destruct (Hst x) as [Hx1 Hx2]; [set_solver|]. split; [done|].
      intros elx n Helx Hn. simpl in Helx, Hn. rewrite lookup_delete_ne in Helx by set_solver.
      apply Hu1 in Hn. by apply (Hx2 elx n). }
    exists s'. split_and!; [done| | |].
    + intros x Hx. rewrite Hout by set_solver. simpl. rewrite lookup_delete_ne, Hst1; set_solver.
    + intros x [->|Hx]%elem_of_cons; [|by apply Hin].
      rewrite Hout by done. simpl. apply lookup_delete_eq.
    + intros id n Hn. apply Hu1. by apply Hu.
Qed.

Lemma Clear_queue_waits q e0 el0 n : ∀ s,
  NoDup q → (∀ e, e ∈ q → is_Some (store s !! e)) →
  store s !! e0 = Some el0 → m_usage s !! row_of el0 = Some n → 1 < n →
  (e0 ∈ q → Clear_queue q s = Hang) ∧
  (Clear_queue q s = Hang ∨
   ∃ s', Clear_queue q s = Ret s' ∧ store s' !! e0 = Some el0 ∧
     m_usage s' !! row_of el0 = Some n ∧ ∀ x, x ∉ q → store s' !! x = store s !! x).
Proof.
  induction q as [|e q IH]; intros s Hnd Hst Hel0 Hn0 Hn; simpl.
  - split; [by intros ?%elem_of_nil|]. right. exists s. done.
  - apply NoDup_cons in Hnd as [Hne Hnd].
    destruct (Hst e) as [el Hel]; [set_solver|].
    rewrite (deref_Ret _ _ _ Hel), bind_Ret_l.
    unfold DecUsage. fold (row_of el).
    destruct (m_usage s !! row_of el) as [m|] eqn:Hm.
    + destruct (1 <? m) eqn:Hpin; simpl; [by split; [|left]|].
      assert (row_of el ≠ row_of el0) as Hrow by (intros Heq; rewrite Heq in Hm; simplify_eq; lia).
      assert (e ≠ e0) as Hee by (intros ->; simplify_eq).
      destruct (to_uint (m - 1) =? 0); simpl.
      * rewrite (delete_element_Ret _ e el) by exact Hel. rewrite bind_Ret_l.
        destruct (IH (set_store (delete e (store s))
                        (set_usage (delete (row_of el) (m_usage s))
                           (set_released (released s ++ [(pageKey el, page el)]) s))) Hnd)
          as [Hin Hout]; simpl.
        { intros x Hx. rewrite lookup_delete_ne by set_solver. apply Hst. set_solver. }
        { by rewrite lookup_delete_ne. }
        { by rewrite lookup_delete_ne. }
        { done. }
        split; [intros [?|?]%elem_of_cons; [done|by apply Hin]|].
        destruct Hout as [->|(s' & -> & Hs0 & Hu0 & Hfr)]; [by left|]. right.
        exists s'. split_and!; try done.
        intros x Hx. rewrite Hfr by set_solver. simpl. apply lookup_delete_ne. set_solver.
      * rewrite (delete_element_Ret _ e el) by exact Hel. rewrite bind_Ret_l.
        destruct (IH (set_store (delete e (store s))
                        (set_usage (<[row_of el := to_uint (m - 1)]> (m_usage s)) s)) Hnd)
          as [Hin Hout]; simpl.
        { intros x Hx. rewrite lookup_delete_ne by set_solver. apply Hst. set_solver. }
        { by rewrite lookup_delete_ne. }
        { by rewrite lookup_insert_ne. }
        { done. }
        split; [intros [?|?]%elem_of_cons; [done|by apply Hin]|].
        destruct Hout as [->|(s' & -> & Hs0 & Hu0 & Hfr)]; [by left|]. right.
        exists s'. split_and!; try done.
        intros x Hx. rewrite Hfr by set_solver. simpl. apply lookup_delete_ne. set_solver.
    + simpl. assert (e ≠ e0) as Hee by (intros ->; simplify_eq).
      unfold assert. rewrite (delete_element_Ret _ e el) by exact Hel. rewrite bind_Ret_l.
      destruct (IH (set_store (delete e (store s)) (set_assert_failed true s)) Hnd)
        as [Hin Hout]; simpl.
      { intros x Hx. rewrite lookup_delete_ne by set_solver. apply Hst. set_solver. }
      { by rewrite lookup_delete_ne. }
      { done. }
      { done. }
      split; [intros [?|?]%elem_of_cons; [done|by apply Hin]|].
      destruct Hout as [->|(s' & -> & Hs0 & Hu0 & Hfr)]; [by left|]. right.
      exists s'. split_and!; try done.
      intros x Hx. rewrite Hfr by set_solver. simpl. apply lookup_delete_ne. set_solver.
Qed.

Lemma Clear_pinned s e :
  wf None s → e ∈ m_T1Queue s ++ m_T2Queue s → pinned s e → Clear s = Hang.
Proof.
  intros Hwf Hin (el & n & Hel & Hn & Hpin). unfold Clear.
  assert (∀ x, x ∈ m_T1Queue s → is_Some (store s !! x)) as Hst1.
  { intros x Hx. destruct (wf_T1 _ _ Hwf x Hx) as (elx & -> & _). eauto. }
  assert (∀ x, x ∈ m_T2Queue s → is_Some (store s !! x)) as Hst2.
  { intros x Hx. destruct (wf_T2 _ _ Hwf x Hx) as (elx & -> & _). eauto. }
  destruct (Clear_queue_waits (m_T1Queue s) e el n s (wf_T1_nodup _ _ Hwf) Hst1 Hel Hn Hpin)
    as [Hin1 Hout1].
  apply elem_of_app in Hin as [Hin|Hin]; [by rewrite Hin1|].
  destruct Hout1 as [->|(s1 & Hs1 & Hel1 & Hn1 & Hfr1)]; [done|].
  rewrite Hs1, bind_Ret_l. cbv zeta.
  apply Clear_queue_shrinks, shrinks_fields in Hs1 as (_ & HT2 & _).
  change (m_T2Queue (set_T1Queue [] s1)) with (m_T2Queue s1). rewrite HT2.
  destruct (Clear_queue_waits (m_T2Queue s) e el n (set_T1Queue [] s1))
    as [Hin2 _]; try done.
  - apply (wf_T2_nodup _ _ Hwf).
  - intros x Hx. simpl. rewrite Hfr1; [by apply Hst2|].
    intros Hx1. by eapply wf_T1_T2_apart.
  - by rewrite Hin2.
Qed.

Lemma Clear_sole s :
  wf None s → (∀ e, e ∈ m_T1Queue s ++ m_T2Queue s → sole_holder s e) →
  ∃ s', Clear s = Ret s' ∧
    (∀ e, e ∈ m_T1Queue s ++ m_T2Queue s ++ m_B1List s ++ m_B2List s → store s' !! e = None) ∧
    (∀ id n, m_usage s' !! id = Some n → m_usage s !! id = Some n).
Proof.
  intros Hwf Hsole. unfold Clear.
  destruct (Clear_queue_returns (m_T1Queue s) s (wf_T1_nodup _ _ Hwf))
    as (s1 & Hs1 & Hout1 & Hin1 & Hu1).
  { intros x Hx. split; [|apply Hsole; set_solver].
    destruct (wf_T1 _ _ Hwf x Hx) as (elx & -> & _). eauto. }
  rewrite Hs1, bind_Ret_l. cbv zeta.
  pose proof (Clear_queue_shrinks _ _ _ Hs1) as Hsh1.
  destruct (shrinks_fields _ _ Hsh1) as (_ & HT2a & HB1a & HB2a & _).
  change (m_T2Queue (set_T1Queue [] s1)) with (m_T2Queue s1). rewrite HT2a.
  destruct (Clear_queue_returns (m_T2Queue s) (set_T1Queue [] s1) (wf_T2_nodup _ _ Hwf))
    as (s2 & Hs2 & Hout2 & Hin2 & Hu2).
  { intros x Hx. assert (x ∉ m_T1Queue s) as Hx1 by (intros ?; by eapply wf_T1_T2_apart).
    simpl. rewrite Hout1 by done. split.
    - destruct (wf_T2 _ _ Hwf x Hx) as (elx & -> & _). eauto.
    - intros elx n Helx Hn. simpl in Helx, Hn. rewrite Hout1 in Helx by done.
      apply Hu1 in Hn. eapply (Hsole x); [set_solver|done..]. }
  rewrite Hs2, bind_Ret_l.
  pose proof (Clear_queue_shrinks _ _ _ Hs2) as Hsh2.
  destruct (shrinks_fields _ _ Hsh2) as (_ & _ & HB1b & HB2b & _). simpl in HB1b, HB2b.
  change (m_B1List (set_T2Queue [] s2)) with (m_B1List s2). rewrite HB1b, HB1a.
  assert (∀ x, x ∈ m_B1List s ++ m_B2List s → store s2 !! x = store s !! x) as Hg2.
  { intros x Hx%elem_of_app. destruct (wf_ghost _ _ _ Hwf Hx) as (b & Hb).
    rewrite Hout2, Hout1; [done| |].
    - intros Hx1. exact (wf_resident_ghost_apart _ s true b x Hwf (wf_T1 _ _ Hwf x Hx1) Hb).
    - intros Hx2. exact (wf_resident_ghost_apart _ s false b x Hwf (wf_T2 _ _ Hwf x Hx2) Hb). }
  destruct (Clear_list_returns (m_B1List s) (set_T2Queue [] s2) (wf_B1_nodup _ _ Hwf))
    as (s3 & Hs3 & Hu3 & Hout3 & Hin3).
  { intros x Hx. simpl. rewrite Hg2 by set_solver.
    destruct (wf_B1 _ _ Hwf x Hx) as (elx & -> & _). eauto. }
  rewrite Hs3, bind_Ret_l.
  pose proof (Clear_list_shrinks _ _ _ Hs3) as Hsh3.
  destruct (shrinks_fields _ _ Hsh3) as (_ & _ & _ & HB2c & _). simpl in HB2c.
  change (m_B2List (set_B1List [] 0 s3)) with (m_B2List s3). rewrite HB2c, HB2b, HB2a.
  destruct (Clear_list_returns (m_B2List s) (set_B1List [] 0 s3) (wf_B2_nodup _ _ Hwf))
    as (s4 & Hs4 & Hu4' & Hout4 & Hin4).
  { intros x Hx. assert (x ∉ m_B1List s) as Hx1 by (intros ?; by eapply wf_B1_B2_apart).
    simpl. rewrite Hout3 by done. simpl. rewrite Hg2 by set_solver.
    destruct (wf_B2 _ _ Hwf x Hx) as (elx & -> & _). eauto. }
  rewrite Hs4, bind_Ret_l. eexists. split; [done|]. simpl.
  assert (∀ id n, m_usage s4 !! id = Some n → m_usage s !! id = Some n) as Hu4.
  { intros id n Hn. apply Hu1. rewrite Hu4' in Hn. simpl in Hn. rewrite Hu3 in Hn.
    by apply Hu2 in Hn. }
  split; [|done].
  assert (∀ (P : ptr → Prop) s5 s6, (∀ x, is_Some (store s6 !! x) → is_Some (store s5 !! x)) →
            ∀ x, store s5 !! x = None → store s6 !! x = None) as Hnone.
  { intros _ s5 s6 Hsub x Hx. destruct (store s6 !! x) eqn:Hx6; [|done].
    destruct (Hsub x) as [? ?]; [eauto|congruence]. }
  intros x Hx. rewrite !elem_of_app in Hx.
  destruct (decide (x ∈ m_B2List s)) as [?|Hn4]; [by apply Hin4|].
  rewrite Hout4 by done. simpl.
  destruct (decide (x ∈ m_B1List s)) as [?|Hn3]; [by apply Hin3|].
  rewrite Hout3 by done. simpl.
  destruct (decide (x ∈ m_T2Queue s)) as [?|Hn2]; [by apply Hin2|].
  rewrite Hout2 by done. simpl. apply Hin1. tauto.
Qed.

Lemma Clear_fields s s' :
  Clear s = Ret s' →
  m_T1Queue s' = [] ∧ m_T2Queue s' = [] ∧ m_B1List s' = [] ∧ m_B2List s' = [] ∧
  m_T1T2map s' = ∅ ∧ m_B1B2map s' = ∅ ∧
  m_B1ListSize s' = 0 ∧ m_B2ListSize s' = 0 ∧
  m_p s' = 0 ∧ m_q s' = 0 ∧ m_numShort s' = 0 ∧ m_numLong s' = 0 ∧ m_usedMemory s' = 0 ∧
  same_limits s s'.
Proof.
  unfold Clear.
  intros (s1 & H1%Clear_queue_shrinks & (s2 & H2%Clear_queue_shrinks &
           (s3 & H3%Clear_list_shrinks & (s4 & H4%Clear_list_shrinks & [= <-])%bind_Ret_inv
           )%bind_Ret_inv)%bind_Ret_inv)%bind_Ret_inv.
  destruct (shrinks_fields _ _ H2) as (HT1b & _).
  destruct (shrinks_fields _ _ H3) as (HT1c & HT2c & _).
  destruct (shrinks_fields _ _ H4) as (HT1d & HT2d & HB1d & _ & _ & HB1s).
  apply shrinks_limits in H1 as [? ?], H2 as [? ?], H3 as [? ?], H4 as [? ?].
  simpl in *. split_and!; try done; try congruence.
  split; simpl; congruence.
Qed.

(** X8: [Clear] (and the destructor, which calls it) waits for the
    holders of every resident value: in a single thread it does not
    return as long as a handle holds a resident value. *)
Theorem Clear_waits_for_handles s e :
  reachable s → e ∈ m_T1Queue s ++ m_T2Queue s → pinned s e → Clear s = Hang.
Proof. intros Hwf%reachable_wf. by apply Clear_pinned. Qed.

(** X9: when the cache is the only holder of every resident value,
    [Clear] returns; the queues, the history lists and the two indexes
    are then empty, every node they held is freed, p, q, nS, nL, the
    used memory and the two list counters are 0, the limits are those
    given to the constructor, the cache is not full, and no row of the
    usage map has been added or raised. *)
Theorem Clear_empties_the_cache s :
  reachable s → (∀ e, e ∈ m_T1Queue s ++ m_T2Queue s → sole_holder s e) →
  ∃ s', Clear s = Ret s' ∧
    m_T1Queue s' = [] ∧ m_T2Queue s' = [] ∧ m_B1List s' = [] ∧ m_B2List s' = [] ∧
    m_T1T2map s' = ∅ ∧ m_B1B2map s' = ∅ ∧
    m_B1ListSize s' = 0 ∧ m_B2ListSize s' = 0 ∧
    m_p s' = 0 ∧ m_q s' = 0 ∧ m_numShort s' = 0 ∧ m_numLong s' = 0 ∧ m_usedMemory s' = 0 ∧
    same_limits s s' ∧ IsFull s' = false ∧
    (∀ e, e ∈ m_T1Queue s ++ m_T2Queue s ++ m_B1List s ++ m_B2List s → store s' !! e = None) ∧
    (∀ id n, m_usage s' !! id = Some n → m_usage s !! id = Some n).
Proof.
  intros Hr Hsole. pose proof (reachable_wf s Hr) as Hwf.
  destruct (Clear_sole s Hwf Hsole) as (s' & Hrun & Hfree & Hu).
  destruct (Clear_fields s s' Hrun)
    as (HT1 & HT2 & HB1 & HB2 & HR & HG & HB1s & HB2s & Hp & Hq & HnS & HnL & Hmem & Hlim).
  exists s'. split_and!; try done.
  destruct (reachable_limits s Hr) as (HN & HM & _). destruct Hlim as [HN' HM'].
  unfold IsFull. rewrite HT1, HT2, Hmem, HN', HM'. unfold size_of. simpl.
  destruct (Z.eqb_spec (m_maxNumElements s) 0) as [HN0|HN0],
    (Z.eqb_spec (m_maxUsedMemory s) 0) as [HM0|HM0]; simpl; rewrite ?Z.geb_leb;
    rewrite ?orb_false_r; try done;
    repeat match goal with
    | |- context [?a <=? ?b] =>
        replace (a <=? b) with false by (symmetry; apply Z.leb_gt; lia)
    end; done.
Qed.

(** ** Demotion *)

Lemma DecUsage_dropped s key value :
  (∀ n, m_usage s !! usage_id key value = Some n → n ≤ 1) →
  ∃ b, DecUsage key value true s = Ret (b, dropped key value s).
Proof.
  intros Hun. unfold DecUsage, dropped.
  destruct (m_usage s !! usage_id key value) as [n|] eqn:Hn; [|by eexists].
  specialize (Hun n eq_refl). replace (1 <? n) with false by (symmetry; apply Z.ltb_ge; lia).
  simpl. destruct (to_uint (n - 1) =? 0); by eexists.
Qed.

Lemma scan_unpinned_first q : ∀ i s,
  (∀ e, e ∈ q → is_Some (store s !! e)) →
  ∃ j s', scan_unpinned q i s = Ret ((i + j)%nat, s') ∧ flagged s s' ∧ first_unpinned s q j ∧
    ((∀ e el, e ∈ q → store s !! e = Some el → is_Some (m_usage s !! row_of el)) → s' = s).
Proof.
  induction q as [|e q IH]; intros i s Hq; simpl.
  - exists 0%nat, s. rewrite Nat.add_0_r. split_and!; [done|by destruct s| |done].
    split_and!; [intros; lia|done|simpl; lia].
  - destruct (Hq e) as [el Hel]; [set_solver|]. rewrite (deref_Ret _ _ _ Hel). simpl.
    unfold GetUsage. fold (row_of el).
    destruct (m_usage s !! row_of el) as [n|] eqn:Hn.
    + destruct (1 <? n) eqn:Hlt.
      * destruct (IH (S i) s) as (j & s' & -> & Hs' & (Hp & Hle & Hj) & Hsame);
          [intros; apply Hq; set_solver|].
        exists (S j), s'. replace (i + S j)%nat with (S i + j)%nat by lia.
        split_and!; try done; [split_and!|].
        -- intros [|i'] e' Hi' He'; simpl in He'.
           ++ injection He' as <-. exists el, n. split_and!; try done. lia.
           ++ apply (Hp i'); [lia|done].
        -- simpl. lia.
        -- simpl. intros Hlt'. apply Hj. lia.
        -- intros Hrows. apply Hsame. intros e' el' He'. apply Hrows. set_solver.
      * exists 0%nat, s. rewrite Nat.add_0_r. split_and!; [done|by destruct s| |done].
        split_and!; [intros; lia|simpl; lia|].
        intros _. exists e, el. split_and!; try done.
        intros n' Hn'. fold (row_of el) in Hn'. assert (n' = n) as -> by congruence. lia.
    + simpl. exists 0%nat, (set_assert_failed true s). rewrite Nat.add_0_r.
      split_and!; [done|done| |].
      * split_and!; [intros; lia|simpl; lia|].
        intros _. exists e, el. split_and!; try done.
        intros n' Hn'. fold (row_of el) in Hn'. congruence.
      * intros Hrows. destruct (Hrows e el) as [? ?]; [set_solver|done|congruence].
Qed.

Lemma demote_T1_exact key s j e el :
  wf (Some key) s → m_T1Queue s !! j = Some e → store s !! e = Some el → unpinned s el →
  demote_T1 key j s = Ret (demoted true j e el s).
Proof.
  intros Hwf Hj Hel Hun. unfold demote_T1. rewrite Hj.
  assert (e ∈ m_T1Queue s) as Hin by (by eapply list_elem_of_lookup_2).
  destruct (wf_T1 _ _ Hwf e Hin) as (el' & Hel' & Hf & _ & HR).
  assert (el' = el) as -> by congruence.
  pose proof (wf_resident_key _ _ _ _ _ Hwf (wf_T1 _ _ Hwf e Hin) Hel) as Hp.
  assert (m_B1B2map s !! pageKey el = None) as HG0.
  { destruct (m_B1B2map s !! pageKey el) eqn:HG0; [|done]. exfalso. apply Hp.
    eapply wf_apart; eauto. }
  rewrite deref_Ret with (el := el) by done. simpl.
  destruct (decide (pageKey el = key)) as [Heq|Hne]; [congruence|].
  unfold demote_tail, demoted, B1B2map_insert.
  destruct (longBit el); simpl; rewrite HR, bool_decide_true by eauto; simpl; rewrite HG0;
    match goal with |- context [DecUsage ?k ?v true ?s0] =>
      destruct (DecUsage_dropped s0 k v) as (b & ->); [exact Hun|] end;
    simpl; unfold dropped; simpl; destruct (m_usage s !! _) as [n|]; simpl;
    try destruct (to_uint (n - 1) =? 0); simpl; by rewrite HR.
Qed.

Lemma demote_T2_exact key s j e el :
  wf (Some key) s → m_T2Queue s !! j = Some e → store s !! e = Some el → unpinned s el →
  demote_T2 key j s = Ret (demoted false j e el s).
Proof.
  intros Hwf Hj Hel Hun. unfold demote_T2. rewrite Hj.
  assert (e ∈ m_T2Queue s) as Hin by (by eapply list_elem_of_lookup_2).
  destruct (wf_T2 _ _ Hwf e Hin) as (el' & Hel' & Hf & _ & HR).
  assert (el' = el) as -> by congruence.
  pose proof (wf_resident_key _ _ _ _ _ Hwf (wf_T2 _ _ Hwf e Hin) Hel) as Hp.
  assert (m_B1B2map s !! pageKey el = None) as HG0.
  { destruct (m_B1B2map s !! pageKey el) eqn:HG0; [|done]. exfalso. apply Hp.
    eapply wf_apart; eauto. }
  rewrite deref_Ret with (el := el) by done. simpl.
  destruct (decide (pageKey el = key)) as [Heq|Hne]; [congruence|].
  unfold demote_tail, demoted, B1B2map_insert.
  simpl; rewrite HR, bool_decide_true by eauto; simpl; rewrite HG0;
    match goal with |- context [DecUsage ?k ?v true ?s0] =>
      destruct (DecUsage_dropped s0 k v) as (b & ->); [exact Hun|] end;
    simpl; unfold dropped; simpl; destruct (m_usage s !! _) as [n|]; simpl;
    try destruct (to_uint (n - 1) =? 0); simpl; by rewrite HR.
Qed.

Lemma flagged_bookkeeping s s' : flagged s s' → bookkeeping s s'.
Proof. intros ->. unfold bookkeeping. simpl. by destruct s. Qed.

Lemma flagged_trans s1 s2 s3 : flagged s1 s2 → flagged s2 s3 → flagged s1 s3.
Proof. unfold flagged. intros H1 H2. rewrite H2 at 1. rewrite H1 at 1. by destruct s1. Qed.

Lemma demote_spec key s :
  wf (Some key) s →
  ∃ j1 j2 sa,
    flagged s sa ∧
    ((∀ e el, e ∈ m_T1Queue s ++ m_T2Queue s → store s !! e = Some el →
        is_Some (m_usage s !! row_of el)) → sa = s) ∧
    (if size_of (m_T1Queue s) >=? Max to_uint 1 (m_p s)
     then first_unpinned s (m_T1Queue s) j1 else j1 = length (m_T1Queue s)) ∧
    (if decide (j1 = length (m_T1Queue s))
     then first_unpinned s (m_T2Queue s) j2 else j2 = length (m_T2Queue s)) ∧
    ((∃ e el, m_T1Queue s !! j1 = Some e ∧ store s !! e = Some el ∧ unpinned s el ∧
        demote key s = Ret (demoted true j1 e el sa))
     ∨ (j1 = length (m_T1Queue s) ∧
        ∃ e el, m_T2Queue s !! j2 = Some e ∧ store s !! e = Some el ∧ unpinned s el ∧
          demote key s = Ret (demoted false j2 e el sa))
     ∨ (j1 = length (m_T1Queue s) ∧ j2 = length (m_T2Queue s) ∧ demote key s = Ret sa)).
Proof.
  intros Hwf. unfold demote.
  assert (∀ sa, flagged s sa → wf (Some key) sa) as Hwfa.
  { intros sa Hsa. eapply bookkeeping_wf; [by apply flagged_bookkeeping|done]. }
  assert (∀ e, e ∈ m_T1Queue s → is_Some (store s !! e)) as Hst1.
  { intros e He. destruct (wf_T1 _ _ Hwf e He) as (el & -> & _). eauto. }
  assert (∀ e, e ∈ m_T2Queue s → is_Some (store s !! e)) as Hst2.
  { intros e He. destruct (wf_T2 _ _ Hwf e He) as (el & -> & _). eauto. }
  (* the scan of T2 and what follows it *)
  assert (∀ sa1, flagged s sa1 →
    ∃ j2 sa, flagged s sa ∧ first_unpinned s (m_T2Queue s) j2 ∧
      ((∀ e el, e ∈ m_T2Queue s → store s !! e = Some el →
          is_Some (m_usage s !! row_of el)) → sa = sa1) ∧
      ((∃ e el, m_T2Queue s !! j2 = Some e ∧ store s !! e = Some el ∧ unpinned s el ∧
          ('(demoteT2, s0) ← scan_unpinned (m_T2Queue sa1) 0 sa1;
           if bool_decide (demoteT2 ≠ length (m_T2Queue s)) then demote_T2 key demoteT2 s0
           else Ret s0) = Ret (demoted false j2 e el sa))
       ∨ (j2 = length (m_T2Queue s) ∧
          ('(demoteT2, s0) ← scan_unpinned (m_T2Queue sa1) 0 sa1;
           if bool_decide (demoteT2 ≠ length (m_T2Queue s)) then demote_T2 key demoteT2 s0
           else Ret s0) = Ret sa))) as Hscan2.
  { intros sa1 Hsa1.
    assert (m_T2Queue sa1 = m_T2Queue s) as -> by (by rewrite Hsa1).
    destruct (scan_unpinned_first (m_T2Queue s) 0 sa1) as (j2 & sa & -> & Hsa & Hfirst & Hsame).
    { intros e He. rewrite Hsa1. by apply Hst2. }
    rewrite Hsa1 in Hsame.
    change (((∀ e el, e ∈ m_T2Queue s → store s !! e = Some el →
               is_Some (m_usage s !! row_of el)) → sa = set_assert_failed (assert_failed sa1) s))
      in Hsame. rewrite <-Hsa1 in Hsame.
    rewrite Hsa1 in Hfirst. change (first_unpinned s (m_T2Queue s) j2) in Hfirst.
    pose proof (flagged_trans _ _ _ Hsa1 Hsa) as Hsa'.
    exists j2, sa. split_and!; try done. rewrite bind_Ret_l. cbv beta iota. simpl.
    destruct Hfirst as (_ & Hle & Hj2).
    destruct (decide (j2 = length (m_T2Queue s))) as [->|Hne].
    - right. by rewrite bool_decide_false by (intros ?; done).
    - left. rewrite bool_decide_true by done.
      destruct Hj2 as (e & el & Hje & Hel & Hun); [lia|]. exists e, el. split_and!; try done.
      apply demote_T2_exact; [by apply Hwfa|by rewrite Hsa'|by rewrite Hsa'|].
      rewrite Hsa'. exact Hun. }
  destruct (size_of (m_T1Queue s) >=? Max to_uint 1 (m_p s)).
  - destruct (scan_unpinned_first (m_T1Queue s) 0 s Hst1)
      as (j1 & sa1 & -> & Hsa1 & Hfirst & Hsame1).
    rewrite bind_Ret_l. cbv beta iota. simpl.
    destruct (decide (j1 = length (m_T1Queue s))) as [Hend|Hend].
    + rewrite (bool_decide_true (j1 = _)) by done.
      rewrite (bool_decide_false (j1 ≠ _)) by (intros ?; done).
      destruct (Hscan2 sa1 Hsa1) as (j2 & sa & Hsa & Hfirst2 & Hsame2 & Hres).
      exists j1, j2, sa. rewrite decide_True by done. split_and!; try done.
      { intros Hrows. rewrite Hsame2, Hsame1; [done| |]; intros e el He; apply Hrows; set_solver. }
      right.
      destruct Hres as [(e & el & ? & ? & ? & Hrun)|[? Hrun]]; [left|right].
      * split; [done|]. by exists e, el.
      * by split_and!.
    + rewrite (bool_decide_false (j1 = _)) by done. rewrite bind_Ret_l. cbv beta iota.
      rewrite (bool_decide_true (j1 ≠ _)) by done.
      exists j1, (length (m_T2Queue s)), sa1. rewrite decide_False by done.
      split_and!; try done.
      { intros Hrows. apply Hsame1. intros e el He; apply Hrows; set_solver. }
      left.
      destruct Hfirst as (_ & Hle & Hj1). destruct Hj1 as (e & el & Hje & Hel & Hun); [lia|].
      exists e, el. split_and!; try done.
      apply demote_T1_exact; [by apply Hwfa|by rewrite Hsa1|by rewrite Hsa1|].
      rewrite Hsa1. exact Hun.
  - rewrite bind_Ret_l. cbv beta iota. rewrite (bool_decide_true (_ = _)) by done.
    rewrite (bool_decide_false (_ ≠ _)) by (intros ?; done).
    destruct (Hscan2 s) as (j2 & sa & Hsa & Hfirst2 & Hsame2 & Hres); [by destruct s|].
    exists (length (m_T1Queue s)), j2, sa. rewrite decide_True by done.
    split_and!; try done.
    { intros Hrows. apply Hsame2. intros e el He; apply Hrows; set_solver. }
    right.
    destruct Hres as [(e & el & ? & ? & ? & Hrun)|[? Hrun]]; [left|right].
    * split; [done|]. by exists e, el.
    * by split_and!.
Qed.

(** ** What the sweeps leave alone *)

Lemma while_invariant {S : Type} (R : S → S → Prop) (cond : S → res bool)
    (body : S → res S) :
  (∀ x, R x x) → (∀ x y z, R x y → R y z → R x z) →
  (∀ x x', cond x = Ret true → body x = Ret x' → R x x') →
  ∀ fuel x x', while fuel cond body x = Ret x' → R x x'.
Proof.
  intros Hrefl Htrans Hbody. induction fuel as [|fuel IH]; intros x x'; simpl; [done|].
  intros ([|] & Hc & Hrest)%bind_Ret_inv.
  - apply bind_Ret_inv in Hrest as (x1 & Hb & Hrest). eauto.
  - injection Hrest as <-. done.
Qed.

Lemma modify_values s e f s' :
  (∀ el, pageKey (f el) = pageKey el ∧ page (f el) = page el) →
  modify e f s = Ret s' → values s' = values s ∧ bookkeeping (set_store (store s') s) s'.
Proof.
  intros Hf. unfold modify. destruct (store s !! e) as [el|] eqn:Hel; [|done].
  intros [= <-]. split; [|by destruct s]. unfold values. simpl. rewrite fmap_insert.
  apply insert_id. rewrite lookup_fmap, Hel. simpl. destruct (Hf el) as [-> ->]. done.
Qed.

Lemma T2_sweep_body_values c s s' : T2_sweep_body c s = Ret s' → values s' = values s.
Proof.
  unfold T2_sweep_body. destruct (m_T2Queue s) as [|front rest]; [done|].
  intros (s1 & [H1 _]%modify_values & (s2 & [H2 _]%modify_values & Hq)%bind_Ret_inv)%bind_Ret_inv;
    try done.
  assert (values s' = values s2) as ->; [|by rewrite H2, H1].
  destruct (q_grows c s2); by injection Hq as <-.
Qed.

Lemma T1_sweep_body_values c s s' : T1_sweep_body c s = Ret s' → values s' = values s.
Proof.
  unfold T1_sweep_body. destruct (m_T1Queue s) as [|element rest]; [done|].
  intros (el & _ & Hrest)%bind_Ret_inv. destruct (referenceBit el).
  - apply bind_Ret_inv in Hrest as (s1 & [H1 _]%modify_values & Hrest); [|done].
    destruct (_ && _).
    + apply bind_Ret_inv in Hrest as (s2 & [H2 _]%modify_values & [= <-]); [|done].
      unfold values in *. simpl in *. by rewrite H2, H1.
    + by injection Hrest as <-.
  - apply bind_Ret_inv in Hrest as (s1 & [H1 _]%modify_values
                                    & (s2 & [H2 _]%modify_values & [= <-])%bind_Ret_inv);
      try done.
    unfold values in *. simpl in *. by rewrite H2, H1.
Qed.

Lemma sweeps_values c s s1 s2 :
  while (S (length (m_T2Queue s))) T2_sweep_cond (T2_sweep_body c) s = Ret s1 →
  while (S (2 * length (m_T1Queue s1))) T1_sweep_cond (T1_sweep_body c) s1 = Ret s2 →
  values s2 = values s.
Proof.
  intros H1 H2.
  apply (while_invariant (λ x x', values x' = values x)) in H1, H2; try done;
    try (intros; congruence); try (intros; by eapply T2_sweep_body_values);
    try (intros; by eapply T1_sweep_body_values).
Qed.

(** ** The steps of [replace] and [install] *)

Lemma replace_phases key c s s' :
  wf (Some key) s → replace key c s = Ret s' →
  ∃ s2 s3,
    wf (Some key) s2 ∧ sweep_frame s s2 ∧ values s2 = values s ∧
    T1_sweep_cond s2 = Ret false ∧
    demote key s2 = Ret s3 ∧ wf (Some key) s3 ∧
    history_replace key c s3 = Ret s' ∧ wf (Some key) s'.
Proof.
  intros Hwf. unfold replace.
  destruct (T2_sweep_wf (Some key) c s Hwf) as (s1 & Hs1 & Hwf1 & Hfr1).
  rewrite Hs1, bind_Ret_l.
  destruct (T1_sweep_wf (Some key) c s1 Hwf1) as (s2 & Hs2 & Hwf2 & Hfr2 & Hcond).
  rewrite Hs2, bind_Ret_l.
  destruct (demote_wf key s2 Hwf2) as (s3 & Hs3 & Hwf3 & _).
  rewrite Hs3, bind_Ret_l. intros Hh.
  exists s2, s3. split_and!; try done.
  - by eapply sweep_frame_trans.
  - by eapply sweeps_values.
  - by eapply history_replace_wf.
Qed.

Lemma history_replace_store pend key c s s' :
  wf pend s → history_replace key c s = Ret s' →
  released s' = released s ∧ assert_failed s' = assert_failed s ∧
  ∀ e, e ∈ m_T1Queue s ++ m_T2Queue s → store s' !! e = store s !! e.
Proof.
  intros Hwf Hrun. unfold history_replace in Hrun.
  destruct (history_full key c s); [|by injection Hrun as <-].
  assert (∀ b x e, e ∈ m_T1Queue s ++ m_T2Queue s → last (ghosts s b) = Some x → x ≠ e) as Hne.
  { intros b x e He%elem_of_app Hx ->. apply last_Some in Hx as (l & Hx).
    destruct (wf_resident _ _ _ Hwf He) as (b' & Hb').
    eapply (wf_resident_ghost_apart _ _ b' b e); [done..|].
    apply (wf_ghosts pend); [done|]. rewrite Hx. set_solver. }
  destruct (history_from_B1 s).
  - destruct (last (m_B1List s)) as [x|] eqn:Hx; [|done].
    apply bind_Ret_inv in Hrun as (el & _ & Hdel). unfold delete_element in Hdel. simpl in Hdel.
    destruct (store s !! x); [|done]. injection Hdel as <-. simpl. split_and!; [done|done|].
    intros e He. apply lookup_delete_ne. by apply (Hne true).
  - destruct (0 <? m_B2ListSize s); [|by injection Hrun as <-].
    destruct (last (m_B2List s)) as [x|] eqn:Hx; [|done].
    apply bind_Ret_inv in Hrun as (el & _ & Hdel). unfold delete_element in Hdel. simpl in Hdel.
    destruct (store s !! x); [|done]. injection Hdel as <-. simpl. split_and!; [done|done|].
    intros e He. apply lookup_delete_ne. by apply (Hne false).
Qed.

Lemma install_store key value c s s' :
  wf (Some key) s → install key value c s = Ret s' →
  ∀ e, e ∈ m_T1Queue s ++ m_T2Queue s → store s' !! e = store s !! e.
Proof.
  intros Hwf Hrun e He%elem_of_app. unfold install in Hrun.
  destruct (wf_resident _ _ _ Hwf He) as (b & Hb).
  destruct (m_B1B2map s !! key) as [g|] eqn:HG.
  - destruct (wf_G_ghosts _ _ _ _ Hwf HG) as (elg & bg & Helg & _ & _ & Hg).
    assert (g ≠ e) as Hne.
    { intros ->. eapply (wf_resident_ghost_apart _ _ b bg e); [done..|].
      by apply (wf_ghosts (Some key)). }
    assert (∀ f s0 s1, modify g f s0 = Ret s1 → store s1 !! e = store s0 !! e) as Hmod.
    { intros f s0 s1. unfold modify. destruct (store s0 !! g); [|done].
      intros [= <-]. simpl. by apply lookup_insert_ne. }
    apply bind_Ret_inv in Hrun as (el & _ & Hrun).
    destruct (firstList el).
    + unfold install_from_B1 in Hrun.
      apply bind_Ret_inv in Hrun as (s1 & H1%Hmod & (s2 & H2%Hmod & (s3 & H3%Hmod & Hrun
                                      )%bind_Ret_inv)%bind_Ret_inv).
      simpl in *. destruct (list_erase g (m_B1List s3)); [|done]. injection Hrun as <-.
      simpl. congruence.
    + unfold install_from_B2 in Hrun.
      apply bind_Ret_inv in Hrun as (s1 & H1%Hmod & (s2 & H2%Hmod & (s3 & H3%Hmod &
                                      (s4 & H4%Hmod & Hrun)%bind_Ret_inv
                                      )%bind_Ret_inv)%bind_Ret_inv).
      simpl in *. destruct (list_erase g (m_B2List s4)); [|done].
      destruct (q_grows _ _); injection Hrun as <-; simpl; congruence.
  - unfold install_new, new_element in Hrun. injection Hrun as <-. simpl.
    apply lookup_insert_ne. intros Heq.
    destruct (wf_resident_stored _ _ _ _ Hwf Hb) as [_ Hst].
    apply (wf_next _ _ Hwf) in Hst. lia.
Qed.

(** ** Values that are held *)

Lemma Handle_new_released key value s h s' :
  Handle_new key value s = Ret (h, s') → released s' = released s.
Proof.
  unfold Handle_new, Handle_IncUsage, pins. simpl.
  destruct (negb _); simpl; intros [= _ <-]; [|done].
  unfold IncUsage. destruct (m_usage s !! _); done.
Qed.

Lemma values_lookup s e el :
  store s !! e = Some el → values s !! e = Some (pageKey el, page el).
Proof. intros Hel. unfold values. by rewrite lookup_fmap, Hel. Qed.

Lemma values_lookup_inv s e k v :
  values s !! e = Some (k, v) → ∃ el, store s !! e = Some el ∧ pageKey el = k ∧ page el = v.
Proof.
  unfold values. rewrite lookup_fmap. destruct (store s !! e) as [el|]; [|done].
  intros [= <- <-]. eauto.
Qed.

Lemma replace_keeps_pinned key c s s' k e el n :
  wf (Some key) s → replace key c s = Ret s' → k ≠ key →
  m_T1T2map s !! k = Some e → store s !! e = Some el →
  m_usage s !! row_of el = Some n → 1 < n →
  m_T1T2map s' !! k = Some e ∧
  (∃ el', store s' !! e = Some el' ∧ pageKey el' = pageKey el ∧ page el' = page el) ∧
  (released s' = released s ∨ ∃ k' v', released s' = released s ++ [(k', v')] ∧ k' ≠ k).
Proof.
  intros Hwf Hrun Hk HR Hel Hn Hpin.
  destruct (replace_phases key c s s' Hwf Hrun)
    as (s2 & s3 & Hwf2 & Hfr & Hval & _ & Hdem & Hwf3 & Hhist & Hwf').
  destruct Hfr as (HR2 & _ & _ & _ & _ & _ & Hu2 & Hrel2 & _).
  assert (pageKey el = k) as Hkey.
  { destruct (wf_R _ _ Hwf k e HR) as (el0 & ? & ? & _); [congruence|]. congruence. }
  assert (∃ el2, store s2 !! e = Some el2 ∧ pageKey el2 = pageKey el ∧ page el2 = page el)
    as (el2 & Hel2 & Hk2 & Hp2).
  { apply values_lookup_inv. rewrite Hval. by apply values_lookup. }
  assert (row_of el2 = row_of el) as Hrow by (unfold row_of; congruence).
  (* the demotion *)
  assert (m_T1T2map s3 !! k = Some e ∧ store s3 = store s2 ∧
          (released s3 = released s2
           ∨ ∃ k' v', released s3 = released s2 ++ [(k', v')] ∧ k' ≠ k)) as (HR3 & Hst3 & Hrel3).
  { destruct (demote_spec key s2 Hwf2) as (j1 & j2 & sa & Hsa & _ & _ & _ & Hcases).
    assert (∀ b j e0 el0, queue s2 b !! j = Some e0 → store s2 !! e0 = Some el0 →
              unpinned s2 el0 →
              m_T1T2map (demoted b j e0 el0 sa) !! k = Some e ∧
              store (demoted b j e0 el0 sa) = store s2 ∧
              (released (demoted b j e0 el0 sa) = released s2
               ∨ ∃ k' v', released (demoted b j e0 el0 sa) = released s2 ++ [(k', v')]
                          ∧ k' ≠ k)) as Hvictim.
    { intros b j e0 el0 Hj Hel0 Hun.
      assert (pageKey el0 ≠ k) as Hne.
      { intros Heq. apply list_elem_of_lookup_2 in Hj.
        destruct (wf_queue _ _ _ _ Hwf2 Hj) as (el0' & Hel0' & _ & _ & HR0).
        assert (el0' = el0) as -> by congruence.
        assert (e0 = e) as -> by (rewrite Heq, HR2, HR in HR0; congruence).
        assert (el0 = el2) as -> by congruence.
        specialize (Hun n). unfold row_of in *. rewrite Hk2, Hp2, Hu2 in Hun.
        specialize (Hun Hn). lia. }
      rewrite Hsa. unfold demoted, dropped.
      destruct b; simpl; destruct (longBit el0); simpl;
        destruct (m_usage s2 !! _) as [m|]; simpl; try destruct (to_uint (m - 1) =? 0);
        simpl; rewrite lookup_delete_ne, HR2 by done; split_and!; try done; eauto. }
    destruct Hcases as [(e0 & el0 & Hj & Hel0 & Hun & Hrun3)
                       |[(_ & e0 & el0 & Hj & Hel0 & Hun & Hrun3)|(_ & _ & Hrun3)]];
      rewrite Hrun3 in Hdem; injection Hdem as <-.
    - by apply (Hvictim true j1).
    - by apply (Hvictim false j2).
    - rewrite Hsa. simpl. rewrite HR2. split_and!; try done. by left. }
  destruct (history_replace_wf _ _ _ _ _ Hwf3 Hhist) as (_ & Hfr4 & _).
  destruct Hfr4 as (_ & _ & HR4 & _).
  destruct (history_replace_store _ _ _ _ _ Hwf3 Hhist) as (Hrel4 & _ & Hst4).
  split_and!.
  - by rewrite HR4.
  - exists el2. rewrite Hst4, Hst3; [done|].
    destruct (wf_R _ _ Hwf3 k e HR3) as (? & _ & _ & Hin); [congruence|].
    by apply elem_of_app.
  - rewrite Hrel4. by rewrite Hrel2 in Hrel3.
Qed.

Lemma InternalInsert_keeps_pinned s key value acquired k e el n :
  wf None s → residents_fit s →
  m_T1T2map s !! key = None →
  m_T1T2map s !! k = Some e → store s !! e = Some el →
  m_usage s !! row_of el = Some n → 1 < n < 4294967295 →
  ∃ h s' el',
    InternalInsert key value acquired s = Ret (h, s') ∧
    m_T1T2map s' !! k = Some e ∧ store s' !! e = Some el' ∧
    pageKey el' = k ∧ page el' = page el ∧
    (released s' = released s ∨ ∃ k' v', released s' = released s ++ [(k', v')] ∧ k' ≠ k).
Proof.
  intros Hwf Hfit HRkey HR Hel Hn Hpin.
  assert (k ≠ key) as Hk by congruence.
  assert (pageKey el = k) as Hkey.
  { destruct (wf_R _ _ Hwf k e HR) as (el0 & ? & ? & _); [done|]. congruence. }
  destruct (InternalInsert_miss_spec key value acquired s Hwf Hfit HRkey)
    as (s1 & s2 & s' & Hs1 & Hwf1 & Hs2 & Hwf2 & Hinst & Hbk & Hwf' & Hrun).
  pose proof (insert_start_wf key value acquired s Hwf HRkey) as Hwf0.
  set (s0 := insert_start key value acquired s) in *.
  assert (m_T1T2map s0 !! k = Some e ∧ store s0 = store s ∧ released s0 = released s ∧
          ∃ n0, m_usage s0 !! row_of el = Some n0 ∧ 1 < n0) as (HR0 & Hst0 & Hrel0 & n0 & Hn0 & Hpin0).
  { unfold s0, insert_start, IncUsage. simpl.
    destruct (m_usage s !! usage_id key _) as [m|] eqn:Hm; simpl;
      rewrite lookup_insert_ne by done; split_and!; try done.
    - destruct (decide (usage_id key (inserted_value value acquired) = row_of el)) as [Heq|Hne].
      + rewrite Heq, lookup_insert_eq. rewrite Heq, Hn in Hm. injection Hm as <-.
        eexists. split; [done|]. wrap_lia.
      + rewrite lookup_insert_ne by done. eauto with lia.
    - destruct (decide (usage_id key (inserted_value value acquired) = row_of el)) as [Heq|Hne].
      + rewrite Heq, Hn in Hm. done.
      + rewrite lookup_insert_ne by done. eauto with lia. }
  assert (m_T1T2map s1 !! k = Some e ∧
          (∃ el1, store s1 !! e = Some el1 ∧ pageKey el1 = pageKey el ∧ page el1 = page el) ∧
          (released s1 = released s
           ∨ ∃ k' v', released s1 = released s ++ [(k', v')] ∧ k' ≠ k))
    as (HR1 & (el1 & Hel1 & Hk1 & Hp1) & Hrel1).
  { destruct (IsFull s).
    - rewrite <-Hrel0. eapply (replace_keeps_pinned key _ s0); try done. by rewrite Hst0.
    - injection Hs1 as <-. rewrite Hst0, Hrel0. split_and!; eauto. }
  destruct Hinst as (e' & el' & _ & _ & _ & _ & _ & _ & _ & _ & HR2 & _ & Hrel2 & _).
  apply bookkeeping_containers in Hbk as (_ & _ & _ & _ & HR' & _ & Hst').
  exists (mkHandle true (Some key) (inserted_value value acquired)), s', el1.
  split_and!; try done.
  - rewrite HR'. simpl. rewrite HR2. by rewrite lookup_insert_ne.
  - rewrite Hst'. simpl. rewrite (install_store _ _ _ _ _ Hwf1 Hs2); [done|].
    destruct (wf_R _ _ Hwf1 k e HR1) as (? & _ & _ & Hin); [congruence|]. by apply elem_of_app.
  - congruence.
  - pose proof Hrun as Hrun'. rewrite InternalInsert_miss in Hrun' by done. cbv zeta in Hrun'.
    destruct (insert_start_fields key value acquired s) as (HF & HC & _).
    fold s0 in Hrun', HF, HC. rewrite HF, HC, Hs1, bind_Ret_l, Hs2, bind_Ret_l in Hrun'.
    apply Handle_new_released in Hrun'. simpl in Hrun'. by rewrite Hrun', Hrel2.
Qed.

(** X10: an insertion does not evict a value that somebody holds: a
    resident key whose usage row counts a holder besides the cache is
    still resident after the insertion of another key, in the same node
    and with the same value, and the one value the insertion may have
    released is not its own. *)
Theorem held_values_are_not_evicted s key value acquired k e el n :
  reachable s → residents_fit s →
  m_T1T2map s !! key = None →
  m_T1T2map s !! k = Some e → store s !! e = Some el →
  m_usage s !! row_of el = Some n → 1 < n < 4294967295 →
  ∃ h s' el',
    InternalInsert key value acquired s = Ret (h, s') ∧
    m_T1T2map s' !! k = Some e ∧ store s' !! e = Some el' ∧
    pageKey el' = k ∧ page el' = page el ∧
    (released s' = released s ∨ ∃ k' v', released s' = released s ++ [(k', v')] ∧ k' ≠ k).
Proof. intros Hwf%reachable_wf. by apply InternalInsert_keeps_pinned. Qed.

(** ** The loop of the test program *)





#[local] Arguments demoted : simpl never.

Section RowPerKey.
(** The rows of two keys are apart: the hash of the instantiation does
    not take a pair of one key to the row of a pair of another key. *)
Hypothesis rows_apart : ∀ k v k' v', usage_id k v = usage_id k' v' → k = k'.













End RowPerKey.

(** ** The soft limit *)

Lemma first_unpinned_all_pinned s q j :
  (∀ e, e ∈ q → pinned s e) → first_unpinned s q j → j = length q.
Proof.
  intros Hall (_ & Hle & Hj). destruct (decide (j = length q)) as [|Hne]; [done|].
  destruct Hj as (e & el & Hj & Hel & Hun); [lia|].
  destruct (Hall e) as (el' & n & Hel' & Hn & Hlt); [by eapply list_elem_of_lookup_2|].
  assert (el' = el) as -> by congruence. specialize (Hun n Hn). lia.
Qed.

Lemma pinned_values s s' e :
  values s' = values s → m_usage s' = m_usage s → pinned s e → pinned s' e.
Proof.
  intros Hval Hu (el & n & Hel & Hn & Hlt).
  destruct (values_lookup_inv s' e (pageKey el) (page el)) as (el' & Hel' & Hk & Hp).
  { rewrite Hval. by apply values_lookup. }
  exists el', n. unfold row_of in *. by rewrite Hk, Hp, Hu.
Qed.

Lemma InternalInsert_all_pinned s key value acquired :
  wf None s → residents_fit s → m_T1T2map s !! key = None →
  (∀ e, e ∈ m_T1Queue s ++ m_T2Queue s →
     ∃ el n, store s !! e = Some el ∧ m_usage s !! row_of el = Some n ∧ 1 < n < 4294967295) →
  ∃ h s', InternalInsert key value acquired s = Ret (h, s') ∧
    (length (m_T1Queue s') + length (m_T2Queue s')
     = length (m_T1Queue s) + length (m_T2Queue s) + 1)%nat ∧
    released s' = released s.
Proof.
  intros Hwf Hfit HR Hall.
  destruct (InternalInsert_miss_spec key value acquired s Hwf Hfit HR)
    as (s1 & s2 & s' & Hs1 & Hwf1 & Hs2 & Hwf2 & Hinst & Hbk & Hwf' & Hrun).
  pose proof (insert_start_wf key value acquired s Hwf HR) as Hwf0.
  set (s0 := insert_start key value acquired s) in *.
  assert (m_T1Queue s0 = m_T1Queue s ∧ m_T2Queue s0 = m_T2Queue s ∧ released s0 = released s ∧
          ∀ e, e ∈ m_T1Queue s0 ++ m_T2Queue s0 → pinned s0 e) as (HT1 & HT2 & Hrel0 & Hall0).
  { unfold s0, insert_start, IncUsage. simpl.
    destruct (m_usage s !! usage_id key _) as [m|] eqn:Hm; simpl; split_and!; try done;
      intros e He; destruct (Hall e He) as (el & n & Hel & Hn & Hlt); unfold pinned; simpl.
    - destruct (decide (usage_id key (inserted_value value acquired) = row_of el)) as [Heq|Hne].
      + exists el, (to_uint (m + 1)). rewrite Heq, lookup_insert_eq.
        rewrite Heq, Hn in Hm. injection Hm as <-. split_and!; try done. wrap_lia.
      + exists el, n. rewrite lookup_insert_ne by done. split_and!; try done. lia.
    - destruct (decide (usage_id key (inserted_value value acquired) = row_of el)) as [Heq|Hne].
      + rewrite Heq, Hn in Hm. done.
      + exists el, n. rewrite lookup_insert_ne by done. split_and!; try done. lia. }
  assert ((length (m_T1Queue s1) + length (m_T2Queue s1)
           = length (m_T1Queue s) + length (m_T2Queue s))%nat ∧ released s1 = released s)
    as [Hlen1 Hrel1].
  { destruct (IsFull s); [|injection Hs1 as <-; by rewrite HT1, HT2].
    destruct (replace_phases key (capacity s) s0 s1 Hwf0 Hs1)
      as (sa & sb & Hwfa & Hfra & Hvala & _ & Hdem & Hwfb & Hhist & _).
    destruct Hfra as (_ & _ & _ & _ & _ & _ & Hua & Hrela & _ & _ & _ & _ & _ & _ & Hperma).
    assert (∀ e, e ∈ m_T1Queue sa ++ m_T2Queue sa → pinned sa e) as Halla.
    { intros e He. rewrite Hperma in He. eapply pinned_values; [done|done|by apply Hall0]. }
    destruct (demote_spec key sa Hwfa) as (j1 & j2 & sa' & Hsa' & _ & Hj1 & Hj2 & Hcases).
    assert (j1 = length (m_T1Queue sa)) as ->.
    { destruct (_ >=? _); [|done]. eapply first_unpinned_all_pinned; [|done].
      intros e He. apply Halla. set_solver. }
    rewrite decide_True in Hj2 by done.
    assert (j2 = length (m_T2Queue sa)) as ->.
    { eapply first_unpinned_all_pinned; [|done]. intros e He. apply Halla. set_solver. }
    destruct Hcases as [(e0 & el0 & Hj & _)|[(_ & e0 & el0 & Hj & _)|(_ & _ & Hrun3)]].
    { apply lookup_lt_Some in Hj. lia. }
    { apply lookup_lt_Some in Hj. lia. }
    rewrite Hrun3 in Hdem. injection Hdem as <-.
    destruct (history_replace_wf _ _ _ _ _ Hwfb Hhist) as (_ & (HT1c & HT2c & _) & _).
    destruct (history_replace_store _ _ _ _ _ Hwfb Hhist) as (Hrelc & _).
    apply Permutation_length in Hperma. rewrite !length_app, HT1, HT2 in Hperma.
    rewrite HT1c, HT2c, Hrelc, Hsa'. simpl. split; [lia|congruence]. }
  destruct Hinst as (e & el & HT1' & HT2' & _ & _ & _ & _ & _ & _ & _ & _ & Hrel2 & _).
  exists (mkHandle true (Some key) (inserted_value value acquired)), s'. split; [done|].
  pose proof Hrun as Hrun'. rewrite InternalInsert_miss in Hrun' by done. cbv zeta in Hrun'.
  destruct (insert_start_fields key value acquired s) as (HF & HC & _).
  fold s0 in Hrun', HF, HC. rewrite HF, HC, Hs1, bind_Ret_l, Hs2, bind_Ret_l in Hrun'.
  apply Handle_new_released in Hrun'. simpl in Hrun'.
  apply bookkeeping_containers in Hbk as (-> & -> & _). simpl.
  rewrite HT1', HT2', length_app. simpl. split; [lia|congruence].
Qed.

(** X12: the limit is soft.  When somebody besides the cache holds the
    value of every resident entry, an insertion finds nothing to
    demote: it releases no value and the cache holds one entry more
    than before, full or not. *)
Theorem limit_is_soft_when_all_is_held s key value acquired :
  reachable s → residents_fit s → m_T1T2map s !! key = None →
  (∀ e, e ∈ m_T1Queue s ++ m_T2Queue s →
     ∃ el n, store s !! e = Some el ∧ m_usage s !! row_of el = Some n ∧ 1 < n < 4294967295) →
  ∃ h s', InternalInsert key value acquired s = Ret (h, s') ∧
    (length (m_T1Queue s') + length (m_T2Queue s')
     = length (m_T1Queue s) + length (m_T2Queue s) + 1)%nat ∧
    released s' = released s.
Proof. intros Hwf%reachable_wf. by apply InternalInsert_all_pinned. Qed.

(** X13: the demotion of [InternalInsert] scans T1 from its head for an
    entry that nobody but the cache holds when |T1| >= max(1, p), and
    scans T2 in the same way when it has found none in T1.  The first
    such entry is taken out of its queue and becomes the front of B1
    (from T1) or B2 (from T2); its key leaves the resident index and
    enters the ghost index, nS or nL is lowered according to its
    filter (always nL from T2), the size of its value is taken off the
    used memory and the cache gives up its hold on the value.  When
    both scans reach the end nothing is demoted. *)
Theorem demotion_takes_the_first_unheld_entry key s :
  wf (Some key) s →
  ∃ j1 j2 sa,
    flagged s sa ∧
    ((∀ e el, e ∈ m_T1Queue s ++ m_T2Queue s → store s !! e = Some el →
        is_Some (m_usage s !! row_of el)) → sa = s) ∧
    (if size_of (m_T1Queue s) >=? Max to_uint 1 (m_p s)
     then first_unpinned s (m_T1Queue s) j1 else j1 = length (m_T1Queue s)) ∧
    (if decide (j1 = length (m_T1Queue s))
     then first_unpinned s (m_T2Queue s) j2 else j2 = length (m_T2Queue s)) ∧
    ((∃ e el, m_T1Queue s !! j1 = Some e ∧ store s !! e = Some el ∧ unpinned s el ∧
        demote key s = Ret (demoted true j1 e el sa))
     ∨ (j1 = length (m_T1Queue s) ∧
        ∃ e el, m_T2Queue s !! j2 = Some e ∧ store s !! e = Some el ∧ unpinned s el ∧
          demote key s = Ret (demoted false j2 e el sa))
     ∨ (j1 = length (m_T1Queue s) ∧ j2 = length (m_T2Queue s) ∧ demote key s = Ret sa)).
Proof. apply demote_spec. Qed.

(** ** The T2 sweep and the ghost hit in B2 *)

(** X14: the T2 sweep of an insertion on a full cache tests the
    reference bit of the front of T2; its body moves the front to the
    tail of T1 with the reference bit clear and [firstList] set, and
    then, when |T2| + |B2| + |T1| - nS >= c, sets
    q = min(q + 1, 2c - |T1|), with the lengths after the move.  The
    lengths and 2c - |T1| are in the range of [int] and the sum is not
    negative. *)
Theorem T2_head_sweep c s e rest el :
  m_T2Queue s = e :: rest → store s !! e = Some el →
  let moved := set_store (<[e := set_firstList true (set_referenceBit false el)]> (store s))
                 (set_T2Queue rest (set_T1Queue (m_T1Queue s ++ [e]) s)) in
  let long := size_of rest + m_B2ListSize s + (size_of (m_T1Queue s) + 1) - m_numShort s in
  size_of rest < 2147483648 → size_of (m_T1Queue s) + 1 < 2147483648 →
  0 ≤ long < 18446744073709551616 →
  -2147483648 ≤ 2 * c - (size_of (m_T1Queue s) + 1) < 2147483648 →
  T2_sweep_cond s = Ret (referenceBit el) ∧
  (∀ fuel, while (S fuel) T2_sweep_cond (T2_sweep_body c) s =
     if referenceBit el
     then s' ← T2_sweep_body c s; while fuel T2_sweep_cond (T2_sweep_body c) s'
     else Ret s) ∧
  T2_sweep_body c s =
    Ret (if c <=? long
         then set_q (Z.min (m_q s + 1) (2 * c - (size_of (m_T1Queue s) + 1))) moved
         else moved).
Proof.
  intros HT2 Hel moved long Hrest HT1 Hlong Hc.
  assert (T2_sweep_cond s = Ret (referenceBit el)) as Hcond.
  { unfold T2_sweep_cond. rewrite HT2, (deref_Ret _ _ _ Hel). done. }
  split_and!; [done|intros fuel; simpl; by rewrite Hcond|].
  unfold T2_sweep_body. rewrite HT2.
  erewrite modify_Ret by (simpl; eassumption). rewrite bind_Ret_l. simpl.
  erewrite modify_Ret by (simpl; apply lookup_insert_eq). rewrite bind_Ret_l. simpl.
  rewrite insert_insert_eq.
  match goal with |- context [q_grows c ?s1] => change s1 with moved end.
  assert (q_grows c moved = (c <=? long)) as ->.
  { unfold q_grows, moved, long. simpl. rewrite Z.geb_leb.
    assert (size_of (m_T1Queue s ++ [e]) = size_of (m_T1Queue s) + 1) as ->.
    { unfold size_of. rewrite length_app. simpl. lia. }
    assert (to_int (size_of rest) = size_of rest) as -> by (unfold size_of in *; wrap_lia).
    assert (to_int (size_of (m_T1Queue s) + 1) = size_of (m_T1Queue s) + 1) as ->
      by (unfold size_of in *; wrap_lia).
    f_equal. unfold long in Hlong. wrap_lia. }
  destruct (c <=? long); [|done]. unfold adapt_q_up.
  assert (Min to_int (m_q moved + 1) (to_size_t (2 * c - size_of (m_T1Queue moved)))
          = Z.min (m_q s + 1) (2 * c - (size_of (m_T1Queue s) + 1))) as ->; [|done].
  assert (size_of (m_T1Queue moved) = size_of (m_T1Queue s) + 1) as ->.
  { unfold moved, size_of. simpl. rewrite length_app. simpl. lia. }
  change (m_q moved) with (m_q s).
  unfold Min. assert (to_int (to_size_t (2 * c - (size_of (m_T1Queue s) + 1)))
                      = 2 * c - (size_of (m_T1Queue s) + 1)) as -> by wrap_lia.
  destruct (_ <? _) eqn:Hlt; lia.
Qed.


End MoreProperties.
(** * The claims *)

Section Claims.
Context {KEY : Type} `{Countable KEY} `{!CacheTraits KEY}.
Implicit Types (s : Cache KEY) (e : ptr) (el : CLOCKElement KEY) (key k : KEY).
Implicit Types (pend : option KEY).

Ltac wrap_lia :=
  unfold to_size_t, to_int, to_uint in *; Z.div_mod_to_equations; lia.

(** ** Nodes that the sweeps do not visit *)





(** ** The demotion adds at most one ghost and takes as many entries *)


(** ** The history does not outgrow the cache *)






(** ** The history replacement, case by case *)


(** ** A ghost of B1 comes back *)



(** C3: starting from a freshly constructed cache, after every complete
    call of any sequence of [FindOrCreate], [IsInCache],
    [InsertIntoCache] and [Clear] calls (and of the copies and releases
    of the handles they return), the counters of Short and Long
    entries add up to the number of resident entries:
    nS + nL = |T1| + |T2|.  [RemoveFromCache] has no instance that
    could be called. *)
Theorem C3_counters_match_queues s :
  reachable s →
  m_numShort s + m_numLong s = size_of (m_T1Queue s) + size_of (m_T2Queue s).
Proof. intros Hr. apply (wf_total _ _ (reachable_wf s Hr)). Qed.

Lemma count_short_long s l :
  (∀ e, e ∈ l → is_Some (store s !! e)) →
  (count (short_at s) l + count (long_at s) l = length l)%nat.
Proof.
  induction l as [|x l IH]; intros Hl; simpl; [done|].
  destruct (Hl x) as [el Hel]; [set_solver|].
  unfold short_at at 1, long_at at 1. rewrite Hel.
  rewrite <-IH by (intros; apply Hl; set_solver). destruct (longBit el); simpl; lia.
Qed.

(** C10: in every reachable state every entry of the T2 queue is Long,
    and the counters are exact: nL is the number of Long entries of
    T1 and T2 and nS the number of Short ones, so the decrement of nL
    that a T2 demotion makes without looking at the filter is the
    right one. *)
Theorem C10_T2_entries_are_Long s :
  reachable s →
  (∀ e, e ∈ m_T2Queue s → ∃ el, store s !! e = Some el ∧ longBit el = true) ∧
  m_numLong s = Z.of_nat (count (long_at s) (m_T1Queue s ++ m_T2Queue s)) ∧
  m_numShort s = Z.of_nat (count (short_at s) (m_T1Queue s ++ m_T2Queue s)).
Proof.
  intros Hwf%reachable_wf. split_and!.
  - intros e He. destruct (wf_T2 _ _ Hwf e He) as (el & Hel & _ & Hlong & _). eauto.
  - apply (wf_numLong _ _ Hwf).
  - pose proof (wf_total _ _ Hwf) as Htot. pose proof (wf_numLong _ _ Hwf) as HnL.
    assert (∀ e, e ∈ m_T1Queue s ++ m_T2Queue s → is_Some (store s !! e)) as Hstored.
    { intros e [He|He]%elem_of_app.
      - destruct (wf_T1 _ _ Hwf e He) as (el & -> & _). eauto.
      - destruct (wf_T2 _ _ Hwf e He) as (el & -> & _). eauto. }
    pose proof (count_short_long s _ Hstored) as Hc.
    rewrite length_app in Hc. unfold size_of in Htot. lia.
Qed.

(** C7: [IsInCache] returns a handle and changes nothing but the usage
    map: no reference bit is set (the store is the same), no list entry
    moves and p, q, nS and nL keep their values.  A second [IsInCache]
    of the same key returns the same handle and again changes the usage
    map only, so the two calls leave the state a single call leaves, up
    to the count of the handles handed out; once the second handle is
    released the state is the one the first call left. *)
Theorem C7_peek_is_idempotent s key :
  reachable s →
  ∃ h s1 s2,
    IsInCache key s = Ret (h, s1) ∧ IsInCache key s1 = Ret (h, s2) ∧
    s1 = set_usage (m_usage s1) s ∧ s2 = set_usage (m_usage s2) s ∧
    ((∀ k n, h_key h = Some k → m_usage s !! usage_id k (h_value h) = Some n →
        0 ≤ n ∧ n + 2 < 4294967296) →
     ∃ h', Handle_Release h s2 = Ret (h', s1)).
Proof.
  intros Hwf%reachable_wf. unfold IsInCache.
  destruct (m_T1T2map s !! key) as [e|] eqn:HR.
  - destruct (wf_R _ _ Hwf key e HR) as (el & Hel & _); [done|].
    rewrite deref_Ret with (el := el) by done. rewrite bind_Ret_l.
    unfold Handle_new, Handle_IncUsage, Handle_Release, pins. simpl.
    destruct (page el =? nullptr)%N eqn:Hnull; simpl.
    + exists (mkHandle true (Some key) (page el)), s, s. rewrite HR.
      rewrite deref_Ret with (el := el) by done. simpl. rewrite Hnull. simpl.
      split_and!; try done; try (by destruct s). eauto.
    + set (id := usage_id key (page el)).
      exists (mkHandle true (Some key) (page el)), (IncUsage key (page el) s),
        (IncUsage key (page el) (IncUsage key (page el) s)).
      assert (∀ t, m_T1T2map (IncUsage key (page el) t) = m_T1T2map t
                   ∧ store (IncUsage key (page el) t) = store t) as Hinc.
      { intros t. unfold IncUsage. destruct (m_usage t !! _); done. }
      destruct (Hinc s) as [-> Hst]. rewrite HR. unfold deref at 1. rewrite Hst, Hel. simpl.
      rewrite Hnull. simpl.
      split_and!; try done.
      * unfold IncUsage. destruct (m_usage s !! _); by destruct s.
      * unfold IncUsage. destruct (m_usage s !! _); simpl; rewrite lookup_insert_eq; by destruct s.
      * intros Hrow. specialize (Hrow key). unfold DecUsage, IncUsage. fold id.
        destruct (m_usage s !! id) as [n|] eqn:Hn; simpl; rewrite lookup_insert_eq; simpl;
          rewrite lookup_insert_eq; simpl.
        -- destruct (Hrow n eq_refl Hn) as [Hn0 Hn2].
           assert (to_uint (n + 1) = n + 1) as -> by wrap_lia.
           assert (to_uint (n + 1 + 1) = n + 2) as -> by wrap_lia.
           assert (to_uint (n + 2 - 1) = n + 1) as -> by wrap_lia.
           destruct (n + 1 =? 0) eqn:Hz; [lia|]. simpl. eexists. f_equal. f_equal.
           destruct s; simpl. by rewrite !insert_insert_eq.
        -- change (to_uint (1 + 1)) with 2. change (to_uint (2 - 1)) with 1. simpl.
           eexists. f_equal. f_equal. destruct s; simpl. by rewrite !insert_insert_eq.
  - exists Handle_empty, s, s. rewrite HR. split_and!; try done; try (by destruct s).
    intros _. exists Handle_empty. done.
Qed.

(** C9: for a handle that holds a value of the cache, a copy raises the
    count of its holders by one, and a copy followed by the destruction
    of the copy leaves the usage map as it was; a move hands the hold
    over, the handle moved from releases nothing.  The destructor,
    [Release], and both assignments lower the count by one and trip
    the assertion exactly when the handle was the last holder;
    [Release] leaves the handle empty.  A copy assignment then counts
    a holder for the value of the right-hand side, a move assignment
    takes over its hold and empties it.  When the right-hand side is
    the handle itself, [Release] has cleared the value before it is
    read: the copy assignment leaves the handle empty, the move
    assignment leaves it without cache and value, and the count is one
    less.  The row of the value counts at least one holder and fewer
    than 2^32 - 1. *)
Theorem C9_handle_counts_usage s h key :
  pins h = true → h_key h = Some key →
  (∀ n, m_usage s !! usage_id key (h_value h) = Some n → 1 ≤ n ∧ n + 1 < 4294967296) →
  let count s := usage_count s key (h_value h) in
  (∃ s1, Handle_copy h s = Ret (h, s1) ∧ count s1 = count s + 1 ∧
     ∃ s2, Handle_destroy h s1 = Ret s2 ∧ m_usage s2 = m_usage s) ∧
  (Handle_move h = (h, mkHandle false (Some key) nullptr) ∧
   Handle_destroy (Handle_move h).2 s = Ret s) ∧
  (1 ≤ count s →
     ∃ h' s1, Handle_Release h s = Ret (h', s1) ∧ Handle_destroy h s = Ret s1 ∧
       IsEmpty h' = true ∧ count s1 = count s - 1 ∧
       assert_failed s1 = assert_failed s || (count s =? 1) ∧
       (∀ op, Handle_assign h (Some op) s
              = (s2 ← Handle_IncUsage op s1;
                 Ret (mkHandle (h_cache op) (h_key op) (h_value op), s2))) ∧
       Handle_assign h None s = Ret (h', s1) ∧
       (∀ op, Handle_move_assign h (Some op) s
              = Ret (mkHandle (h_cache op) (h_key op) (h_value op),
                     Some (mkHandle false (h_key op) nullptr), s1)) ∧
       Handle_move_assign h None s = Ret (mkHandle false (Some key) nullptr, None, s1)).
Proof.
  destruct h as [hc hk hv]. simpl. intros Hpins -> Hrow.
  unfold Handle_copy, Handle_destroy, Handle_assign, Handle_move_assign, Handle_move,
    Handle_Release, Handle_IncUsage, usage_count, GetUsage. simpl. rewrite Hpins.
  assert (hc = true) as -> by (unfold pins in Hpins; simpl in Hpins; by destruct hc).
  set (id := usage_id key hv) in *. split_and!.
  - eexists. split; [done|]. unfold IncUsage, DecUsage. fold id.
    destruct (m_usage s !! id) as [n|] eqn:Hn; simpl; rewrite lookup_insert_eq; simpl.
    + destruct (Hrow n eq_refl) as [Hn1 Hn2].
      assert (to_uint (n + 1) = n + 1) as -> by wrap_lia.
      assert (to_uint (n + 1 - 1) = n) as -> by wrap_lia.
      split; [done|]. destruct (n =? 0) eqn:Hz; [lia|]. simpl. eexists. split; [done|].
      simpl. rewrite insert_insert_eq. by apply insert_id.
    + split; [done|]. change (to_uint (1 - 1) =? 0) with true. simpl. eexists. split; [done|].
      simpl. rewrite delete_insert_eq. by apply delete_id.
  - done.
  - done.
  - unfold DecUsage. fold id. destruct (m_usage s !! id) as [n|] eqn:Hn; simpl; [|lia].
    intros _. destruct (Hrow n eq_refl) as [Hn1 Hn2].
    assert (to_uint (n - 1) = n - 1) as -> by wrap_lia.
    destruct (n - 1 =? 0) eqn:Hz; simpl.
    + do 2 eexists. split_and!; try done.
      * simpl. rewrite lookup_delete_eq. simpl. lia.
      * assert (n = 1) as -> by lia. simpl. by rewrite orb_true_r.
    + do 2 eexists. split_and!; try done.
      * simpl. rewrite lookup_insert_eq. done.
      * assert ((n =? 1) = false) as -> by lia. by rewrite orb_false_r.
Qed.



(** C1 (amended): for an insertion of a key that is not resident made
    while [IsFull] holds, the capacity c that the two sweeps, the
    demotion, the history replacement and the adaptation of p and q
    work with is |T1| + |T2|, read once before the sweeps start; it is
    max(maxNumElements, |T1| + |T2|) when maxNumElements does not
    exceed the number of residents, which is so whenever the limit on
    the number of elements is what made the cache full. *)
Theorem C1_capacity_of_a_full_cache key value acquired s :
  m_T1T2map s !! key = None → IsFull s = true →
  let c := size_of (m_T1Queue s) + size_of (m_T2Queue s) in
  let v := inserted_value value acquired in
  capacity s = c ∧
  InternalInsert key value acquired s =
    (s1 ← replace key c (insert_start key value acquired s);
     s2 ← install key v c s1;
     Handle_new key v (set_usedMemory (to_size_t (m_usedMemory s2 + CacheGetValueSize v)) s2)) ∧
  (m_maxNumElements s ≤ c → c = Z.max (m_maxNumElements s) c) ∧
  (m_maxUsedMemory s = 0 → c = Z.max (m_maxNumElements s) c).
Proof.
  intros HR Hfull. simpl.
  assert (capacity s = size_of (m_T1Queue s) + size_of (m_T2Queue s)) as Hcap.
  { unfold capacity. by rewrite Hfull. }
  split_and!; [done| |lia|].
  - rewrite InternalInsert_miss by done. simpl.
    destruct (insert_start_fields key value acquired s) as (-> & -> & _).
    by rewrite Hfull, Hcap.
  - intros HM. unfold IsFull in Hfull. rewrite HM in Hfull. simpl in Hfull.
    rewrite orb_false_r in Hfull. apply andb_true_iff in Hfull as [_ Hge]. lia.
Qed.

(** C2 (amended): the cache has no path for a loader that fails.  When
    [CacheAcquireValue] answers a null pointer for a key that is not
    resident, [FindOrCreate] (and [InsertIntoCache] of a null value)
    returns as for any other value: the call hands back a handle that
    is empty, and the key is resident, its node at the tail of T1 with
    a null page and the reference bit clear. *)
Theorem C2_null_value_is_installed s key :
  reachable s → residents_fit s → m_T1T2map s !! key = None →
  ∃ s' e el,
    FindOrCreate key nullptr s = Ret (mkHandle true (Some key) nullptr, s') ∧
    InsertIntoCache key nullptr nullptr s = Ret (mkHandle true (Some key) nullptr, s') ∧
    IsEmpty (mkHandle true (Some key) nullptr) = true ∧
    m_T1T2map s' !! key = Some e ∧ last (m_T1Queue s') = Some e ∧
    store s' !! e = Some el ∧ pageKey el = key ∧ page el = nullptr ∧
    referenceBit el = false.
Proof.
  intros Hwf%reachable_wf Hfit HR.
  destruct (InternalInsert_miss_spec key nullptr nullptr s Hwf Hfit HR)
    as (s1 & s2 & s' & _ & _ & _ & _ & Hinst & Hbk & _ & Hrun).
  destruct Hinst as (e & el & HT1 & _ & Hel & Hk & Hpage & Href & _ & _ & HR2 & _).
  exists s', e, el. unfold FindOrCreate, InsertIntoCache. rewrite HR.
  change (inserted_value nullptr nullptr) with nullptr in *.
  assert (m_T1T2map s' = m_T1T2map s2 ∧ m_T1Queue s' = m_T1Queue s2 ∧ store s' = store s2)
    as (-> & -> & ->) by (rewrite Hbk; done).
  rewrite HR2, HT1, lookup_insert_eq, last_snoc. done.
Qed.


End Claims.
(** * A ghost of B2 comes back *)

Section HistoryHits.
Context {KEY : Type} `{Countable KEY} `{!CacheTraits KEY}.
Implicit Types (s : Cache KEY) (e : ptr) (el : CLOCKElement KEY) (key k : KEY).


End HistoryHits.
(** * The claims on the cache of the test program *)

Lemma three_touched_reachable : reachable three_touched.
Proof.
  exists 2, 0, (touch 1 ++ touch 2 ++ touch 3).
  split_and!; [left; lia|lia|lia|vm_compute; reflexivity].
Defined.

Lemma promoted_reachable : reachable promoted.
Proof.
  exists 2, 0, (touch 1 ++ touch 2 ++ touch 1 ++ touch 3 ++ touch 4).
  split_and!; [left; lia|lia|lia|vm_compute; reflexivity].
Defined.

Lemma one_held_reachable : reachable one_held.
Proof.
  exists 2, 0, [lookup 1].
  split_and!; [left; lia|lia|lia|vm_compute; reflexivity].
Defined.

Lemma byte_limited_reachable : reachable byte_limited.
Proof.
  exists 10, 4, (touch 1).
  split_and!; [left; lia|lia|lia|vm_compute; reflexivity].
Defined.

Lemma fresh_reachable : reachable (Cache_new (KEY := N) 2 0).
Proof. exists 2, 0, []. split_and!; [left; lia|lia|lia|reflexivity]. Defined.




(** ** C1 *)

(** With a limit of 10 entries and a budget of 4 bytes, one resident
    value of 4 bytes makes the cache full; the capacity of the next
    insertion is 1, not max(10, 1). *)
Lemma C1_counterexample :
  reachable byte_limited ∧ IsFull byte_limited = true ∧
  capacity byte_limited = 1 ∧
  Z.max (m_maxNumElements byte_limited)
        (size_of (m_T1Queue byte_limited) + size_of (m_T2Queue byte_limited)) = 10.
Proof. split; [apply byte_limited_reachable|]. vm_compute. done. Qed.

Lemma C1_witness :
  m_T1T2map byte_limited !! 2%N = None ∧ IsFull byte_limited = true ∧
  capacity byte_limited
  = size_of (m_T1Queue byte_limited) + size_of (m_T2Queue byte_limited).
Proof.
  assert (m_T1T2map byte_limited !! 2%N = None) as HR by (vm_compute; reflexivity).
  assert (IsFull byte_limited = true) as Hfull by (vm_compute; reflexivity).
  split_and!; [exact HR|exact Hfull|].
  exact (proj1 (C1_capacity_of_a_full_cache 2%N nullptr (value_of 2) byte_limited HR Hfull)).
Defined.

(** ** C2 *)

(** A loader that answers null for key 1 on a new cache: the call
    returns an empty handle and no error, and the cache has changed:
    key 1 is resident in T1, counted as a Short entry, with a size
    added to the used memory and a row in the usage map. *)
Lemma C2_counterexample :
  m_T1T2map (Cache_new (KEY := N) 2 0) !! 1%N = None ∧
  ∃ h s',
    FindOrCreate 1%N nullptr (Cache_new 2 0) = Ret (h, s') ∧ IsEmpty h = true ∧
    m_T1T2map s' !! 1%N = Some 1%N ∧ m_T1Queue s' = [1%N] ∧
    m_numShort s' = 1 ∧ m_usedMemory s' = 4 ∧
    m_usage s' !! usage_id 1%N nullptr = Some 1 ∧
    s' ≠ Cache_new 2 0.
Proof.
  split; [reflexivity|]. eexists _, _. split; [vm_compute; reflexivity|].
  split_and!; try (vm_compute; reflexivity). intros Heq.
  apply (f_equal m_numShort) in Heq. vm_compute in Heq. discriminate.
Qed.

Lemma C2_witness :
  reachable (Cache_new (KEY := N) 2 0) ∧ residents_fit (Cache_new (KEY := N) 2 0) ∧
  m_T1T2map (Cache_new (KEY := N) 2 0) !! 1%N = None ∧
  ∃ s' e el,
    FindOrCreate 1%N nullptr (Cache_new 2 0) = Ret (mkHandle true (Some 1%N) nullptr, s') ∧
    InsertIntoCache 1%N nullptr nullptr (Cache_new 2 0)
    = Ret (mkHandle true (Some 1%N) nullptr, s') ∧
    IsEmpty (mkHandle true (Some 1%N) nullptr) = true ∧
    m_T1T2map s' !! 1%N = Some e ∧ last (m_T1Queue s') = Some e ∧
    store s' !! e = Some el ∧ pageKey el = 1%N ∧ page el = nullptr ∧
    referenceBit el = false.
Proof.
  assert (residents_fit (Cache_new (KEY := N) 2 0)) as Hfit by (vm_compute; reflexivity).
  split_and!; [apply fresh_reachable|exact Hfit|reflexivity|].
  exact (C2_null_value_is_installed (Cache_new 2 0) 1%N fresh_reachable Hfit eq_refl).
Defined.

(** ** C3 *)

Lemma C3_witness :
  reachable promoted ∧
  m_numShort promoted + m_numLong promoted
  = size_of (m_T1Queue promoted) + size_of (m_T2Queue promoted).
Proof.
  split; [apply promoted_reachable|].
  exact (C3_counters_match_queues promoted promoted_reachable).
Defined.

(** ** C4 *)


(** ** C5 *)



(** ** C6 *)



(** ** C7 *)

Lemma C7_witness :
  reachable one_held ∧
  ∃ h s1 s2,
    IsInCache 1%N one_held = Ret (h, s1) ∧ IsInCache 1%N s1 = Ret (h, s2) ∧
    s1 = set_usage (m_usage s1) one_held ∧ s2 = set_usage (m_usage s2) one_held.
Proof.
  split; [apply one_held_reachable|].
  destruct (C7_peek_is_idempotent one_held 1%N one_held_reachable)
    as (h & s1 & s2 & H1 & H2 & H3 & H4 & _).
  exists h, s1, s2. split_and!; assumption.
Defined.

(** ** C9 *)

Lemma C9_witness :
  pins (handle_of 1) = true ∧ h_key (handle_of 1) = Some 1%N ∧
  (∃ s1, Handle_copy (handle_of 1) one_held = Ret (handle_of 1, s1) ∧
     usage_count s1 1%N (value_of 1) = usage_count one_held 1%N (value_of 1) + 1 ∧
     ∃ s2, Handle_destroy (handle_of 1) s1 = Ret s2 ∧ m_usage s2 = m_usage one_held) ∧
  ∃ h' s1, Handle_Release (handle_of 1) one_held = Ret (h', s1) ∧
    Handle_assign (handle_of 1) None one_held = Ret (h', s1) ∧
    Handle_move_assign (handle_of 1) None one_held
    = Ret (mkHandle false (Some 1%N) nullptr, None, s1).
Proof.
  assert (∀ n, m_usage one_held !! usage_id 1%N (h_value (handle_of 1)) = Some n →
               1 ≤ n ∧ n + 1 < 4294967296) as Hrow.
  { intros n Hn. vm_compute in Hn. injection Hn as <-. lia. }
  assert (1 ≤ usage_count one_held 1%N (h_value (handle_of 1))) as Hheld
    by (vm_compute; intros Hcmp; discriminate Hcmp).
  destruct (C9_handle_counts_usage one_held (handle_of 1) 1%N eq_refl eq_refl Hrow)
    as (Hcopy & _ & Hrel).
  destruct (Hrel Hheld) as (h' & s1 & H1 & _ & _ & _ & _ & _ & H2 & _ & H3).
  split; [reflexivity|]. split; [reflexivity|]. split; [exact Hcopy|].
  exists h', s1. split; [exact H1|]. split; [exact H2|exact H3].
Defined.

(** ** C10 *)

Lemma C10_witness :
  reachable promoted ∧ m_T2Queue promoted = [1%N] ∧
  ∀ e, e ∈ m_T2Queue promoted → ∃ el, store promoted !! e = Some el ∧ longBit el = true.
Proof.
  split; [apply promoted_reachable|]. split; [vm_compute; reflexivity|].
  exact (proj1 (C10_T2_entries_are_Long promoted promoted_reachable)).
Defined.
(** * The further properties on the cache of the test program *)

Lemma held_and_full_reachable : reachable held_and_full.
Proof.
  exists 2, 0, ([lookup 1] ++ touch 2).
  split_and!; [left; lia|lia|lia|vm_compute; reflexivity].
Defined.

Lemma all_held_reachable : reachable all_held.
Proof.
  exists 2, 0, [lookup 1; lookup 2].
  split_and!; [left; lia|lia|lia|vm_compute; reflexivity].
Defined.



Lemma resident_index_matches_queues_witness :
  reachable promoted ∧
  NoDup (m_T1Queue promoted ++ m_T2Queue promoted) ∧
  size (m_T1T2map promoted) = (length (m_T1Queue promoted) + length (m_T2Queue promoted))%nat.
Proof.
  split; [apply promoted_reachable|].
  destruct (resident_index_matches_queues promoted promoted_reachable) as (H1 & H2 & _).
  split; [exact H1|exact H2].
Defined.

Lemma ghost_index_matches_lists_witness :
  reachable promoted ∧
  NoDup (m_B1List promoted ++ m_B2List promoted) ∧
  m_B1ListSize promoted = size_of (m_B1List promoted).
Proof.
  split; [apply promoted_reachable|].
  destruct (ghost_index_matches_lists promoted promoted_reachable) as (H1 & H2 & _).
  split; [exact H1|exact H2].
Defined.

Lemma residents_and_ghosts_apart_witness :
  reachable three_touched ∧
  ∀ key, is_Some (m_T1T2map three_touched !! key) → m_B1B2map three_touched !! key = None.
Proof.
  split; [apply three_touched_reachable|].
  exact (proj1 (residents_and_ghosts_apart three_touched three_touched_reachable)).
Defined.

Lemma hit_sets_only_the_reference_bit_witness :
  reachable three_touched ∧ m_T1T2map three_touched !! 2%N = Some 2%N ∧
  ∃ el, store three_touched !! 2%N = Some el ∧ pageKey el = 2%N ∧
    ∃ s', FindOrCreate 2%N nullptr three_touched = Ret (mkHandle true (Some 2%N) (page el), s') ∧
      s' = set_usage (m_usage s')
             (set_store (<[2%N := set_referenceBit true el]> (store three_touched))
                three_touched).
Proof.
  assert (m_T1T2map three_touched !! 2%N = Some 2%N) as HR by (vm_compute; reflexivity).
  split; [apply three_touched_reachable|]. split; [exact HR|].
  destruct (hit_sets_only_the_reference_bit three_touched 2%N 2%N three_touched_reachable HR)
    as (el & Hel & Hk & Hhit).
  destruct (Hhit nullptr) as (s' & Hrun & Hs' & _).
  exists el. split; [exact Hel|]. split; [exact Hk|]. exists s'. split; [exact Hrun|exact Hs'].
Defined.

Lemma InsertIntoCache_keeps_the_resident_value_witness :
  reachable three_touched ∧ m_T1T2map three_touched !! 2%N = Some 2%N ∧
  ∃ el s', store three_touched !! 2%N = Some el ∧
    InsertIntoCache 2%N 999%N nullptr three_touched
    = Ret (mkHandle true (Some 2%N) (page el), s') ∧
    IsInCache 2%N three_touched = Ret (mkHandle true (Some 2%N) (page el), s').
Proof.
  assert (m_T1T2map three_touched !! 2%N = Some 2%N) as HR by (vm_compute; reflexivity).
  split; [apply three_touched_reachable|]. split; [exact HR|].
  destruct (InsertIntoCache_keeps_the_resident_value three_touched 2%N 2%N
              three_touched_reachable HR) as (el & Hel & _ & Hins).
  destruct (Hins 999%N nullptr) as (s' & H1 & H2 & _).
  exists el, s'. split; [exact Hel|]. split; [exact H1|exact H2].
Defined.

Lemma new_entry_filter_witness :
  reachable three_touched ∧ residents_fit three_touched ∧
  m_T1T2map three_touched !! 1%N = None ∧
  ∃ s' e el,
    InternalInsert 1%N nullptr (value_of 1) three_touched
    = Ret (mkHandle true (Some 1%N) (inserted_value nullptr (value_of 1)), s') ∧
    m_T1T2map s' !! 1%N = Some e ∧ store s' !! e = Some el ∧
    longBit el = bool_decide (is_Some (m_B1B2map three_touched !! 1%N)).
Proof.
  assert (residents_fit three_touched) as Hfit by (vm_compute; reflexivity).
  assert (m_T1T2map three_touched !! 1%N = None) as HR by (vm_compute; reflexivity).
  split; [apply three_touched_reachable|]. split; [exact Hfit|]. split; [exact HR|].
  destruct (new_entry_filter three_touched 1%N nullptr (value_of 1)
              three_touched_reachable Hfit HR)
    as (s' & e & el & Hrun & HR' & _ & Hel & _ & _ & _ & _ & Hlong & _).
  exists s', e, el. split; [exact Hrun|]. split; [exact HR'|]. split; [exact Hel|exact Hlong].
Defined.

Lemma FindOrCreate_then_lookup_witness :
  reachable three_touched ∧ residents_fit three_touched ∧
  ∃ v s',
    FindOrCreate 4%N (value_of 4) three_touched = Ret (mkHandle true (Some 4%N) v, s') ∧
    ∃ s'', IsInCache 4%N s' = Ret (mkHandle true (Some 4%N) v, s'').
Proof.
  assert (residents_fit three_touched) as Hfit by (vm_compute; reflexivity).
  split; [apply three_touched_reachable|]. split; [exact Hfit|].
  destruct (FindOrCreate_then_lookup three_touched 4%N (value_of 4)
              three_touched_reachable Hfit)
    as (v & s' & e & el & Hrun & _ & _ & _ & _ & _ & Hpeek & _).
  exists v, s'. split; [exact Hrun|exact Hpeek].
Defined.

Lemma Clear_waits_for_handles_witness :
  reachable one_held ∧ 1%N ∈ m_T1Queue one_held ++ m_T2Queue one_held ∧
  pinned one_held 1%N ∧ Clear one_held = Hang.
Proof.
  assert (1%N ∈ m_T1Queue one_held ++ m_T2Queue one_held) as Hin
    by (vm_compute; repeat constructor).
  assert (pinned one_held 1%N) as Hpin.
  { exists (mkCLOCKElement 1%N (value_of 1) false false true), 2.
    split; [vm_compute; reflexivity|]. split; [vm_compute; reflexivity|lia]. }
  split; [apply one_held_reachable|]. split; [exact Hin|]. split; [exact Hpin|].
  exact (Clear_waits_for_handles one_held 1%N one_held_reachable Hin Hpin).
Defined.

Lemma three_touched_sole e :
  e ∈ m_T1Queue three_touched ++ m_T2Queue three_touched → sole_holder three_touched e.
Proof.
  assert (m_T1Queue three_touched ++ m_T2Queue three_touched = [2%N; 3%N]) as ->
    by (vm_compute; reflexivity).
  assert (store three_touched !! 2%N
          = Some (mkCLOCKElement 2%N (value_of 2) false false true)) as Hel2
    by (vm_compute; reflexivity).
  assert (store three_touched !! 3%N
          = Some (mkCLOCKElement 3%N (value_of 3) false false true)) as Hel3
    by (vm_compute; reflexivity).
  assert (m_usage three_touched !! row_of (mkCLOCKElement 2%N (value_of 2) false false true)
          = Some 1) as Hn2 by (vm_compute; reflexivity).
  assert (m_usage three_touched !! row_of (mkCLOCKElement 3%N (value_of 3) false false true)
          = Some 1) as Hn3 by (vm_compute; reflexivity).
  intros He el n Hel Hn.
  apply elem_of_cons in He as [->|He]; [|apply elem_of_cons in He as [->|He]].
  - rewrite Hel2 in Hel. injection Hel as <-. rewrite Hn2 in Hn. by injection Hn as <-.
  - rewrite Hel3 in Hel. injection Hel as <-. rewrite Hn3 in Hn. by injection Hn as <-.
  - apply elem_of_nil in He. destruct He.
Qed.

Lemma Clear_empties_the_cache_witness :
  reachable three_touched ∧
  ∃ s', Clear three_touched = Ret s' ∧ m_T1Queue s' = [] ∧ m_T2Queue s' = [] ∧
    m_B1List s' = [] ∧ m_B2List s' = [].
Proof.
  split; [apply three_touched_reachable|].
  destruct (Clear_empties_the_cache three_touched three_touched_reachable three_touched_sole)
    as (s' & Hrun & H1 & H2 & H3 & H4 & _).
  exists s'. split; [exact Hrun|]. split; [exact H1|]. split; [exact H2|].
  split; [exact H3|exact H4].
Defined.

Lemma held_values_are_not_evicted_witness :
  let el := mkCLOCKElement 1%N (value_of 1) false false true in
  reachable held_and_full ∧ IsFull held_and_full = true ∧
  m_T1T2map held_and_full !! 3%N = None ∧ m_T1T2map held_and_full !! 1%N = Some 1%N ∧
  store held_and_full !! 1%N = Some el ∧ m_usage held_and_full !! row_of el = Some 2 ∧
  ∃ h s' el',
    InternalInsert 3%N nullptr (value_of 3) held_and_full = Ret (h, s') ∧
    m_T1T2map s' !! 1%N = Some 1%N ∧ store s' !! 1%N = Some el' ∧ page el' = page el.
Proof.
  intros el.
  assert (residents_fit held_and_full) as Hfit by (vm_compute; reflexivity).
  assert (m_T1T2map held_and_full !! 3%N = None) as HR by (vm_compute; reflexivity).
  assert (m_T1T2map held_and_full !! 1%N = Some 1%N) as Hk by (vm_compute; reflexivity).
  assert (store held_and_full !! 1%N = Some el) as Hel by (vm_compute; reflexivity).
  assert (m_usage held_and_full !! row_of el = Some 2) as Hn by (vm_compute; reflexivity).
  assert (1 < 2 < 4294967295) as Hrange by lia.
  split; [apply held_and_full_reachable|]. split; [vm_compute; reflexivity|].
  split; [exact HR|]. split; [exact Hk|]. split; [exact Hel|]. split; [exact Hn|].
  destruct (held_values_are_not_evicted held_and_full 3%N nullptr (value_of 3) 1%N 1%N el 2
              held_and_full_reachable Hfit HR Hk Hel Hn Hrange)
    as (h & s' & el' & Hrun & HR' & Hel' & _ & Hpage & _).
  exists h, s', el'. split; [exact Hrun|]. split; [exact HR'|]. split; [exact Hel'|exact Hpage].
Defined.


Lemma all_held_pinned e :
  e ∈ m_T1Queue all_held ++ m_T2Queue all_held →
  ∃ el n, store all_held !! e = Some el ∧ m_usage all_held !! row_of el = Some n
          ∧ 1 < n < 4294967295.
Proof.
  assert (m_T1Queue all_held ++ m_T2Queue all_held = [1%N; 2%N]) as ->
    by (vm_compute; reflexivity).
  intros He.
  apply elem_of_cons in He as [->|He]; [|apply elem_of_cons in He as [->|He]].
  - exists (mkCLOCKElement 1%N (value_of 1) false false true), 2.
    split; [vm_compute; reflexivity|]. split; [vm_compute; reflexivity|lia].
  - exists (mkCLOCKElement 2%N (value_of 2) false false true), 2.
    split; [vm_compute; reflexivity|]. split; [vm_compute; reflexivity|lia].
  - apply elem_of_nil in He. destruct He.
Qed.

Lemma limit_is_soft_when_all_is_held_witness :
  reachable all_held ∧ IsFull all_held = true ∧ m_T1T2map all_held !! 3%N = None ∧
  ∃ h s', InternalInsert 3%N nullptr (value_of 3) all_held = Ret (h, s') ∧
    (length (m_T1Queue s') + length (m_T2Queue s')
     = length (m_T1Queue all_held) + length (m_T2Queue all_held) + 1)%nat ∧
    released s' = released all_held.
Proof.
  assert (residents_fit all_held) as Hfit by (vm_compute; reflexivity).
  assert (m_T1T2map all_held !! 3%N = None) as HR by (vm_compute; reflexivity).
  split; [apply all_held_reachable|]. split; [vm_compute; reflexivity|]. split; [exact HR|].
  exact (limit_is_soft_when_all_is_held all_held 3%N nullptr (value_of 3)
           all_held_reachable Hfit HR all_held_pinned).
Defined.

Lemma demotion_takes_the_first_unheld_entry_witness :
  let s0 := insert_start 3%N nullptr (value_of 3) held_and_full in
  wf (Some 3%N) s0 ∧
  ∃ j1 j2 sa, flagged s0 sa ∧
    (if size_of (m_T1Queue s0) >=? Max to_uint 1 (m_p s0)
     then first_unpinned s0 (m_T1Queue s0) j1 else j1 = length (m_T1Queue s0)) ∧
    (if decide (j1 = length (m_T1Queue s0))
     then first_unpinned s0 (m_T2Queue s0) j2 else j2 = length (m_T2Queue s0)).
Proof.
  intros s0.
  assert (m_T1T2map held_and_full !! 3%N = None) as HR by (vm_compute; reflexivity).
  pose proof (insert_start_wf 3%N nullptr (value_of 3) held_and_full
                (reachable_wf _ held_and_full_reachable) HR) as Hwf.
  split; [exact Hwf|].
  destruct (demotion_takes_the_first_unheld_entry 3%N s0 Hwf)
    as (j1 & j2 & sa & Hsa & _ & H1 & H2 & _).
  exists j1, j2, sa. split; [exact Hsa|]. split; [exact H1|exact H2].
Defined.

Lemma T2_head_sweep_witness :
  let s0 := insert_start 5%N nullptr (value_of 5) T2_referenced in
  let el := mkCLOCKElement 1%N (value_of 1) true true false in
  m_T2Queue s0 = [1%N] ∧ store s0 !! 1%N = Some el ∧
  T2_sweep_cond s0 = Ret (referenceBit el).
Proof.
  intros s0 el.
  assert (m_T2Queue s0 = [1%N]) as HT2 by (vm_compute; reflexivity).
  assert (store s0 !! 1%N = Some el) as Hel by (vm_compute; reflexivity).
  assert (size_of (@nil ptr) < 2147483648) as H1 by (vm_compute; reflexivity).
  assert (size_of (m_T1Queue s0) + 1 < 2147483648) as H2 by (vm_compute; reflexivity).
  assert (0 ≤ size_of (@nil ptr) + m_B2ListSize s0 + (size_of (m_T1Queue s0) + 1)
              - m_numShort s0 < 18446744073709551616) as H3
    by (vm_compute; split; [intros Hcmp; discriminate Hcmp|reflexivity]).
  assert (-2147483648 ≤ 2 * 2 - (size_of (m_T1Queue s0) + 1) < 2147483648) as H4
    by (vm_compute; split; [intros Hcmp; discriminate Hcmp|reflexivity]).
  split; [exact HT2|]. split; [exact Hel|].
  exact (proj1 (T2_head_sweep 2 s0 1%N [] el HT2 Hel H1 H2 H3 H4)).
Defined.

